(** * Osmoscan: the transaction normalization pipeline

    A shallow embedding of the amount formatter, the transaction parser,
    the ledger client, the date formatter, the address field, the saved
    wallets and the Awaken Tax CSV exporter, followed by the properties
    proved about them.

    Conventions.
    - A JavaScript string is a [string]: a sequence of code units below
      256.
    - A [bigint] is a [Z]; [BigInt] division and remainder truncate
      towards zero ([Z.quot] and [Z.rem]).
    - A call that may raise returns a [result]; [Throw] carries the kind
      of the exception that the JavaScript code would raise. *)

From Stdlib Require Import ZArith List String Ascii Bool Lia.
Import ListNotations.

Local Open Scope string_scope.
Local Open Scope Z_scope.

(** ** Exceptions *)

Inductive JsError : Type :=
| TypeError
| SyntaxError
| RangeError
| Error (msg : string).

Inductive result (A : Type) : Type :=
| Ok (a : A)
| Throw (e : JsError).

Arguments Ok {A} a.
Arguments Throw {A} e.

Definition bind {A B : Type} (r : result A) (k : A -> result B) : result B :=
  match r with
  | Ok a => k a
  | Throw e => Throw e
  end.

Notation "x <- r ;; k" := (bind r (fun x => k))
  (at level 61, r at next level, right associativity).

(** ** JavaScript built-ins used by the sources *)

Module JS.

(** The double quote and the line feed, by character code. *)
Definition dquote : ascii := ascii_of_nat 34.
Definition newline : ascii := ascii_of_nat 10.

Definition char_code (c : ascii) : N := N_of_ascii c.

Definition in_range (lo hi : ascii) (c : ascii) : bool :=
  (char_code lo <=? char_code c)%N && (char_code c <=? char_code hi)%N.

Definition is_digit (c : ascii) : bool := in_range "0" "9" c.
Definition is_lower (c : ascii) : bool := in_range "a" "z" c.
Definition is_upper (c : ascii) : bool := in_range "A" "Z" c.

(** The characters of [[a-z0-9]]. *)
Definition is_lower_alnum (c : ascii) : bool := is_lower c || is_digit c.

(** White space and line terminators among the code units below 256:
    TAB, LF, VT, FF, CR, SPACE and the no-break space U+00A0. *)
Definition is_space (c : ascii) : bool :=
  let n := char_code c in
  ((9 <=? n)%N && (n <=? 13)%N) || (n =? 32)%N || (n =? 160)%N.

(** Truthiness of a string: only the empty string is falsy. *)
Definition truthy (s : string) : bool :=
  match s with
  | EmptyString => false
  | String _ _ => true
  end.

(** [a || b] for a possibly undefined string [a]. *)
Definition or_else (a : option string) (b : string) : string :=
  match a with
  | Some s => if truthy s then s else b
  | None => b
  end.

Fixpoint repeat_char (c : ascii) (n : nat) : string :=
  match n with
  | O => EmptyString
  | S k => String c (repeat_char c k)
  end.

(** [s.padStart(n, c)] and [s.padEnd(n, c)] for a one-character filler. *)
Definition padStart (s : string) (n : nat) (c : ascii) : string :=
  repeat_char c (n - String.length s) ++ s.

Definition padEnd (s : string) (n : nat) (c : ascii) : string :=
  s ++ repeat_char c (n - String.length s).

(** [s.slice(0, n)], [s.slice(n)] and [s.slice(a, b)] for [0 <= a <= b]. *)
Definition slice_to (s : string) (n : nat) : string := substring 0 n s.

Fixpoint slice_from (s : string) (n : nat) : string :=
  match n, s with
  | O, _ => s
  | S k, EmptyString => EmptyString
  | S k, String _ r => slice_from r k
  end.

Definition slice (s : string) (a b : nat) : string :=
  slice_to (slice_from s a) (b - a).

Definition startsWith (s p : string) : bool := prefix p s.

Fixpoint includes (s p : string) : bool :=
  prefix p s ||
  match s with
  | EmptyString => false
  | String _ r => includes r p
  end.

Definition has_char (s : string) (c : ascii) : bool :=
  includes s (String c EmptyString).

Definition upper_char (c : ascii) : ascii :=
  if is_lower c then ascii_of_N (char_code c - 32) else c.

Fixpoint toUpperCase (s : string) : string :=
  match s with
  | EmptyString => EmptyString
  | String c r => String (upper_char c) (toUpperCase r)
  end.

(** [s.split(sep)] for a one-character separator: never empty. *)
Fixpoint split (sep : ascii) (s : string) : list string :=
  match s with
  | EmptyString => [EmptyString]
  | String c r =>
      if Ascii.eqb c sep then EmptyString :: split sep r
      else match split sep r with
           | h :: t => String c h :: t
           | [] => [String c EmptyString]
           end
  end.

(** [parts.join(sep)]. *)
Fixpoint join (sep : string) (parts : list string) : string :=
  match parts with
  | [] => EmptyString
  | [p] => p
  | p :: rest => p ++ sep ++ join sep rest
  end.

(** [s.replace(/c+$/, '')]: drops the longest run of [c] that ends [s]. *)
Fixpoint strip_trailing (c : ascii) (s : string) : string :=
  match s with
  | EmptyString => EmptyString
  | String a r =>
      match strip_trailing c r with
      | EmptyString => if Ascii.eqb a c then EmptyString else String a EmptyString
      | r' => String a r'
      end
  end.

(** The last character of [s] dropped when it is [c]. *)
Fixpoint drop_last_if (c : ascii) (s : string) : string :=
  match s with
  | EmptyString => EmptyString
  | String a EmptyString => if Ascii.eqb a c then EmptyString else s
  | String a r => String a (drop_last_if c r)
  end.

(** [s.replace(/\.?0+$/, '')]: the match is the longest suffix made of
    an optional dot and one or more zeros, so the zeros that end [s] are
    dropped and then, when there was one, the dot before them. *)
Definition strip_zeros_and_dot (s : string) : string :=
  let t := strip_trailing "0" s in
  if String.eqb t s then s else drop_last_if "." t.

Fixpoint strip_leading_space (s : string) : string :=
  match s with
  | EmptyString => EmptyString
  | String a r => if is_space a then strip_leading_space r else s
  end.

Fixpoint strip_trailing_space (s : string) : string :=
  match s with
  | EmptyString => EmptyString
  | String a r =>
      match strip_trailing_space r with
      | EmptyString => if is_space a then EmptyString else String a EmptyString
      | r' => String a r'
      end
  end.

Definition trim (s : string) : string :=
  strip_trailing_space (strip_leading_space s).

(** [s.replace(/c/g, by)]: every occurrence of [c] replaced. *)
Fixpoint replace_all (c : ascii) (by_ : string) (s : string) : string :=
  match s with
  | EmptyString => EmptyString
  | String a r =>
      if Ascii.eqb a c then by_ ++ replace_all c by_ r
      else String a (replace_all c by_ r)
  end.

(** [true] when every character of [s] satisfies [p]. *)
Fixpoint every (p : ascii -> bool) (s : string) : bool :=
  match s with
  | EmptyString => true
  | String c r => p c && every p r
  end.

(** A base-unit amount as the ledger writes it: the decimal digits of a
    non-negative integer, with no sign and no leading zero. *)
Definition is_base_units (s : string) : bool :=
  match s with
  | EmptyString => false
  | String c r =>
      every is_digit s && (negb (Ascii.eqb c "0") || negb (truthy r))
  end.

(** *** BigInt *)

Definition bigint : Type := Z.

Definition digit_char (k : Z) : ascii := ascii_of_N (48 + Z.to_N k).

(** The digits of a non-negative [n], most significant first, pushed in
    front of [acc]; [fuel] bounds the number of digits. *)
Fixpoint digits_acc (fuel : nat) (n : Z) (acc : string) : string :=
  match fuel with
  | O => acc
  | S f =>
      let acc' := String (digit_char (n mod 10)) acc in
      if n <? 10 then acc' else digits_acc f (n / 10) acc'
  end.

Definition digits (n : Z) : string :=
  digits_acc (S (Z.to_nat (Z.log2 n))) n EmptyString.

(** [n.toString()] for a bigint [n]. *)
Definition BigInt_toString (n : bigint) : string :=
  if n <? 0 then String "-" (digits (- n)) else digits n.

(** The value of a digit in radix 2 to 36. *)
Definition digit_val (c : ascii) : option Z :=
  if is_digit c then Some (Z.of_N (char_code c) - 48)
  else if is_lower c then Some (Z.of_N (char_code c) - 87)
  else if is_upper c then Some (Z.of_N (char_code c) - 55)
  else None.

Fixpoint parse_digits (radix acc : Z) (s : string) : option Z :=
  match s with
  | EmptyString => Some acc
  | String c r =>
      match digit_val c with
      | Some v => if v <? radix then parse_digits radix (acc * radix + v) r else None
      | None => None
      end
  end.

(** At least one digit. *)
Definition parse_number (radix : Z) (s : string) : option Z :=
  if truthy s then parse_digits radix 0 s else None.

Definition one_of (c a b : ascii) : bool := Ascii.eqb c a || Ascii.eqb c b.

(** [0x], [0o] and [0b] literals (either case of the letter). *)
Definition radix_prefix (s : string) : option (Z * string) :=
  match s with
  | String c0 (String c1 body) =>
      if Ascii.eqb c0 "0" then
        if one_of c1 "x" "X" then Some (16, body)
        else if one_of c1 "o" "O" then Some (8, body)
        else if one_of c1 "b" "B" then Some (2, body)
        else None
      else None
  | _ => None
  end.

(** StringToBigInt: white space is trimmed, the empty string is zero, a
    decimal literal may carry a sign, a prefixed literal may not. *)
Definition StringToBigInt (s : string) : option bigint :=
  match trim s with
  | EmptyString => Some 0
  | String c r as t =>
      match radix_prefix t with
      | Some (radix, body) => parse_number radix body
      | None =>
          if Ascii.eqb c "+" then parse_number 10 r
          else if Ascii.eqb c "-" then option_map Z.opp (parse_number 10 r)
          else parse_digits 10 0 t
      end
  end.

(** [BigInt(s)] for a string [s]: a SyntaxError when [s] is no literal. *)
Definition BigInt (s : string) : result bigint :=
  match StringToBigInt s with
  | Some n => Ok n
  | None => Throw SyntaxError
  end.

(** The Number nearest to a positive integer [n], ties to even: [n]
    rounded to 53 significant bits. *)
Definition nearest_double (n : Z) : Z :=
  let e := Z.log2 n - 52 in
  if e <=? 0 then n
  else
    let q := n / 2 ^ e in
    let r := n mod 2 ^ e in
    let half := 2 ^ (e - 1) in
    let q' := if (half <? r) || ((r =? half) && Z.odd q) then q + 1 else q in
    q' * 2 ^ e.

(** The Number [10 ** decimals] for a decimal-place count [decimals] up
    to 308, as an integer.  It is the exact power of ten for
    [0 <= decimals <= 22] (every such power fits the 53-bit significand
    of a double).  Beyond, the power is no Number and the language
    leaves the last bit of the result to the implementation; the nearest
    double is taken.  The properties below use the values up to 22 and
    the one at 25, 10000000000000000905969664. *)
Definition max_exact_decimals : nat := 22.

Definition BigInt_pow10 (decimals : nat) : bigint :=
  nearest_double (10 ^ Z.of_nat decimals).

(** [BigInt(10 ** decimals)]: beyond 308 the Number is [Infinity], which
    is no integer, and [BigInt] raises a RangeError. *)
Definition BigInt_of_pow10 (decimals : nat) : result bigint :=
  if (decimals <=? 308)%nat then Ok (BigInt_pow10 decimals) else Throw RangeError.

End JS.

(** ** lib/blockchain/types.ts *)

Inductive TransactionStatus : Type := success | failed | pending.

Inductive TransactionType : Type :=
| swap
| transfer
| stake
| unstake
| claim_rewards
| provide_liquidity
| remove_liquidity
| vote
| unknown.

Record Amount : Type := mkAmount {
  value : string;
  denom : string;
  symbol : string
}.

(** A [Date] holds a time value in milliseconds since the epoch, or no
    time value at all (an invalid date). *)
Definition Date : Type := option Z.

Record Transaction : Type := mkTransaction {
  hash : string;
  timestamp : Date;
  type : TransactionType;
  status : TransactionStatus;
  amounts : list Amount;
  fee : Amount;
  memo : option string
}.

Record FetchOptions : Type := mkFetchOptions {
  limit : option Z;
  offset : option Z;
  startDate : option Date;
  endDate : option Date
}.

(** ** lib/utils/amount-formatter.ts *)

Module AmountFormatter.
Import JS.

(** [AmountFormatter.toBaseUnits(value, decimals)]. *)
Definition toBaseUnits (value : string) (decimals : nat) : result string :=
  let parts := split "." value in
  let integerPart := or_else (nth_error parts 0) "0" in
  let fractionalPart :=
    slice_to (padEnd (or_else (nth_error parts 1) EmptyString) decimals "0") decimals in
  i <- BigInt integerPart ;;
  divisor <- BigInt_of_pow10 decimals ;;
  f <- BigInt fractionalPart ;;
  let baseUnits := i * divisor + f in
  Ok (BigInt_toString baseUnits).

(** [AmountFormatter.fromBaseUnits(baseUnits, decimals)]. *)
Definition fromBaseUnits (baseUnits : string) (decimals : nat) : result string :=
  numValue <- BigInt baseUnits ;;
  divisor <- BigInt_of_pow10 decimals ;;
  let integerPart := Z.quot numValue divisor in
  let fractionalPart := Z.rem numValue divisor in
  if fractionalPart =? 0 then Ok (BigInt_toString integerPart)
  else
    let fractionalStr := padStart (BigInt_toString fractionalPart) decimals "0" in
    let trimmedFractional := strip_trailing "0" fractionalStr in
    Ok (BigInt_toString integerPart ++ "." ++ trimmedFractional).

(** [AmountFormatter.preservePrecision(value)]. *)
Definition preservePrecision (value : string) : string :=
  if has_char value "." then strip_zeros_and_dot value else value.

(** [AmountFormatter.areEqual(amount1, amount2)]. *)
Definition areEqual (amount1 amount2 : Amount) : bool :=
  String.eqb (denom amount1) (denom amount2)
  && String.eqb (preservePrecision (value amount1)) (preservePrecision (value amount2)).

(** [AmountFormatter.getDecimalPlaces(value)]. *)
Definition getDecimalPlaces (value : string) : nat :=
  match split "." value with
  | _ :: fractional :: _ => String.length fractional
  | _ => 0%nat
  end.

End AmountFormatter.

(** ** The raw records of the ledger

    The parser receives loosely typed JSON.  The records below give each
    field the parser probes; a field that may be missing, [null] or
    [undefined] is an [option]. *)

(** A coin [{denom, amount}]. *)
Record Coin : Type := mkCoin {
  coin_denom : option string;
  coin_amount : option string
}.

(** A swap route. *)
Record Route : Type := mkRoute {
  tokenInDenom : option string;
  tokenOutDenom : option string
}.

(** The [amount] member of a message: a coin list in a send message, one
    coin in a delegation message. *)
Inductive AmountField : Type :=
| NoAmount
| CoinList (coins : list (option Coin))
| OneCoin (coin : Coin).

Record Message : Type := mkMessage {
  at_type : option string;
  typeUrl : option string;
  tokenIn : option Coin;
  tokenOutMinAmount : option string;
  tokenInMaxAmount : option string;
  tokenOut : option Coin;
  routes : option (list Route);
  amount : AmountField;
  tokensIn : option (list (option Coin));
  tokensOut : option (list (option Coin))
}.

(** A message that carries a type identifier only. *)
Definition bare_message (ty : string) : Message :=
  mkMessage (Some ty) None None None None None None NoAmount None None.

Record Fee : Type := mkFee {
  fee_amount : option (list (option Coin))
}.

(** A record of the search endpoint:
    [{hash, height, code, tx: {body: {messages, memo}, authInfo: {fee}}}]. *)
Record RawTx : Type := mkRawTx {
  raw_hash : string;
  raw_height : Z;
  raw_code : Z;
  raw_messages : option (list Message);
  raw_memo : option string;
  raw_fee : option Fee
}.

(** ** lib/blockchain/transaction-parser.ts *)

Module TransactionParser.
Import JS.

Record ParsedTransaction : Type := mkParsed {
  parsed_type : TransactionType;
  parsed_amounts : list Amount
}.

(** The members every object inherits from [Object.prototype]: a lookup
    [table[key]] in an object literal finds them when [key] is none of
    the table's own keys. *)
Definition Object_prototype_keys : list string :=
  [ "constructor"; "__defineGetter__"; "__defineSetter__"; "hasOwnProperty";
    "__lookupGetter__"; "__lookupSetter__"; "isPrototypeOf";
    "propertyIsEnumerable"; "toString"; "valueOf"; "__proto__";
    "toLocaleString" ].

Definition inherited (key : string) : bool :=
  existsb (String.eqb key) Object_prototype_keys.

(** The outcome of [table[key]] for an object literal [table]. *)
Inductive Lookup (A : Type) : Type :=
| Own (a : A)
| Inherited
| Undefined.

Arguments Own {A} a.
Arguments Inherited {A}.
Arguments Undefined {A}.

Fixpoint own_lookup {A : Type} (table : list (string * A)) (key : string) : option A :=
  match table with
  | [] => None
  | (k, v) :: rest => if String.eqb k key then Some v else own_lookup rest key
  end.

Definition lookup {A : Type} (table : list (string * A)) (key : string) : Lookup A :=
  match own_lookup table key with
  | Some v => Own v
  | None => if inherited key then Inherited else Undefined
  end.

Definition knownDecimals : list (string * nat) :=
  [ ("uosmo", 6%nat); ("uion", 6%nat); ("uatom", 6%nat) ].

(** [getDecimals(denom)]; [None] when the table lookup yields an
    inherited member, which is no number. *)
Definition getDecimals (denom : string) : option nat :=
  if startsWith denom "ibc/" then Some 6%nat
  else match lookup knownDecimals denom with
       | Own n => if Nat.eqb n 0 then Some 6%nat else Some n
       | Inherited => None
       | Undefined => Some 6%nat
       end.

(** [formatAmount(value, denom)].  [10 ** decimals] is [NaN] when
    [decimals] is no number, and [BigInt(NaN)] raises a RangeError. *)
Definition formatAmount (value : string) (denom : string) : result string :=
  let decimals := getDecimals denom in
  numValue <- BigInt value ;;
  match decimals with
  | None => Throw RangeError
  | Some decimals =>
      divisor <- BigInt_of_pow10 decimals ;;
      let integerPart := Z.quot numValue divisor in
      let fractionalPart := Z.rem numValue divisor in
      if fractionalPart =? 0 then Ok (BigInt_toString integerPart)
      else
        let fractionalStr := padStart (BigInt_toString fractionalPart) decimals "0" in
        let trimmedFractional := strip_trailing "0" fractionalStr in
        Ok (BigInt_toString integerPart ++ "." ++ trimmedFractional)
  end.

Definition knownSymbols : list (string * string) :=
  [ ("uosmo", "OSMO"); ("uion", "ION"); ("uatom", "ATOM") ].

(** [denomToSymbol(denom)]; [None] when the table lookup yields an
    inherited member, which is returned as it is and is no string. *)
Definition denomToSymbol (denom : string) : option string :=
  match lookup knownSymbols denom with
  | Own s => Some s
  | Inherited => None
  | Undefined =>
      if startsWith denom "ibc/" then
        Some ("IBC/" ++ toUpperCase (slice denom 4 10))
      else if startsWith denom "u" then
        Some (toUpperCase (slice_from denom 1))
      else Some (toUpperCase denom)
  end.

(** An amount object literal [{value, denom, symbol}]: the members are
    evaluated in this order.  [denomToSymbol] yields no string only for a
    denomination on which [formatAmount] has raised already. *)
Definition make_amount (raw_value : string) (format_denom : string) (denom : string)
  : result Amount :=
  v <- formatAmount raw_value format_denom ;;
  match denomToSymbol denom with
  | Some sym => Ok (mkAmount v denom sym)
  | None => Throw RangeError
  end.

(** [parseAmount(amount)]. *)
Definition parseAmount (amount : option Coin) : result Amount :=
  match amount with
  | None => Ok (mkAmount "0" "unknown" "UNKNOWN")
  | Some amount =>
      let denom := or_else (coin_denom amount) "unknown" in
      let value := or_else (coin_amount amount) "0" in
      make_amount value denom denom
  end.

(** [amounts.map(amt => this.parseAmount(amt))]: the first exception
    ends the traversal. *)
Fixpoint map_result {A B : Type} (f : A -> result B) (l : list A) : result (list B) :=
  match l with
  | [] => Ok []
  | a :: rest =>
      b <- f a ;;
      bs <- map_result f rest ;;
      Ok (b :: bs)
  end.

(** [parseAmounts(amounts)] for [amounts] that is an array or not. *)
Definition parseAmounts (amounts : option (list (option Coin))) : result (list Amount) :=
  match amounts with
  | None => Ok []
  | Some l => map_result parseAmount l
  end.

(** [parseFee(fee)]. *)
Definition parseFee (fee : option Fee) : result Amount :=
  match fee with
  | None => Ok (mkAmount "0" "uosmo" "OSMO")
  | Some f =>
      match fee_amount f with
      | None | Some [] => Ok (mkAmount "0" "uosmo" "OSMO")
      | Some (first :: _) => parseAmount first
      end
  end.

(** A truthy string member. *)
Definition present (o : option string) : option string :=
  match o with
  | Some s => if truthy s then Some s else None
  | None => None
  end.

(** A non-empty [routes] array. *)
Definition present_routes (o : option (list Route)) : option (list Route) :=
  match o with
  | Some (r :: rs) => Some (r :: rs)
  | _ => None
  end.

(** The amount built from a swap bound and a route denomination;
    [getDecimals] calls [startsWith] on the denomination and so raises a
    TypeError when the route has none. *)
Definition route_amount (bound : string) (route_denom : option string) : result Amount :=
  match route_denom with
  | None => Throw TypeError
  | Some d => make_amount bound d (or_else route_denom "unknown")
  end.

Definition parseMsgSwapExactAmountIn (msg : Message) : result ParsedTransaction :=
  amounts1 <- match tokenIn msg with
              | Some c => a <- parseAmount (Some c) ;; Ok [a]
              | None => Ok []
              end ;;
  amounts2 <- match present (tokenOutMinAmount msg), present_routes (routes msg) with
              | Some bound, Some rs =>
                  let lastRoute := last rs (mkRoute None None) in
                  a <- route_amount bound (tokenOutDenom lastRoute) ;;
                  Ok (amounts1 ++ [a])%list
              | _, _ => Ok amounts1
              end ;;
  Ok (mkParsed swap amounts2).

Definition parseMsgSwapExactAmountOut (msg : Message) : result ParsedTransaction :=
  amounts1 <- match present (tokenInMaxAmount msg), present_routes (routes msg) with
              | Some bound, Some rs =>
                  let firstRoute := hd (mkRoute None None) rs in
                  a <- route_amount bound (tokenInDenom firstRoute) ;;
                  Ok [a]
              | _, _ => Ok []
              end ;;
  amounts2 <- match tokenOut msg with
              | Some c => a <- parseAmount (Some c) ;; Ok (amounts1 ++ [a])%list
              | None => Ok amounts1
              end ;;
  Ok (mkParsed swap amounts2).

(** [parseAmounts(msg.amount || [])]: one coin is no array. *)
Definition parseMsgSend (msg : Message) (address : string) : result ParsedTransaction :=
  amounts <- match amount msg with
             | NoAmount => parseAmounts (Some [])
             | CoinList l => parseAmounts (Some l)
             | OneCoin _ => parseAmounts None
             end ;;
  Ok (mkParsed transfer amounts).

(** [msg.amount ? [this.parseAmount(msg.amount)] : []]: an array is
    truthy and has neither [denom] nor [amount]. *)
Definition single_amount (f : AmountField) : result (list Amount) :=
  match f with
  | NoAmount => Ok []
  | OneCoin c => a <- parseAmount (Some c) ;; Ok [a]
  | CoinList _ => a <- parseAmount (Some (mkCoin None None)) ;; Ok [a]
  end.

Definition parseMsgDelegate (msg : Message) : result ParsedTransaction :=
  amounts <- single_amount (amount msg) ;;
  Ok (mkParsed stake amounts).

Definition parseMsgUndelegate (msg : Message) : result ParsedTransaction :=
  amounts <- single_amount (amount msg) ;;
  Ok (mkParsed unstake amounts).

Definition parseMsgWithdrawDelegatorReward (msg : Message) : result ParsedTransaction :=
  Ok (mkParsed claim_rewards []).

Definition parseMsgJoinPool (msg : Message) : result ParsedTransaction :=
  amounts <- parseAmounts (Some (match tokensIn msg with Some l => l | None => [] end)) ;;
  Ok (mkParsed provide_liquidity amounts).

Definition parseMsgExitPool (msg : Message) : result ParsedTransaction :=
  amounts <- parseAmounts (Some (match tokensOut msg with Some l => l | None => [] end)) ;;
  Ok (mkParsed remove_liquidity amounts).

Definition parseMsgVote (msg : Message) : result ParsedTransaction :=
  Ok (mkParsed vote []).

(** [firstMsg['@type'] || firstMsg.typeUrl || '']. *)
Definition message_type (firstMsg : Message) : string :=
  or_else (at_type firstMsg) (or_else (typeUrl firstMsg) EmptyString).

(** [parseMessages(messages, address)]. *)
Definition parseMessages (messages : option (list Message)) (address : string)
  : result ParsedTransaction :=
  match messages with
  | None | Some [] => Ok (mkParsed unknown [])
  | Some (firstMsg :: _) =>
      let msgType := message_type firstMsg in
      if includes msgType "MsgSwapExactAmountIn" then parseMsgSwapExactAmountIn firstMsg
      else if includes msgType "MsgSwapExactAmountOut" then parseMsgSwapExactAmountOut firstMsg
      else if includes msgType "MsgSend" then parseMsgSend firstMsg address
      else if includes msgType "MsgDelegate" then parseMsgDelegate firstMsg
      else if includes msgType "MsgUndelegate" then parseMsgUndelegate firstMsg
      else if includes msgType "MsgWithdrawDelegatorReward" then
        parseMsgWithdrawDelegatorReward firstMsg
      else if includes msgType "MsgJoinPool" || includes msgType "JoinPool" then
        parseMsgJoinPool firstMsg
      else if includes msgType "MsgExitPool" || includes msgType "ExitPool" then
        parseMsgExitPool firstMsg
      else if includes msgType "MsgVote" then parseMsgVote firstMsg
      else Ok (mkParsed unknown [])
  end.

End TransactionParser.

(** ** lib/utils/date-formatter.ts *)

Module DateFormatter.
Import JS.

(** [new Date(ms)]: a time value beyond 8.64e15 ms is no time value. *)
Definition Date_new (ms : Z) : Date :=
  if Z.abs ms <=? 8640000000000000 then Some ms else None.

(** The civil date [(year, month, day)] of a day number counted from
    1970-01-01, in the proleptic Gregorian calendar. *)
Definition civil_from_days (days : Z) : Z * Z * Z :=
  let z := days + 719468 in
  let era := z / 146097 in
  let doe := z - era * 146097 in
  let yoe := (doe - doe / 1460 + doe / 36524 - doe / 146096) / 365 in
  let doy := doe - (365 * yoe + yoe / 4 - yoe / 100) in
  let mp := (5 * doy + 2) / 153 in
  let d := doy - (153 * mp + 2) / 5 + 1 in
  let m := if mp <? 10 then mp + 3 else mp - 9 in
  let y := yoe + era * 400 + (if m <=? 2 then 1 else 0) in
  (y, m, d).

Definition pad_number (n : Z) (width : nat) : string :=
  padStart (digits n) width "0".

(** Four digits for the years 0 to 9999, a sign and six digits beyond. *)
Definition year_string (y : Z) : string :=
  if (0 <=? y) && (y <=? 9999) then pad_number y 4
  else String (if Z.ltb y 0 then "-" else "+") (pad_number (Z.abs y) 6).

(** [date.toISOString()] for a date with time value [ms]. *)
Definition toISOString (ms : Z) : string :=
  let '(y, m, d) := civil_from_days (ms / 86400000) in
  let t := ms mod 86400000 in
  year_string y ++ "-" ++ pad_number m 2 ++ "-" ++ pad_number d 2 ++ "T"
  ++ pad_number (t / 3600000) 2 ++ ":" ++ pad_number (t / 60000 mod 60) 2 ++ ":"
  ++ pad_number (t / 1000 mod 60) 2 ++ "." ++ pad_number (t mod 1000) 3 ++ "Z".

(** [DateFormatter.toISO8601(timestamp)] for a [Date]. *)
Definition toISO8601 (timestamp : Date) : result string :=
  match timestamp with
  | None => Throw (Error "Invalid timestamp provided")
  | Some ms => Ok (toISOString ms)
  end.

Definition formatForCSV (date : Date) : result string := toISO8601 date.

(** [date.toISOString()] on a [Date] object: a [RangeError] for a date
    without time value. *)
Definition Date_toISOString (date : Date) : result string :=
  match date with
  | Some ms => Ok (toISOString ms)
  | None => Throw RangeError
  end.

(** [DateFormatter.fromBlockTime(blockTime)] for a [blockTime] that is
    an integer Number. *)
Definition fromBlockTime (blockTime : Z) : Date :=
  let timestamp := if 10000000000 <? blockTime then blockTime else blockTime * 1000 in
  Date_new timestamp.

(** [DateFormatter.getRelativeTime(date)]; [now] is the time value of
    [new Date()], and [formatForDisplay] the locale-dependent method of
    that name.  The differences are whole numbers of milliseconds, and
    a count that is written is a whole number from 1 to 59, whose text
    is its decimal digits; a comparison with [NaN], for a date without
    time value, is false. *)
Definition getRelativeTime (formatForDisplay : Date -> bool -> string) (now : Z)
  (date : Date) : string :=
  match date with
  | None => formatForDisplay date false
  | Some ms =>
      let diffMs := now - ms in
      let diffSec := diffMs / 1000 in
      let diffMin := diffSec / 60 in
      let diffHour := diffMin / 60 in
      let diffDay := diffHour / 24 in
      if diffSec <? 60 then "just now"
      else if diffMin <? 60 then
        BigInt_toString diffMin ++ " minute" ++ (if diffMin =? 1 then EmptyString else "s") ++ " ago"
      else if diffHour <? 24 then
        BigInt_toString diffHour ++ " hour" ++ (if diffHour =? 1 then EmptyString else "s") ++ " ago"
      else if diffDay <? 30 then
        BigInt_toString diffDay ++ " day" ++ (if diffDay =? 1 then EmptyString else "s") ++ " ago"
      else formatForDisplay date false
  end.

End DateFormatter.

(** ** lib/blockchain/osmosis-client.ts *)

Module OsmosisClient.
Import JS.

(** *** Address validation

    The pattern [/^osmo[a-z0-9]{39}$/] is a sequence of pieces, each a
    character class with a repetition count, anchored at both ends. *)

Inductive CharClass : Type :=
| Lit (c : ascii)
| Ranges (rs : list (ascii * ascii)).

Definition class_matches (cl : CharClass) (c : ascii) : bool :=
  match cl with
  | Lit a => Ascii.eqb c a
  | Ranges rs => existsb (fun r => in_range (fst r) (snd r) c) rs
  end.

Record Piece : Type := mkPiece {
  piece_class : CharClass;
  piece_count : nat
}.

Definition Regex : Type := list Piece.

(** [count] characters of the class [cl] at the head of [s]: what is
    left of [s], if they are there. *)
Fixpoint match_piece (cl : CharClass) (count : nat) (s : string) : option string :=
  match count with
  | O => Some s
  | S k =>
      match s with
      | EmptyString => None
      | String c r => if class_matches cl c then match_piece cl k r else None
      end
  end.

(** [regex.test(s)] for an anchored sequence of pieces. *)
Fixpoint regex_test (re : Regex) (s : string) : bool :=
  match re with
  | [] => match s with EmptyString => true | String _ _ => false end
  | p :: rest =>
      match match_piece (piece_class p) (piece_count p) s with
      | Some s' => regex_test rest s'
      | None => false
      end
  end.

Definition osmosisAddressRegex : Regex :=
  [ mkPiece (Lit "o") 1; mkPiece (Lit "s") 1; mkPiece (Lit "m") 1; mkPiece (Lit "o") 1;
    mkPiece (Ranges [("a", "z"); ("0", "9")]%char) 39 ].

(** [validateAddress(address)]. *)
Definition validateAddress (address : string) : bool :=
  regex_test osmosisAddressRegex address.

(** *** The connection

    [searchTx] answers a page request [(page, per_page)] for the queried
    address with a list of records, or raises. *)

Record PageRequest : Type := mkPageRequest {
  page : Z;
  per_page : Z
}.

Record StargateClient : Type := mkClient {
  searchTx : string -> PageRequest -> result (list RawTx)
}.

(** [parseTransaction(tx, address)]. *)
Definition parseTransaction (tx : RawTx) (address : string) : result Transaction :=
  let hash := raw_hash tx in
  let timestamp := DateFormatter.Date_new (raw_height tx * 5000) in
  let status := if raw_code tx =? 0 then success else failed in
  parsed <- TransactionParser.parseMessages (raw_messages tx) address ;;
  fee <- TransactionParser.parseFee (raw_fee tx) ;;
  let memo := TransactionParser.present (raw_memo tx) in
  Ok (mkTransaction hash timestamp
        (TransactionParser.parsed_type parsed) status
        (TransactionParser.parsed_amounts parsed) fee memo).

(** [a < b] on dates compares time values; it is false when either date
    has none. *)
Definition date_lt (a b : Date) : bool :=
  match a, b with
  | Some x, Some y => x <? y
  | _, _ => false
  end.

(** [options?.limit || 100] and [options?.offset || 0]. *)
Definition number_or (o : option Z) (default : Z) : Z :=
  match o with
  | Some n => if n =? 0 then default else n
  | None => default
  end.

Definition opt_limit (options : option FetchOptions) : option Z :=
  match options with Some o => limit o | None => None end.

Definition opt_offset (options : option FetchOptions) : option Z :=
  match options with Some o => offset o | None => None end.

Definition opt_startDate (options : option FetchOptions) : option Date :=
  match options with Some o => startDate o | None => None end.

Definition opt_endDate (options : option FetchOptions) : option Date :=
  match options with Some o => endDate o | None => None end.

(** The date filters of the inner loop: [true] when the record is
    skipped. *)
Definition filtered_out (options : option FetchOptions) (tx : Transaction) : bool :=
  match opt_startDate options with
  | Some d => date_lt (timestamp tx) d
  | None => false
  end
  ||
  match opt_endDate options with
  | Some d => date_lt d (timestamp tx)
  | None => false
  end.

(** The inner [for] loop over one page: the transactions accumulated so
    far, and whether a record made [parseTransaction] raise (the records
    before it have been pushed by then). *)
Fixpoint push_page (options : option FetchOptions) (address : string)
  (txs : list RawTx) (all : list Transaction) : list Transaction * bool :=
  match txs with
  | [] => (all, false)
  | tx :: rest =>
      match parseTransaction tx address with
      | Throw _ => (all, true)
      | Ok parsedTx =>
          if filtered_out options parsedTx then push_page options address rest all
          else push_page options address rest (all ++ [parsedTx])%list
      end
  end.

(** The state of the [while] loop; [requests] records the page requests
    made so far, oldest first. *)
Record LoopState : Type := mkLoop {
  allTransactions : list Transaction;
  cur_offset : Z;
  hasMore : bool;
  requests : list PageRequest
}.

(** The request of the next turn:
    [{page: Math.floor(offset / limit) + 1, per_page: limit}]. *)
Definition next_request (options : option FetchOptions) (st : LoopState) : PageRequest :=
  let limit := number_or (opt_limit options) 100 in
  mkPageRequest (cur_offset st / limit + 1) limit.

(** [options?.limit && allTransactions.length >= options.limit]. *)
Definition limit_reached (options : option FetchOptions) (all : list Transaction) : bool :=
  match opt_limit options with
  | Some l => negb (l =? 0) && (l <=? Z.of_nat (List.length all))
  | None => false
  end.

(** One turn of the [while (hasMore)] loop, [try] and [catch] included.
    The offset and the page size are whole numbers; their sum and the
    floor of their quotient are those of the Numbers as long as the
    offset stays below 2^53. *)
Definition loop_body (client : StargateClient) (address : string)
  (options : option FetchOptions) (st : LoopState) : LoopState :=
  let limit := number_or (opt_limit options) 100 in
  let request := next_request options st in
  let requests' := (requests st ++ [request])%list in
  match searchTx client address request with
  | Throw _ => mkLoop (allTransactions st) (cur_offset st) false requests'
  | Ok txs =>
      match txs with
      | [] => mkLoop (allTransactions st) (cur_offset st) false requests'
      | _ :: _ =>
          let '(all, raised) := push_page options address txs (allTransactions st) in
          if raised then mkLoop all (cur_offset st) false requests'
          else
            let short := Z.of_nat (List.length txs) <? limit in
            let offset' := if short then cur_offset st else cur_offset st + limit in
            mkLoop all offset' (negb short && negb (limit_reached options all)) requests'
      end
  end.

(** The state before the first turn. *)
Definition initial_state (options : option FetchOptions) : LoopState :=
  mkLoop [] (number_or (opt_offset options) 0) true [].

(** The [while] loop; [None] when it is still running after [fuel]
    turns. *)
Fixpoint while_hasMore (fuel : nat) (client : StargateClient) (address : string)
  (options : option FetchOptions) (st : LoopState) : option LoopState :=
  if hasMore st then
    match fuel with
    | O => None
    | S f => while_hasMore f client address options (loop_body client address options st)
    end
  else Some st.

(** The outcome of a call: what it returns or raises, and the page
    requests it made. *)
Record FetchOutcome : Type := mkOutcome {
  returned : result (list Transaction);
  requested : list PageRequest
}.

(** [fetchTransactions(address, options)] on a client whose connection
    is [client] ([None] before [initialize]). *)
Definition fetchTransactions (fuel : nat) (client : option StargateClient)
  (address : string) (options : option FetchOptions) : option FetchOutcome :=
  match client with
  | None => Some (mkOutcome (Throw (Error "Client not initialized. Call initialize() first.")) [])
  | Some c =>
      if negb (validateAddress address) then
        Some (mkOutcome (Throw (Error "Invalid Osmosis address format")) [])
      else
        match while_hasMore fuel c address options (initial_state options) with
        | None => None
        | Some st => Some (mkOutcome (Ok (allTransactions st)) (requests st))
        end
  end.

(** *** The lookup of one transaction *)

(** The record of [getTx]: a search record with the gas and the log. *)
Record IndexedTx : Type := mkIndexedTx {
  indexed_tx : RawTx;
  raw_gasUsed : Z;
  raw_gasWanted : Z;
  raw_rawLog : option string
}.

Record TransactionDetail : Type := mkDetail {
  basicTx : Transaction;
  blockHeight : Z;
  gasUsed : Z;
  gasWanted : Z;
  rawLog : option string;
  messages : option (list Message)
}.

(** The live connection: its search, and its lookup by hash, which
    answers [null] for a hash the ledger does not know. *)
Record Connection : Type := mkConnection {
  search : StargateClient;
  getTx : string -> result (option IndexedTx)
}.

(** [getTransactionDetails(txHash)] on a client whose connection is
    [client]. *)
Definition getTransactionDetails (client : option Connection) (txHash : string)
  : result TransactionDetail :=
  match client with
  | None => Throw (Error "Client not initialized. Call initialize() first.")
  | Some c =>
      tx <- getTx c txHash ;;
      match tx with
      | None => Throw (Error ("Transaction not found: " ++ txHash))
      | Some tx =>
          basic <- parseTransaction (indexed_tx tx) EmptyString ;;
          Ok (mkDetail basic (raw_height (indexed_tx tx)) (raw_gasUsed tx)
                (raw_gasWanted tx) (raw_rawLog tx) (raw_messages (indexed_tx tx)))
      end
  end.

(** [getBlockExplorerUrl(txHash)]. *)
Definition getBlockExplorerUrl (txHash : string) : string :=
  "https://www.mintscan.io/osmosis/txs/" ++ txHash.

(** *** The life of a client *)

Record Client : Type := mkOsmosisClient {
  rpcEndpoint : string;
  client : option Connection
}.

(** [new OsmosisClient(rpcEndpoint)]; the endpoint has a default. *)
Definition new_client (endpoint : option string) : Client :=
  mkOsmosisClient
    (match endpoint with Some e => e | None => "https://rpc.osmosis.zone" end)
    None.

(** What a call does to the network: a connection made, an attempt that
    failed, a connection closed. *)
Inductive NetworkEvent : Type :=
| Connected (endpoint : string)
| ConnectFailed (endpoint : string)
| Disconnected.

(** [initialize()] runs in two parts, with its [await] between them.
    Up to the [await]: the test of [this.client]; [true] when the call
    starts a connection attempt and waits for it. *)
Definition initialize_starts (c : Client) : bool :=
  match client c with
  | Some _ => false
  | None => true
  end.

(** After the [await]: the connection that the attempt gave is assigned
    to [this.client], or the exception of the attempt is raised.  The
    client is the one of that moment, not the one that was tested. *)
Definition initialize_resumes (outcome : result Connection) (c : Client)
  : Client * result unit * list NetworkEvent :=
  match outcome with
  | Ok conn =>
      (mkOsmosisClient (rpcEndpoint c) (Some conn), Ok tt, [Connected (rpcEndpoint c)])
  | Throw e => (c, Throw e, [ConnectFailed (rpcEndpoint c)])
  end.

(** A call of [initialize()] during which nothing else runs: the client
    after the call, what the call returns or raises, and what it did to
    the network; [outcome] is that of the connection attempt, when one
    is made. *)
Definition initialize (outcome : result Connection) (c : Client)
  : Client * result unit * list NetworkEvent :=
  if initialize_starts c then initialize_resumes outcome c else (c, Ok tt, []).

(** [disconnect()]. *)
Definition disconnect (c : Client) : Client * list NetworkEvent :=
  match client c with
  | Some _ => (mkOsmosisClient (rpcEndpoint c) None, [Disconnected])
  | None => (c, [])
  end.

End OsmosisClient.

(** ** The address field of the page *)

Module WalletInput.
Import JS.

Inductive ValidationState : Type := idle | validating | valid | invalid.

(** The two state cells of the component. *)
Record InputState : Type := mkInput {
  validationState : ValidationState;
  errorMessage : string
}.

(** The component's own pattern, [/^osmo[a-z0-9]{39}$/]. *)
Definition osmosisAddressRegex : OsmosisClient.Regex :=
  [ OsmosisClient.mkPiece (OsmosisClient.Lit "o") 1;
    OsmosisClient.mkPiece (OsmosisClient.Lit "s") 1;
    OsmosisClient.mkPiece (OsmosisClient.Lit "m") 1;
    OsmosisClient.mkPiece (OsmosisClient.Lit "o") 1;
    OsmosisClient.mkPiece (OsmosisClient.Ranges [("a", "z"); ("0", "9")]%char) 39 ].

(** [validateAddress(address)] of the component: what it returns and the
    state it sets. *)
Definition validateAddress (address : string) : bool * InputState :=
  let trimmed := trim address in
  if negb (truthy trimmed) then (false, mkInput idle EmptyString)
  else
    let isValid := OsmosisClient.regex_test osmosisAddressRegex trimmed in
    if isValid then (true, mkInput valid EmptyString)
    else (false,
          mkInput invalid
            "Please enter a valid Osmosis wallet address (starting with 'osmo')").

(** [handleSubmit(e)] for the field content [value]: the argument of the
    call of [onSubmit], when the component has one and calls it, and the
    state set. *)
Definition handleSubmit (value : string) (onSubmit : bool) : option string * InputState :=
  let trimmed := trim value in
  let '(ok, st) := validateAddress trimmed in
  if ok && onSubmit then (Some trimmed, st) else (None, st).

End WalletInput.

(** ** The saved wallets

    The wallets are kept as one JSON text under one key of the local
    storage.  [Written ws] is the text that [JSON.stringify] makes of
    the array [ws]; [Unreadable] is any other text (empty, or one on
    which [JSON.parse] or the mapping of [getSavedWallets] raises). *)

Module WalletManager.
Import JS.

Record SavedWallet : Type := mkWallet {
  wallet_address : string;
  wallet_label : string;
  addedAt : Date;
  lastViewed : option Date
}.

Inductive Item : Type :=
| Absent
| Unreadable
| Written (wallets : list SavedWallet).

(** An exception of [localStorage.setItem]. *)
Record Exception : Type := mkException {
  is_DOMException : bool;
  code : Z;
  name : string
}.

(** What a method of the manager raises. *)
Inductive Raised : Type :=
| NewError (msg : string)
| Rethrown (e : Exception).

(** A wallet read back from the text: a date is written as its ISO
    string and read with [new Date], which gives the same time value; a
    date without time value is written as [null], from which [addedAt]
    is read as [new Date(null)], the epoch, and [lastViewed] as
    [undefined]. *)
Definition revive (w : SavedWallet) : SavedWallet :=
  mkWallet (wallet_address w) (wallet_label w)
    (match addedAt w with
     | Some ms => Some ms
     | None => Some 0
     end)
    (match lastViewed w with
     | Some (Some ms) => Some (Some ms)
     | _ => None
     end).

(** [getSavedWallets()]. *)
Definition getSavedWallets (item : Item) : list SavedWallet :=
  match item with
  | Absent => []
  | Unreadable => []
  | Written wallets => map revive wallets
  end.

(** [saveToStorage(wallets)]; [setItem] tells whether the storage
    refuses the text, and with which exception. *)
Definition saveToStorage (setItem : list SavedWallet -> option Exception)
  (wallets : list SavedWallet) (item : Item) : Item * option Exception :=
  match setItem wallets with
  | Some e => (item, Some e)
  | None => (Written wallets, None)
  end.

(** [isQuotaExceededError(error)]. *)
Definition isQuotaExceededError (e : Exception) : bool :=
  is_DOMException e
  && ((code e =? 22) || (code e =? 1014)
      || String.eqb (name e) "QuotaExceededError"
      || String.eqb (name e) "NS_ERROR_DOM_QUOTA_REACHED").

Definition has_address (address : string) (w : SavedWallet) : bool :=
  String.eqb (wallet_address w) address.

(** [wallets.findIndex(p)] and the assignment to the members of
    [wallets[i]]. *)
Fixpoint findIndex (p : SavedWallet -> bool) (wallets : list SavedWallet) : option nat :=
  match wallets with
  | [] => None
  | w :: rest =>
      if p w then Some 0%nat
      else match findIndex p rest with
           | Some i => Some (S i)
           | None => None
           end
  end.

Fixpoint assign_at (i : nat) (f : SavedWallet -> SavedWallet) (wallets : list SavedWallet)
  : list SavedWallet :=
  match wallets, i with
  | [], _ => []
  | w :: rest, O => f w :: rest
  | w :: rest, S j => w :: assign_at j f rest
  end.

(** [saveWallet(address, label)]; [now] and [now'] are the first and the
    second reading of the clock. *)
Definition saveWallet (setItem : list SavedWallet -> option Exception) (now now' : Z)
  (address label : string) (item : Item) : Item * option Raised :=
  let wallets := getSavedWallets item in
  let wallets' :=
    match findIndex (has_address address) wallets with
    | Some existingIndex =>
        assign_at existingIndex
          (fun w => mkWallet (wallet_address w) label (addedAt w) (Some (Some now)))
          wallets
    | None => (wallets ++ [mkWallet address label (Some now) (Some (Some now'))])%list
    end in
  match saveToStorage setItem wallets' item with
  | (item', None) => (item', None)
  | (item', Some error) =>
      if isQuotaExceededError error then
        (item', Some (NewError "Storage quota exceeded. Please remove some saved wallets."))
      else (item', Some (Rethrown error))
  end.

(** [removeWallet(address)]. *)
Definition removeWallet (setItem : list SavedWallet -> option Exception)
  (address : string) (item : Item) : Item * option Exception :=
  let wallets := getSavedWallets item in
  let filtered := filter (fun w => negb (has_address address w)) wallets in
  saveToStorage setItem filtered item.

(** The assignment to a member of the wallet that [find] returned: the
    first one with the address. *)
Fixpoint assign_first (p : SavedWallet -> bool) (f : SavedWallet -> SavedWallet)
  (wallets : list SavedWallet) : list SavedWallet :=
  match wallets with
  | [] => []
  | w :: rest => if p w then f w :: rest else w :: assign_first p f rest
  end.

(** [updateLabel(address, newLabel)]. *)
Definition updateLabel (setItem : list SavedWallet -> option Exception)
  (address newLabel : string) (item : Item) : Item * option Exception :=
  let wallets := getSavedWallets item in
  match find (has_address address) wallets with
  | Some _ =>
      saveToStorage setItem
        (assign_first (has_address address)
           (fun w => mkWallet (wallet_address w) newLabel (addedAt w) (lastViewed w))
           wallets) item
  | None => (item, None)
  end.

(** [updateLastViewed(address)]. *)
Definition updateLastViewed (setItem : list SavedWallet -> option Exception) (now : Z)
  (address : string) (item : Item) : Item * option Exception :=
  let wallets := getSavedWallets item in
  match find (has_address address) wallets with
  | Some _ =>
      saveToStorage setItem
        (assign_first (has_address address)
           (fun w => mkWallet (wallet_address w) (wallet_label w) (addedAt w)
                       (Some (Some now)))
           wallets) item
  | None => (item, None)
  end.

(** [isWalletSaved(address)] and [getWallet(address)]. *)
Definition isWalletSaved (address : string) (item : Item) : bool :=
  existsb (has_address address) (getSavedWallets item).

Definition getWallet (address : string) (item : Item) : option SavedWallet :=
  find (has_address address) (getSavedWallets item).

(** [clearAll()]. *)
Definition clearAll (item : Item) : Item := Absent.

End WalletManager.

(** ** The CSV exporter for the Awaken Tax format *)

Module CSVExporter.
Import JS.

Record AwakenTaxRow : Type := mkRow {
  row_Date : string;
  row_Type : string;
  row_Buy_Amount : string;
  row_Buy_Currency : string;
  row_Sell_Amount : string;
  row_Sell_Currency : string;
  row_Fee_Amount : string;
  row_Fee_Currency : string;
  row_Exchange : string;
  row_Transaction_ID : string
}.

Definition set_Sell (row : AwakenTaxRow) (amount currency : string) : AwakenTaxRow :=
  mkRow (row_Date row) (row_Type row) (row_Buy_Amount row) (row_Buy_Currency row)
        amount currency
        (row_Fee_Amount row) (row_Fee_Currency row) (row_Exchange row)
        (row_Transaction_ID row).

Definition set_Buy (row : AwakenTaxRow) (amount currency : string) : AwakenTaxRow :=
  mkRow (row_Date row) (row_Type row) amount currency
        (row_Sell_Amount row) (row_Sell_Currency row)
        (row_Fee_Amount row) (row_Fee_Currency row) (row_Exchange row)
        (row_Transaction_ID row).

(** [mapTransactionType(type)]: the [typeMap] table. *)
Definition mapTransactionType (ty : TransactionType) : string :=
  match ty with
  | swap => "Trade"
  | transfer => "Transfer"
  | stake => "Stake"
  | unstake => "Unstake"
  | claim_rewards => "Income"
  | provide_liquidity => "Trade"
  | remove_liquidity => "Trade"
  | vote => "Other"
  | unknown => "Other"
  end.

Definition mapSwap (tx : Transaction) (row : AwakenTaxRow) : AwakenTaxRow :=
  match amounts tx with
  | a0 :: a1 :: _ => set_Buy (set_Sell row (value a0) (symbol a0)) (value a1) (symbol a1)
  | [a0] => set_Sell row (value a0) (symbol a0)
  | [] => row
  end.

Definition mapTransfer (tx : Transaction) (row : AwakenTaxRow) : AwakenTaxRow :=
  match amounts tx with
  | a0 :: _ => set_Sell row (value a0) (symbol a0)
  | [] => row
  end.

Definition mapStake (tx : Transaction) (row : AwakenTaxRow) : AwakenTaxRow :=
  match amounts tx with
  | a0 :: _ => set_Sell row (value a0) (symbol a0)
  | [] => row
  end.

Definition mapUnstake (tx : Transaction) (row : AwakenTaxRow) : AwakenTaxRow :=
  match amounts tx with
  | a0 :: _ => set_Buy row (value a0) (symbol a0)
  | [] => row
  end.

Definition mapClaimRewards (tx : Transaction) (row : AwakenTaxRow) : AwakenTaxRow :=
  match amounts tx with
  | a0 :: _ => set_Buy row (value a0) (symbol a0)
  | [] => row
  end.

Definition mapProvideLiquidity (tx : Transaction) (row : AwakenTaxRow) : AwakenTaxRow :=
  match amounts tx with
  | _ :: _ =>
      set_Sell row (join "+" (map value (amounts tx))) (join "+" (map symbol (amounts tx)))
  | [] => row
  end.

Definition mapRemoveLiquidity (tx : Transaction) (row : AwakenTaxRow) : AwakenTaxRow :=
  match amounts tx with
  | _ :: _ =>
      set_Buy row (join "+" (map value (amounts tx))) (join "+" (map symbol (amounts tx)))
  | [] => row
  end.

(** [mapToAwakenTax(tx)]. *)
Definition mapToAwakenTax (tx : Transaction) : result AwakenTaxRow :=
  date <- DateFormatter.formatForCSV (timestamp tx) ;;
  let row :=
    mkRow date (mapTransactionType (type tx))
          EmptyString EmptyString EmptyString EmptyString
          (value (fee tx)) (symbol (fee tx)) "Osmosis" (hash tx) in
  Ok match type tx with
     | swap => mapSwap tx row
     | transfer => mapTransfer tx row
     | stake => mapStake tx row
     | unstake => mapUnstake tx row
     | claim_rewards => mapClaimRewards tx row
     | provide_liquidity => mapProvideLiquidity tx row
     | remove_liquidity => mapRemoveLiquidity tx row
     | vote | unknown => row
     end.

(** [escapeCSVField(field)]. *)
Definition escapeCSVField (field : string) : string :=
  if has_char field "," || has_char field dquote || has_char field newline then
    let escaped := replace_all dquote (String dquote (String dquote EmptyString)) field in
    String dquote (escaped ++ String dquote EmptyString)
  else field.

(** The column headers with the accessor of each column. *)
Definition headers : list (string * (AwakenTaxRow -> string)) :=
  [ ("Date", row_Date);
    ("Type", row_Type);
    ("Buy Amount", row_Buy_Amount);
    ("Buy Currency", row_Buy_Currency);
    ("Sell Amount", row_Sell_Amount);
    ("Sell Currency", row_Sell_Currency);
    ("Fee Amount", row_Fee_Amount);
    ("Fee Currency", row_Fee_Currency);
    ("Exchange", row_Exchange);
    ("Transaction ID", row_Transaction_ID) ].

(** [generateCSV(rows)]; [row[header] || ''] is [row[header]] for a
    string member. *)
Definition generateCSV (rows : list AwakenTaxRow) : string :=
  let headerRow := join "," (map (fun h => escapeCSVField (fst h)) headers) in
  let dataRows :=
    map (fun row => join "," (map (fun h => escapeCSVField (snd h row)) headers)) rows in
  join (String newline EmptyString) (headerRow :: dataRows).

(** [exportToAwakenTax(transactions)]. *)
Definition exportToAwakenTax (transactions : list Transaction) : result string :=
  rows <- TransactionParser.map_result mapToAwakenTax transactions ;;
  Ok (generateCSV rows).

(** [generateFilename(walletAddress, date)]; [now] is the time value of
    [new Date()], which is read when no date is given. *)
Definition generateFilename (now : Z) (walletAddress : string) (date : option Date)
  : result string :=
  iso <- DateFormatter.Date_toISOString
           match date with
           | Some d => d
           | None => Some now
           end ;;
  let dateStr := hd EmptyString (split "T" iso) in
  Ok ("osmosis-transactions-" ++ walletAddress ++ "-" ++ dateStr ++ ".csv").

End CSVExporter.

(** * The vocabulary of the properties *)

Module Spec.
Import JS.

(** ** Addresses *)

(** The strings a sequence of pieces stands for. *)
Fixpoint denotes (re : OsmosisClient.Regex) (s : string) : Prop :=
  match re with
  | [] => s = EmptyString
  | p :: rest =>
      exists pre suf,
        s = pre ++ suf /\
        String.length pre = OsmosisClient.piece_count p /\
        every (OsmosisClient.class_matches (OsmosisClient.piece_class p)) pre = true /\
        denotes rest suf
  end.

(** ** Pagination *)

Section Pagination.
Import OsmosisClient.

(** The first [k] turns of the loop. *)
Definition after_turns (client : StargateClient) (address : string)
  (options : option FetchOptions) (k : nat) : LoopState :=
  Nat.iter k (loop_body client address options) (initial_state options).

(** The source answers the requests for the pages [p], [p+1], ... of
    size [size] with the pages of [pages], each of exactly [size]
    records. *)
Fixpoint serves_full_pages (client : StargateClient) (address : string)
  (size p : Z) (pages : list (list RawTx)) : Prop :=
  match pages with
  | [] => True
  | pg :: rest =>
      searchTx client address (mkPageRequest p size) = Ok pg /\
      Z.of_nat (List.length pg) = size /\
      serves_full_pages client address size (p + 1) rest
  end.

(** Every record parsed, in order. *)
Definition parse_all (address : string) (txs : list RawTx) : result (list Transaction) :=
  TransactionParser.map_result (fun tx => parseTransaction tx address) txs.

(** The requests for [n] consecutive pages from page [p] on. *)
Definition page_requests (size p : Z) (n : nat) : list PageRequest :=
  map (fun i => mkPageRequest (p + Z.of_nat i) size) (seq 0 n).

Definition no_date_filter (options : option FetchOptions) : Prop :=
  opt_startDate options = None /\ opt_endDate options = None.

(** The page number of the first request. *)
Definition first_page (options : option FetchOptions) : Z :=
  number_or (opt_offset options) 0 / number_or (opt_limit options) 100 + 1.

(** A sample ledger: four send records in two pages of two. *)
Definition sample_address : string := "osmo1qqqqqqqqqqqqqqqqqqqqqqqqqqqqqqqqqq0000".

Definition sample_record (h : string) : RawTx :=
  mkRawTx h 1000 0
    (Some [mkMessage (Some "/cosmos.bank.v1beta1.MsgSend") None None None None None None
             (CoinList [Some (mkCoin (Some "uosmo") (Some "1000000"))]) None None])
    (Some EmptyString)
    (Some (mkFee (Some [Some (mkCoin (Some "uosmo") (Some "5000"))]))).

Definition sample_transaction (h : string) : Transaction :=
  mkTransaction h (Some 5000000) transfer success
    [mkAmount "1" "uosmo" "OSMO"] (mkAmount "0.005" "uosmo" "OSMO") None.

Definition two_full_pages : StargateClient :=
  mkClient (fun _ request =>
    if page request =? 1 then Ok [sample_record "TX1"; sample_record "TX2"]
    else if page request =? 2 then Ok [sample_record "TX3"; sample_record "TX4"]
    else Ok []).

Definition limit_two : option FetchOptions :=
  Some (mkFetchOptions (Some 2) None None None).

(** A ledger with one full page of the default size and one more record. *)
Definition hundred_and_one : StargateClient :=
  mkClient (fun _ request =>
    if page request =? 1 then Ok (repeat (sample_record "TX") 100)
    else if page request =? 2 then Ok [sample_record "LAST"]
    else Ok []).

(** A ledger whose second page request fails. *)
Definition failing_second_page : StargateClient :=
  mkClient (fun _ request =>
    if page request =? 1 then Ok (repeat (sample_record "TX") 100)
    else Throw (Error "connection lost")).

End Pagination.

(** ** Messages *)

Section Messages.
Import TransactionParser.

(** The patterns [parseMessages] looks for in a type identifier. *)
Definition patterns : list string :=
  [ "MsgSwapExactAmountIn"; "MsgSwapExactAmountOut"; "MsgSend"; "MsgDelegate";
    "MsgUndelegate"; "MsgWithdrawDelegatorReward"; "MsgJoinPool"; "JoinPool";
    "MsgExitPool"; "ExitPool"; "MsgVote" ].

Definition matches_no_pattern (msgType : string) : bool :=
  forallb (fun p => negb (includes msgType p)) patterns.

(** The send message of the parser's tests. *)
Definition send_five_osmo : Message :=
  mkMessage (Some "/cosmos.bank.v1beta1.MsgSend") None None None None None None
    (CoinList [Some (mkCoin (Some "uosmo") (Some "5000000"))]) None None.

End Messages.

(** ** Report rows *)

Section Rows.
Import CSVExporter.

(** The four amount columns are empty. *)
Definition no_amount_columns (row : AwakenTaxRow) : Prop :=
  row_Buy_Amount row = EmptyString /\ row_Buy_Currency row = EmptyString /\
  row_Sell_Amount row = EmptyString /\ row_Sell_Currency row = EmptyString.

(** The two parts of an ISO string, before and after the [T]. *)
Definition iso_date (ms : Z) : string :=
  let '(y, m, d) := DateFormatter.civil_from_days (ms / 86400000) in
  DateFormatter.year_string y ++ "-" ++ DateFormatter.pad_number m 2 ++ "-"
  ++ DateFormatter.pad_number d 2.

Definition iso_time (ms : Z) : string :=
  let t := ms mod 86400000 in
  DateFormatter.pad_number (t / 3600000) 2 ++ ":"
  ++ DateFormatter.pad_number (t / 60000 mod 60) 2 ++ ":"
  ++ DateFormatter.pad_number (t / 1000 mod 60) 2 ++ "."
  ++ DateFormatter.pad_number (t mod 1000) 3 ++ "Z".

Definition buy_side_empty (row : AwakenTaxRow) : Prop :=
  row_Buy_Amount row = EmptyString /\ row_Buy_Currency row = EmptyString.

Definition sell_side_empty (row : AwakenTaxRow) : Prop :=
  row_Sell_Amount row = EmptyString /\ row_Sell_Currency row = EmptyString.

(** The transaction has a time value. *)
Definition has_time (tx : Transaction) : bool :=
  match timestamp tx with Some _ => true | None => false end.

(** The swap of the end-to-end example: 10 OSMO for 5 ATOM with a fee of
    0.005 OSMO, at any valid date. *)
Definition example_swap (h : string) (ms : Z) (st : TransactionStatus)
  (note : option string) : Transaction :=
  mkTransaction h (Some ms) swap st
    [mkAmount "10" "uosmo" "OSMO"; mkAmount "5" "uatom" "ATOM"]
    (mkAmount "0.005" "uosmo" "OSMO") note.

(** The spec's words: a value needs quotes when one of its characters is
    a comma, a double quote or a line feed. *)
Definition is_special (c : ascii) : bool :=
  Ascii.eqb c "," || Ascii.eqb c dquote || Ascii.eqb c newline.

Fixpoint needs_quotes (field : string) : bool :=
  match field with
  | EmptyString => false
  | String c r => is_special c || needs_quotes r
  end.

(** The spec's words: every double quote written twice. *)
Fixpoint doubled_quotes (field : string) : string :=
  match field with
  | EmptyString => EmptyString
  | String c r =>
      if Ascii.eqb c dquote then String dquote (String dquote (doubled_quotes r))
      else String c (doubled_quotes r)
  end.

Definition quoted (field : string) : string :=
  String dquote (doubled_quotes field ++ String dquote EmptyString).

(** The spec's words: a field is written between double quotes, its
    own double quotes doubled, when it needs quotes, and as it is when
    it does not. *)
Definition encoded (field : string) : string :=
  if needs_quotes field then quoted field else field.

Definition header_line : string :=
  "Date,Type,Buy Amount,Buy Currency,Sell Amount,Sell Currency,Fee Amount,Fee Currency,Exchange,Transaction ID".

(** The spec's words: the line of a row is its ten fields in column
    order, each encoded, with one comma between two neighbours. *)
Definition line (row : AwakenTaxRow) : string :=
  encoded (row_Date row) ++ "," ++ encoded (row_Type row) ++ ","
  ++ encoded (row_Buy_Amount row) ++ "," ++ encoded (row_Buy_Currency row) ++ ","
  ++ encoded (row_Sell_Amount row) ++ "," ++ encoded (row_Sell_Currency row) ++ ","
  ++ encoded (row_Fee_Amount row) ++ "," ++ encoded (row_Fee_Currency row) ++ ","
  ++ encoded (row_Exchange row) ++ "," ++ encoded (row_Transaction_ID row).

(** The spec's words: the document is the header line and then, for
    each row in order, one line feed and the line of the row. *)
Fixpoint lines (rows : list AwakenTaxRow) : string :=
  match rows with
  | [] => EmptyString
  | row :: rest => String newline (line row ++ lines rest)
  end.

Definition document (rows : list AwakenTaxRow) : string :=
  header_line ++ lines rows.

(** A vote whose hash holds a comma. *)
Definition example_vote : Transaction :=
  mkTransaction "H,2" (Some 10000000) vote failed []
    (mkAmount "0.0025" "uosmo" "OSMO") None.

End Rows.

(** ** What a fetch may return *)

Section Fetched.
Import OsmosisClient.

(** The record was in the answer to one of the requests. *)
Definition served (client : StargateClient) (address : string)
  (requests : list PageRequest) (raw : RawTx) : Prop :=
  exists request page,
    In request requests /\ searchTx client address request = Ok page /\ In raw page.

(** What the loop keeps true of every transaction it has accumulated. *)
Definition fetched (client : StargateClient) (address : string)
  (options : option FetchOptions) (reqs : list PageRequest) (t : Transaction) : Prop :=
  (exists raw, served client address reqs raw /\ parseTransaction raw address = Ok t) /\
  filtered_out options t = false.

(** The Number arithmetic of the loop is exact: the offset is not
    negative, the page size is positive, and the offset stays below 2^53
    for [fuel] turns. *)
Definition exact_offsets (options : option FetchOptions) (fuel : nat) : Prop :=
  0 <= number_or (opt_offset options) 0 /\
  0 < number_or (opt_limit options) 100 /\
  number_or (opt_offset options) 0
  + (Z.of_nat fuel + 1) * number_or (opt_limit options) 100 < 2 ^ 53.

(** After [j] turns the requests are the [j] pages from the first one
    on, and the offset has advanced by [j] pages while the loop goes on. *)
Definition on_page (options : option FetchOptions) (j : nat) (st : LoopState) : Prop :=
  requests st =
    page_requests (number_or (opt_limit options) 100) (first_page options) j /\
  (hasMore st = true ->
   cur_offset st = number_or (opt_offset options) 0
                   + Z.of_nat j * number_or (opt_limit options) 100).

(** A connection to a ledger that knows one transaction. *)
Definition ledger_of_one : Connection :=
  mkConnection two_full_pages
    (fun h => if String.eqb h "TX1"
              then Ok (Some (mkIndexedTx (sample_record "TX1") 80000 100000 None))
              else Ok None).

(** The transactions the date filters let through. *)
Definition kept (options : option FetchOptions) (ts : list Transaction) : list Transaction :=
  filter (fun t => negb (filtered_out options t)) ts.

(** Options with both date filters, and a page whose third record has an
    amount that is no integer. *)
Definition between (from to : Z) : option FetchOptions :=
  Some (mkFetchOptions None None (Some (Some from)) (Some (Some to))).

Definition malformed_record : RawTx :=
  mkRawTx "BAD" 1000 0
    (Some [mkMessage (Some "/cosmos.bank.v1beta1.MsgSend") None None None None None None
             (CoinList [Some (mkCoin (Some "uosmo") (Some "1.5"))]) None None])
    (Some EmptyString) None.

Definition page_with_malformed_record : StargateClient :=
  mkClient (fun _ request =>
    if page request =? 1 then
      Ok [sample_record "TX1"; sample_record "TX2"; malformed_record; sample_record "TX4"]
    else Ok [sample_record "TX5"]).

End Fetched.

(** ** Relative times *)

(** The text for [n] units of time. *)
Definition ago (n : Z) (unit : string) : string :=
  JS.digits n ++ " " ++ unit ++ (if n =? 1 then EmptyString else "s") ++ " ago".

(** ** Saved wallets *)

Section Wallets.
Import WalletManager.

(** The wallets are read back from the storage as they are. *)
Definition readable (wallets : list SavedWallet) : Prop :=
  Forall (fun w => revive w = w) wallets.

(** What [saveWallet] makes of an exception of the storage. *)
Definition reported (e : Exception) : Raised :=
  if isQuotaExceededError e
  then NewError "Storage quota exceeded. Please remove some saved wallets."
  else Rethrown e.

(** A storage that takes every text, and one that is full. *)
Definition roomy : list SavedWallet -> option Exception := fun _ => None.

Definition full : list SavedWallet -> option Exception :=
  fun _ => Some (mkException true 22 "QuotaExceededError").

Definition one_wallet : Item :=
  Written [mkWallet "osmo1aaa" "main" (Some 1000) (Some (Some 2000))].

End Wallets.

(** ** The life of a client *)

Section Lifecycle.
Import OsmosisClient.

(** A call that is awaited before the next one is made; a call of
    [initialize] comes with the outcome of its connection attempt. *)
Inductive Operation : Type :=
| DoInitialize (outcome : result Connection)
| DoDisconnect.

(** A sequence of awaited calls on a client: the client after them and
    what they did to the network, oldest first. *)
Fixpoint run_operations (ops : list Operation) (c : Client)
  : Client * list NetworkEvent :=
  match ops with
  | [] => (c, [])
  | DoInitialize outcome :: rest =>
      let '(c', _, events) := initialize outcome c in
      let '(c'', events') := run_operations rest c' in
      (c'', (events ++ events')%list)
  | DoDisconnect :: rest =>
      let '(c', events) := disconnect c in
      let '(c'', events') := run_operations rest c' in
      (c'', (events ++ events')%list)
  end.

(** Calls that are not awaited overlap.  A step of such a run: a call of
    [initialize] runs up to its [await]; the oldest waiting call of
    [initialize] resumes with the outcome of its attempt; a call of
    [disconnect], which has no [await]. *)
Inductive Step : Type :=
| CallInitialize
| ResumeInitialize (outcome : result Connection)
| CallDisconnect.

(** The client and the number of calls of [initialize] that wait. *)
Fixpoint run_steps (steps : list Step) (c : Client) (waiting : nat)
  : Client * nat * list NetworkEvent :=
  match steps with
  | [] => (c, waiting, [])
  | CallInitialize :: rest =>
      run_steps rest c (if initialize_starts c then S waiting else waiting)
  | ResumeInitialize outcome :: rest =>
      match waiting with
      | O => run_steps rest c waiting
      | S w =>
          let '(c', _, events) := initialize_resumes outcome c in
          let '(c'', w', events') := run_steps rest c' w in
          (c'', w', (events ++ events')%list)
      end
  | CallDisconnect :: rest =>
      let '(c', events) := disconnect c in
      let '(c'', w', events') := run_steps rest c' waiting in
      (c'', w', (events ++ events')%list)
  end.

(** The connections made less the connections closed. *)
Fixpoint open_connections (events : list NetworkEvent) : Z :=
  match events with
  | [] => 0
  | Connected _ :: rest => 1 + open_connections rest
  | ConnectFailed _ :: rest => open_connections rest
  | Disconnected :: rest => open_connections rest - 1
  end.

(** One when the client holds a connection, zero when it holds none. *)
Definition is_connected (c : Client) : Z :=
  match client c with Some _ => 1 | None => 0 end.

End Lifecycle.

(** ** Classification *)

(** The type that the first matching pattern gives a type identifier. *)
Definition classify (msgType : string) : TransactionType :=
  if includes msgType "MsgSwapExactAmountIn" then swap
  else if includes msgType "MsgSwapExactAmountOut" then swap
  else if includes msgType "MsgSend" then transfer
  else if includes msgType "MsgDelegate" then stake
  else if includes msgType "MsgUndelegate" then unstake
  else if includes msgType "MsgWithdrawDelegatorReward" then claim_rewards
  else if includes msgType "MsgJoinPool" || includes msgType "JoinPool" then provide_liquidity
  else if includes msgType "MsgExitPool" || includes msgType "ExitPool" then remove_liquidity
  else if includes msgType "MsgVote" then vote
  else unknown.


(** ** Decimal strings *)

(** The number a string of decimal digits writes, after the digits of
    [acc]. *)
Fixpoint value_of_digits (acc : Z) (s : string) : Z :=
  match s with
  | EmptyString => acc
  | String c r => value_of_digits (acc * 10 + (Z.of_N (char_code c) - 48)) r
  end.

(** No decimal point in [s]. *)
Definition no_dot (s : string) : bool :=
  every (fun c => negb (Ascii.eqb c ".")) s.

End Spec.

(** * Properties *)

(** ** Facts about the built-ins *)

Module JSFacts.
Import JS.

Ltac by_cases_on_char c :=
  destruct c as [[] [] [] [] [] [] [] []]; vm_compute; intuition (try discriminate; eauto).

Lemma digit_is_no_space (c : ascii) : is_digit c = true -> is_space c = false.
Proof. by_cases_on_char c. Qed.

Lemma digit_is_no_dot (c : ascii) : is_digit c = true -> Ascii.eqb c "." = false.
Proof. by_cases_on_char c. Qed.

Lemma digit_is_no_sign (c : ascii) :
  is_digit c = true -> Ascii.eqb c "+" = false /\ Ascii.eqb c "-" = false.
Proof. by_cases_on_char c. Qed.

Lemma digit_is_no_radix_letter (c : ascii) :
  is_digit c = true ->
  one_of c "x" "X" = false /\ one_of c "o" "O" = false /\ one_of c "b" "B" = false.
Proof. by_cases_on_char c. Qed.

Lemma digit_val_of_digit (c : ascii) :
  is_digit c = true -> digit_val c = Some (Z.of_N (char_code c) - 48).
Proof. unfold digit_val. intros ->. reflexivity. Qed.

Lemma digit_code_range (c : ascii) :
  is_digit c = true -> 0 <= Z.of_N (char_code c) - 48 < 10.
Proof.
  unfold is_digit, in_range. intros H.
  apply andb_true_iff in H. destruct H as [H1 H2].
  apply N.leb_le in H1. apply N.leb_le in H2.
  change (char_code "0") with 48%N in H1. change (char_code "9") with 57%N in H2.
  lia.
Qed.

Lemma digit_char_is_digit (k : Z) : 0 <= k < 10 -> is_digit (digit_char k) = true.
Proof.
  intros H.
  assert (E : k = 0 \/ k = 1 \/ k = 2 \/ k = 3 \/ k = 4 \/ k = 5 \/ k = 6 \/ k = 7
              \/ k = 8 \/ k = 9) by lia.
  repeat (destruct E as [-> | E]; [reflexivity |]). subst k. reflexivity.
Qed.

Lemma digit_char_code (k : Z) :
  0 <= k < 10 -> Z.of_N (char_code (digit_char k)) - 48 = k.
Proof.
  intros H.
  assert (E : k = 0 \/ k = 1 \/ k = 2 \/ k = 3 \/ k = 4 \/ k = 5 \/ k = 6 \/ k = 7
              \/ k = 8 \/ k = 9) by lia.
  repeat (destruct E as [-> | E]; [reflexivity |]). subst k. reflexivity.
Qed.

Lemma digit_char_of_code (c : ascii) :
  is_digit c = true -> digit_char (Z.of_N (char_code c) - 48) = c.
Proof. by_cases_on_char c. Qed.

(** *** Strings *)

Lemma append_empty_r (s : string) : s ++ EmptyString = s.
Proof. induction s as [| c r IH]; simpl; [reflexivity | now rewrite IH]. Qed.

Lemma append_assoc (a b c : string) : (a ++ b) ++ c = a ++ (b ++ c).
Proof. induction a as [| x r IH]; simpl; [reflexivity | now rewrite IH]. Qed.

Lemma length_app (a b : string) :
  String.length (a ++ b) = (String.length a + String.length b)%nat.
Proof. induction a as [| x r IH]; simpl; [reflexivity | now rewrite IH]. Qed.

Lemma length_repeat_char (c : ascii) (n : nat) : String.length (repeat_char c n) = n.
Proof. induction n as [| k IH]; simpl; [reflexivity | now rewrite IH]. Qed.

Lemma every_app (p : ascii -> bool) (a b : string) :
  every p (a ++ b) = every p a && every p b.
Proof.
  induction a as [| x r IH]; simpl; [reflexivity |].
  rewrite IH. now rewrite andb_assoc.
Qed.

Lemma every_repeat_char (p : ascii -> bool) (c : ascii) (n : nat) :
  p c = true -> every p (repeat_char c n) = true.
Proof. intros H. induction n as [| k IH]; simpl; [reflexivity | now rewrite H, IH]. Qed.

Lemma slice_to_length (s : string) : slice_to s (String.length s) = s.
Proof.
  unfold slice_to. induction s as [| c r IH]; simpl; [reflexivity | now rewrite IH].
Qed.

(** Stripping a trailing run of [c] and padding it back is the identity. *)
Lemma strip_trailing_restore (c : ascii) (s : string) :
  strip_trailing c s
    ++ repeat_char c (String.length s - String.length (strip_trailing c s)) = s.
Proof.
  induction s as [| a r IH]; [reflexivity |].
  simpl. destruct (strip_trailing c r) as [| b r'] eqn:E.
  - simpl in IH. rewrite Nat.sub_0_r in IH.
    destruct (Ascii.eqb a c) eqn:Eac.
    + apply Ascii.eqb_eq in Eac. subst a. simpl. now rewrite IH.
    + simpl. now rewrite Nat.sub_0_r, IH.
  - simpl. simpl in IH. now rewrite IH.
Qed.

Lemma strip_trailing_length (c : ascii) (s : string) :
  (String.length (strip_trailing c s) <= String.length s)%nat.
Proof.
  induction s as [| a r IH]; simpl; [lia |].
  destruct (strip_trailing c r) as [| b r'].
  - destruct (Ascii.eqb a c); simpl; lia.
  - simpl in *. lia.
Qed.

Lemma padEnd_strip_trailing (c : ascii) (s : string) :
  padEnd (strip_trailing c s) (String.length s) c = s.
Proof. unfold padEnd. apply strip_trailing_restore. Qed.

Lemma every_strip_trailing (p : ascii -> bool) (c : ascii) (s : string) :
  every p s = true -> every p (strip_trailing c s) = true.
Proof.
  induction s as [| a r IH]; simpl; [reflexivity |].
  intros H. apply andb_true_iff in H. destruct H as [Ha Hr].
  specialize (IH Hr). destruct (strip_trailing c r) as [| b r'].
  - destruct (Ascii.eqb a c); simpl; [reflexivity | now rewrite Ha].
  - simpl. simpl in IH. now rewrite Ha, IH.
Qed.

(** Splitting at a separator that occurs once, or not at all. *)
Lemma split_no_sep (sep : ascii) (s : string) :
  every (fun c => negb (Ascii.eqb c sep)) s = true -> split sep s = [s].
Proof.
  induction s as [| c r IH]; simpl; [reflexivity |].
  intros H. apply andb_true_iff in H. destruct H as [Hc Hr].
  apply negb_true_iff in Hc. rewrite Hc, (IH Hr). reflexivity.
Qed.

Lemma split_one_sep (sep : ascii) (a b : string) :
  every (fun c => negb (Ascii.eqb c sep)) a = true ->
  every (fun c => negb (Ascii.eqb c sep)) b = true ->
  split sep (a ++ String sep b) = [a; b].
Proof.
  intros Ha Hb. induction a as [| c r IH]; simpl.
  - rewrite Ascii.eqb_refl. now rewrite (split_no_sep _ _ Hb).
  - simpl in Ha. apply andb_true_iff in Ha. destruct Ha as [Hc Hr].
    apply negb_true_iff in Hc. rewrite Hc, (IH Hr). reflexivity.
Qed.

Lemma every_weaken (p q : ascii -> bool) (s : string) :
  (forall c, p c = true -> q c = true) -> every p s = true -> every q s = true.
Proof.
  intros Hpq. induction s as [| c r IH]; simpl; [reflexivity |].
  intros H. apply andb_true_iff in H. destruct H as [Hc Hr].
  now rewrite (Hpq _ Hc), (IH Hr).
Qed.

Lemma digits_have_no_dot (s : string) :
  every is_digit s = true -> every (fun c => negb (Ascii.eqb c ".")) s = true.
Proof.
  apply every_weaken. intros c Hc. now rewrite (digit_is_no_dot _ Hc).
Qed.

(** *** Decimal digits *)

Lemma pow10_succ (f : nat) : 10 ^ Z.of_nat (S f) = 10 * 10 ^ Z.of_nat f.
Proof. rewrite Nat2Z.inj_succ. apply Z.pow_succ_r. apply Nat2Z.is_nonneg. Qed.

Lemma pow10_pos (f : nat) : 0 < 10 ^ Z.of_nat f.
Proof. apply Z.pow_pos_nonneg; [lia | apply Nat2Z.is_nonneg]. Qed.

(** Up to 22 decimal places the divisor is the exact power of ten. *)
Lemma BigInt_pow10_exact (d : nat) :
  (d <= max_exact_decimals)%nat -> BigInt_pow10 d = 10 ^ Z.of_nat d.
Proof.
  unfold max_exact_decimals. intros H.
  do 23 (destruct d as [| d]; [vm_compute; reflexivity |]). lia.
Qed.

Lemma BigInt_of_pow10_exact (d : nat) :
  (d <= max_exact_decimals)%nat -> BigInt_of_pow10 d = Ok (10 ^ Z.of_nat d).
Proof.
  intros H. unfold BigInt_of_pow10. rewrite (BigInt_pow10_exact d H).
  unfold max_exact_decimals in H.
  destruct (Nat.leb_spec d 308); [reflexivity | lia].
Qed.

Lemma digits_acc_S (f : nat) (n : Z) (acc : string) :
  digits_acc (S f) n acc =
  if n <? 10 then String (digit_char (n mod 10)) acc
  else digits_acc f (n / 10) (String (digit_char (n mod 10)) acc).
Proof. reflexivity. Qed.

Lemma digits_acc_app (f : nat) (n : Z) (acc : string) :
  digits_acc f n acc = digits_acc f n EmptyString ++ acc.
Proof.
  revert n acc. induction f as [| f IH]; intros n acc; [reflexivity |].
  rewrite !digits_acc_S. destruct (n <? 10); [reflexivity |].
  rewrite IH. rewrite (IH _ (String _ EmptyString)).
  now rewrite append_assoc.
Qed.

(** Any fuel that covers the number of digits gives the same digits. *)
Lemma digits_acc_fuel (f1 f2 : nat) (n : Z) (acc : string) :
  0 <= n < 10 ^ Z.of_nat (S f1) -> n < 10 ^ Z.of_nat (S f2) ->
  digits_acc (S f1) n acc = digits_acc (S f2) n acc.
Proof.
  revert f2 n acc. induction f1 as [| f1 IH]; intros f2 n acc H1 H2.
  - rewrite !digits_acc_S. change (10 ^ Z.of_nat 1) with 10 in H1.
    destruct (Z.ltb_spec n 10); [reflexivity | lia].
  - rewrite (digits_acc_S (S f1)), (digits_acc_S f2).
    destruct (Z.ltb_spec n 10) as [Hn | Hn]; [reflexivity |].
    destruct f2 as [| f2]; [change (10 ^ Z.of_nat 1) with 10 in H2; lia |].
    rewrite pow10_succ in H1, H2.
    apply IH.
    + split; [apply Z.div_pos; lia | apply Z.div_lt_upper_bound; lia].
    + apply Z.div_lt_upper_bound; lia.
Qed.

Lemma digits_fuel_ok (n : Z) :
  0 <= n -> n < 10 ^ Z.of_nat (S (Z.to_nat (Z.log2 n))).
Proof.
  intros Hn. rewrite Nat2Z.inj_succ, Z2Nat.id by apply Z.log2_nonneg.
  destruct (Z.eq_dec n 0) as [-> | Hz]; [reflexivity |].
  assert (Hs : n < 2 ^ Z.succ (Z.log2 n)) by (apply Z.log2_spec; lia).
  assert (Hp : 2 ^ Z.succ (Z.log2 n) <= 10 ^ Z.succ (Z.log2 n)).
  { apply Z.pow_le_mono_l. lia. }
  lia.
Qed.

Lemma digits_small (n : Z) :
  0 <= n < 10 -> digits n = String (digit_char n) EmptyString.
Proof.
  intros H. unfold digits. rewrite digits_acc_S.
  destruct (Z.ltb_spec n 10); [| lia].
  now rewrite Z.mod_small by lia.
Qed.

Lemma digits_large (n : Z) :
  10 <= n ->
  digits n = digits (n / 10) ++ String (digit_char (n mod 10)) EmptyString.
Proof.
  intros H. unfold digits at 1. rewrite digits_acc_S.
  destruct (Z.ltb_spec n 10); [lia |].
  assert (Hf := digits_fuel_ok n ltac:(lia)).
  destruct (Z.to_nat (Z.log2 n)) as [| F] eqn:EF.
  { change (10 ^ Z.of_nat 1) with 10 in Hf. lia. }
  rewrite digits_acc_app. f_equal. unfold digits.
  rewrite pow10_succ in Hf.
  assert (Hq : 0 <= n / 10) by (apply Z.div_pos; lia).
  apply digits_acc_fuel.
  - split; [exact Hq | apply Z.div_lt_upper_bound; lia].
  - apply digits_fuel_ok. exact Hq.
Qed.

Lemma every_digit_digits_acc (f : nat) (n : Z) (acc : string) :
  every is_digit (digits_acc f n acc) = every is_digit acc.
Proof.
  revert n acc. induction f as [| f IH]; intros n acc; [reflexivity |].
  rewrite digits_acc_S.
  assert (Hd : is_digit (digit_char (n mod 10)) = true).
  { apply digit_char_is_digit. apply Z.mod_pos_bound. lia. }
  destruct (n <? 10); [| rewrite IH]; simpl; now rewrite Hd.
Qed.

Lemma every_digit_digits (n : Z) : every is_digit (digits n) = true.
Proof. unfold digits. now rewrite every_digit_digits_acc. Qed.

Lemma digits_acc_length (f d : nat) (n : Z) (acc : string) :
  0 <= n < 10 ^ Z.of_nat (S d) ->
  (String.length (digits_acc (S f) n acc) <= S d + String.length acc)%nat.
Proof.
  revert d n acc. induction f as [| f IH]; intros d n acc H.
  - rewrite digits_acc_S. destruct (n <? 10); simpl; lia.
  - rewrite digits_acc_S. destruct (Z.ltb_spec n 10) as [Hn | Hn]; [simpl; lia |].
    destruct d as [| d]; [change (10 ^ Z.of_nat 1) with 10 in H; lia |].
    rewrite pow10_succ in H.
    etransitivity.
    + apply (IH d). split; [apply Z.div_pos; lia | apply Z.div_lt_upper_bound; lia].
    + simpl. lia.
Qed.

(** A number below [10^d] has at most [d] digits, for [d >= 1]. *)
Lemma digits_length (d : nat) (n : Z) :
  0 <= n < 10 ^ Z.of_nat (S d) -> (String.length (digits n) <= S d)%nat.
Proof.
  intros H. unfold digits.
  pose proof (digits_acc_length (Z.to_nat (Z.log2 n)) d n EmptyString H) as L.
  change (String.length EmptyString) with 0%nat in L.
  now rewrite Nat.add_0_r in L.
Qed.

Lemma digits_nonempty (n : Z) : truthy (digits n) = true.
Proof.
  unfold digits. rewrite digits_acc_S.
  destruct (n <? 10); [reflexivity |].
  rewrite digits_acc_app.
  destruct (digits_acc _ _ EmptyString); reflexivity.
Qed.

(** *** Parsing decimal digits *)

Lemma parse_digits_app (radix a : Z) (s t : string) :
  parse_digits radix a (s ++ t) =
  match parse_digits radix a s with
  | Some v => parse_digits radix v t
  | None => None
  end.
Proof.
  revert a. induction s as [| c r IH]; intros a; simpl; [reflexivity |].
  destruct (digit_val c) as [v |]; [| reflexivity].
  destruct (v <? radix); [apply IH | reflexivity].
Qed.

Lemma parse_digit_char (a k : Z) :
  0 <= k < 10 ->
  parse_digits 10 a (String (digit_char k) EmptyString) = Some (a * 10 + k).
Proof.
  intros H. simpl.
  rewrite (digit_val_of_digit _ (digit_char_is_digit k H)), (digit_char_code k H).
  destruct (Z.ltb_spec k 10); [reflexivity | lia].
Qed.

Lemma parse_digits_leading_zeros (k : nat) (s : string) :
  parse_digits 10 0 (repeat_char "0" k ++ s) = parse_digits 10 0 s.
Proof. induction k as [| k IH]; [reflexivity | exact IH]. Qed.

(** Printing, then parsing. *)
Lemma parse_digits_digits (n : Z) : 0 <= n -> parse_digits 10 0 (digits n) = Some n.
Proof.
  intros Hn. pattern n. apply Zlt_0_ind; [| exact Hn]. clear n Hn.
  intros n IH Hn. destruct (Z_lt_le_dec n 10) as [Hs | Hl].
  - rewrite digits_small by lia. rewrite parse_digit_char by lia. f_equal.
  - rewrite digits_large by lia. rewrite parse_digits_app.
    assert (Hq : 0 <= n / 10 < n).
    { split; [apply Z.div_pos; lia | apply Z.div_lt; lia]. }
    rewrite (IH (n / 10) Hq).
    rewrite parse_digit_char by (apply Z.mod_pos_bound; lia).
    f_equal. pose proof (Z.div_mod n 10). lia.
Qed.

(** Parsing, then printing: the digits after a non-zero prefix. *)
Lemma digits_parse_digits (s : string) (a : Z) :
  every is_digit s = true -> 1 <= a ->
  exists n, parse_digits 10 a s = Some n /\ 1 <= n /\ digits n = digits a ++ s.
Proof.
  revert a. induction s as [| c r IH]; intros a Hs Ha.
  - exists a. rewrite append_empty_r. auto.
  - simpl in Hs. apply andb_true_iff in Hs. destruct Hs as [Hc Hr].
    pose proof (digit_code_range c Hc) as Hv.
    simpl. rewrite (digit_val_of_digit c Hc).
    set (v := Z.of_N (char_code c) - 48) in *.
    destruct (Z.ltb_spec v 10); [| lia].
    destruct (IH (a * 10 + v) Hr ltac:(lia)) as (n & Hp & Hn & Hd).
    exists n. split; [exact Hp |]. split; [exact Hn |].
    rewrite Hd. rewrite (digits_large (a * 10 + v)) by lia.
    replace ((a * 10 + v) / 10) with a
      by (apply Z.div_unique with v; lia).
    replace ((a * 10 + v) mod 10) with v
      by (apply Z.mod_unique with a; lia).
    unfold v. rewrite (digit_char_of_code c Hc).
    now rewrite append_assoc.
Qed.

(** *** BigInt on digit strings *)

Lemma strip_trailing_space_digits (s : string) :
  every is_digit s = true -> strip_trailing_space s = s.
Proof.
  induction s as [| c r IH]; [reflexivity |].
  simpl. intros H. apply andb_true_iff in H. destruct H as [Hc Hr].
  rewrite (IH Hr). rewrite (digit_is_no_space c Hc).
  destruct r; reflexivity.
Qed.

Lemma trim_digits (s : string) : every is_digit s = true -> trim s = s.
Proof.
  intros H. unfold trim.
  assert (E : strip_leading_space s = s).
  { destruct s as [| c r]; [reflexivity |].
    simpl in H. apply andb_true_iff in H. destruct H as [Hc _].
    simpl. now rewrite (digit_is_no_space c Hc). }
  rewrite E. now apply strip_trailing_space_digits.
Qed.

Lemma radix_prefix_digits (s : string) :
  every is_digit s = true -> radix_prefix s = None.
Proof.
  destruct s as [| c0 [| c1 body]]; try reflexivity.
  simpl. intros H. apply andb_true_iff in H. destruct H as [_ H].
  apply andb_true_iff in H. destruct H as [H1 _].
  destruct (digit_is_no_radix_letter c1 H1) as (Ex & Eo & Eb).
  rewrite Ex, Eo, Eb. now destruct (Ascii.eqb c0 "0").
Qed.

(** On a string of decimal digits, [BigInt] is the decimal value; the
    empty string is zero. *)
Lemma StringToBigInt_digits (s : string) :
  every is_digit s = true -> StringToBigInt s = parse_digits 10 0 s.
Proof.
  intros H. unfold StringToBigInt. rewrite (trim_digits s H).
  destruct s as [| c r]; [reflexivity |].
  rewrite (radix_prefix_digits _ H).
  simpl in H. apply andb_true_iff in H. destruct H as [Hc _].
  destruct (digit_is_no_sign c Hc) as [Ep Em]. now rewrite Ep, Em.
Qed.

Lemma BigInt_digits (n : Z) : 0 <= n -> BigInt (digits n) = Ok n.
Proof.
  intros H. unfold BigInt.
  rewrite (StringToBigInt_digits _ (every_digit_digits n)).
  now rewrite (parse_digits_digits n H).
Qed.

Lemma BigInt_toString_nonneg (n : Z) : 0 <= n -> BigInt_toString n = digits n.
Proof. intros H. unfold BigInt_toString. destruct (Z.ltb_spec n 0); [lia | reflexivity]. Qed.

(** A base-unit string is the decimal representation of the
    non-negative integer that [BigInt] reads from it. *)
Lemma base_units_value (x : string) :
  is_base_units x = true ->
  exists n, 0 <= n /\ BigInt x = Ok n /\ BigInt_toString n = x.
Proof.
  destruct x as [| c r]; [discriminate |].
  unfold is_base_units. intros H. apply andb_true_iff in H. destruct H as [Hd Hz].
  unfold BigInt. rewrite (StringToBigInt_digits _ Hd).
  simpl in Hd. apply andb_true_iff in Hd. destruct Hd as [Hc Hr].
  pose proof (digit_code_range c Hc) as Hv.
  simpl. rewrite (digit_val_of_digit c Hc).
  set (v := Z.of_N (char_code c) - 48) in *.
  destruct (Z.ltb_spec v 10); [| lia].
  destruct (Z.eq_dec v 0) as [Ev | Ev].
  - assert (Ec : c = "0"%char).
    { rewrite <- (digit_char_of_code c Hc). fold v. now rewrite Ev. }
    subst c. simpl in Hz. destruct r as [| c' r']; [| discriminate].
    exists 0. split; [lia |]. split; reflexivity.
  - destruct (digits_parse_digits r v Hr ltac:(lia)) as (n & Hp & Hn & Hdg).
    exists n. split; [lia |]. rewrite Hp. split; [reflexivity |].
    rewrite BigInt_toString_nonneg by lia. rewrite Hdg.
    rewrite digits_small by lia. unfold v.
    now rewrite (digit_char_of_code c Hc).
Qed.

(** Every non-negative integer prints as a base-unit string. *)
Lemma digits_first_nonzero (n : Z) :
  1 <= n -> exists c r, digits n = String c r /\ Ascii.eqb c "0" = false.
Proof.
  intros Hn. assert (H0 : 0 <= n) by lia. revert Hn.
  pattern n. apply Zlt_0_ind; [| exact H0]. clear n H0.
  intros n IH _ Hn. destruct (Z_lt_le_dec n 10) as [Hs | Hl].
  - rewrite digits_small by lia. eexists _, _. split; [reflexivity |].
    assert (E : n = 1 \/ n = 2 \/ n = 3 \/ n = 4 \/ n = 5 \/ n = 6 \/ n = 7
                \/ n = 8 \/ n = 9) by lia.
    repeat (destruct E as [-> | E]; [reflexivity |]). subst n. reflexivity.
  - rewrite digits_large by lia.
    assert (Hq : 1 <= n / 10 < n).
    { split; [apply Z.div_le_lower_bound; lia | apply Z.div_lt; lia]. }
    destruct (IH (n / 10) ltac:(lia) ltac:(lia)) as (c & r & E & Hc).
    rewrite E. simpl. eauto.
Qed.

Lemma BigInt_toString_is_base_units (n : Z) :
  0 <= n -> is_base_units (BigInt_toString n) = true.
Proof.
  intros H. rewrite BigInt_toString_nonneg by exact H.
  destruct (Z.eq_dec n 0) as [-> | Hz]; [reflexivity |].
  destruct (digits_first_nonzero n ltac:(lia)) as (c & r & E & Hc).
  pose proof (every_digit_digits n) as Hd. rewrite E in *.
  unfold is_base_units. now rewrite Hd, Hc.
Qed.

End JSFacts.

(** ** Amounts: base units and decimal strings *)

Module AmountProperties.
Import JS JSFacts.

Lemma or_else_empty (s : string) : or_else (Some s) EmptyString = s.
Proof. unfold or_else. destruct s; reflexivity. Qed.

Lemma or_else_truthy (s b : string) : truthy s = true -> or_else (Some s) b = s.
Proof. unfold or_else. now intros ->. Qed.

Lemma slice_to_exact (s : string) (n : nat) : String.length s = n -> slice_to s n = s.
Proof. intros <-. apply slice_to_length. Qed.

Lemma padEnd_strip_exact (c : ascii) (s : string) (n : nat) :
  String.length s = n -> padEnd (strip_trailing c s) n c = s.
Proof. intros <-. apply padEnd_strip_trailing. Qed.

Lemma padStart_digits_length (r : Z) (d : nat) :
  0 <= r < 10 ^ Z.of_nat (S d) ->
  String.length (padStart (digits r) (S d) "0") = S d.
Proof.
  intros H. unfold padStart. rewrite length_app, length_repeat_char.
  pose proof (digits_length d r H). lia.
Qed.

Lemma BigInt_padStart_digits (r : Z) (d : nat) :
  0 <= r -> BigInt (padStart (digits r) d "0") = Ok r.
Proof.
  intros H. unfold BigInt, padStart. rewrite StringToBigInt_digits.
  - now rewrite parse_digits_leading_zeros, parse_digits_digits.
  - rewrite every_app, every_digit_digits.
    now rewrite every_repeat_char.
Qed.

Lemma BigInt_zeros (d : nat) : BigInt (repeat_char "0" d) = Ok 0.
Proof.
  unfold BigInt. rewrite StringToBigInt_digits by now apply every_repeat_char.
  rewrite <- (append_empty_r (repeat_char "0" d)).
  now rewrite parse_digits_leading_zeros.
Qed.

Lemma has_char_absent (c : ascii) (s : string) :
  every (fun a => negb (Ascii.eqb a c)) s = true -> has_char s c = false.
Proof.
  unfold has_char. induction s as [| a r IH]; [reflexivity |].
  simpl. intros H. apply andb_true_iff in H. destruct H as [Ha Hr].
  rewrite (IH Hr). apply negb_true_iff, Ascii.eqb_neq in Ha.
  destruct (ascii_dec c a) as [E | E]; [congruence | reflexivity].
Qed.

(** No bigint prints with a decimal point. *)
Lemma BigInt_toString_no_dot (n : Z) : has_char (BigInt_toString n) "." = false.
Proof.
  apply has_char_absent. unfold BigInt_toString.
  destruct (n <? 0); [simpl |]; apply digits_have_no_dot, every_digit_digits.
Qed.

(** The two branches of the conversion to a decimal string, for a
    non-negative amount [n] and the divisor [10^d]. *)
Lemma fromBaseUnits_of_value (x : string) (n : Z) (d : nat) :
  BigInt x = Ok n -> 0 <= n -> (d <= max_exact_decimals)%nat ->
  AmountFormatter.fromBaseUnits x d =
  Ok (if n mod 10 ^ Z.of_nat d =? 0 then digits (n / 10 ^ Z.of_nat d)
      else digits (n / 10 ^ Z.of_nat d)
           ++ String "." (strip_trailing "0"
                            (padStart (digits (n mod 10 ^ Z.of_nat d)) d "0"))).
Proof.
  intros Hx Hn Hd. unfold AmountFormatter.fromBaseUnits.
  rewrite Hx, (BigInt_of_pow10_exact d Hd). simpl bind.
  pose proof (pow10_pos d) as HD.
  rewrite Z.quot_div_nonneg, Z.rem_mod_nonneg by lia.
  assert (Hq : 0 <= n / 10 ^ Z.of_nat d) by (apply Z.div_pos; lia).
  assert (Hr : 0 <= n mod 10 ^ Z.of_nat d) by (apply Z.mod_pos_bound; lia).
  rewrite !BigInt_toString_nonneg by assumption.
  destruct (n mod 10 ^ Z.of_nat d =? 0); reflexivity.
Qed.

(** A base-unit string survives the conversion to a decimal string and
    back as long as [10 ** d] is exact: for every base-unit string [x]
    (the digits of a non-negative integer, no sign, no leading zero) and
    every decimal-place count [d] up to 22, [fromBaseUnits x d] returns
    a decimal string [y] with at most [d] fractional digits, so that
    nothing is truncated, and [toBaseUnits y d] returns [x]. *)
Lemma base_units_roundtrip (x : string) (d : nat) :
  is_base_units x = true ->
  (d <= max_exact_decimals)%nat ->
  exists y,
    AmountFormatter.fromBaseUnits x d = Ok y /\
    (AmountFormatter.getDecimalPlaces y <= d)%nat /\
    AmountFormatter.toBaseUnits y d = Ok x.
Proof.
  intros Hx Hd.
  destruct (base_units_value x Hx) as (n & Hn & Hparse & Hprint).
  rewrite (fromBaseUnits_of_value x n d Hparse Hn Hd).
  pose proof (pow10_pos d) as HD.
  pose proof (BigInt_of_pow10_exact d Hd) as HE.
  set (D := 10 ^ Z.of_nat d) in *.
  assert (Hq : 0 <= n / D) by (apply Z.div_pos; lia).
  assert (Hr : 0 <= n mod D < D) by (apply Z.mod_pos_bound; lia).
  pose proof (Z.div_mod n D ltac:(lia)) as Hdm.
  unfold AmountFormatter.toBaseUnits, AmountFormatter.getDecimalPlaces.
  rewrite HE.
  destruct (Z.eqb_spec (n mod D) 0) as [Hz | Hz].
  - eexists. split; [reflexivity |].
    rewrite split_no_sep by apply digits_have_no_dot, every_digit_digits.
    split; [simpl; lia |].
    simpl nth_error.
    rewrite (or_else_truthy _ _ (digits_nonempty _)).
    unfold or_else, padEnd. simpl String.length. rewrite Nat.sub_0_r. simpl append.
    rewrite (slice_to_exact _ _ (length_repeat_char "0" d)).
    rewrite BigInt_digits by exact Hq. rewrite BigInt_zeros. simpl bind.
    f_equal. rewrite <- Hprint. f_equal. lia.
  - destruct d as [| d]; [change (10 ^ Z.of_nat 0) with 1 in D; subst D; lia |].
    set (fs := padStart (digits (n mod D)) (S d) "0").
    assert (Hlen : String.length fs = S d) by (apply padStart_digits_length; exact Hr).
    assert (Hfs : every is_digit fs = true).
    { unfold fs, padStart. rewrite every_app, every_digit_digits.
      now rewrite every_repeat_char. }
    eexists. split; [reflexivity |].
    rewrite split_one_sep;
      [| apply digits_have_no_dot, every_digit_digits
       | apply digits_have_no_dot, every_strip_trailing, Hfs].
    split.
    + rewrite <- Hlen. apply strip_trailing_length.
    + simpl nth_error.
      rewrite (or_else_truthy _ _ (digits_nonempty _)), or_else_empty.
      rewrite (padEnd_strip_exact _ _ _ Hlen), (slice_to_exact _ _ Hlen).
      rewrite BigInt_digits by exact Hq.
      unfold fs. rewrite BigInt_padStart_digits by lia. simpl bind.
      f_equal. rewrite <- Hprint. f_equal. lia.
Qed.

(** The round trip at the amount 1050000 with six decimal places, by way
    of the decimal string [1.05]. *)
Lemma base_units_roundtrip_witness :
  exists y,
    AmountFormatter.fromBaseUnits "1050000" 6 = Ok y /\
    (AmountFormatter.getDecimalPlaces y <= 6)%nat /\
    AmountFormatter.toBaseUnits y 6 = Ok "1050000".
Proof.
  apply (base_units_roundtrip "1050000" 6).
  - reflexivity.
  - unfold max_exact_decimals. lia.
Defined.

(** C1.  The round trip does not hold for every decimal-place count: it
    holds for the counts up to 22, for which the Number [10 ** d] is the
    power of ten, and fails beyond.  With 25 decimal places the divisor
    [BigInt(10 ** 25)] is 10000000000000000905969664, greater than
    [10^25]; the base-unit string of [10^25] is then written [0.1], and
    [0.1] is read back as [10^24]. *)
Theorem base_units_roundtrip_only_exact_powers :
  (forall (x : string) (d : nat),
     is_base_units x = true ->
     (d <= max_exact_decimals)%nat ->
     exists y,
       AmountFormatter.fromBaseUnits x d = Ok y /\
       (AmountFormatter.getDecimalPlaces y <= d)%nat /\
       AmountFormatter.toBaseUnits y d = Ok x) /\
  BigInt_of_pow10 25 = Ok 10000000000000000905969664 /\
  is_base_units "10000000000000000000000000" = true /\
  AmountFormatter.fromBaseUnits "10000000000000000000000000" 25 = Ok "0.1" /\
  AmountFormatter.toBaseUnits "0.1" 25 = Ok "1000000000000000000000000".
Proof.
  split; [exact base_units_roundtrip |].
  repeat split; vm_compute; reflexivity.
Qed.

(** An amount with no fractional remainder, through either formatter. *)
Lemma BigInt_of_pow10_finite (d : nat) :
  (d <= 308)%nat -> BigInt_of_pow10 d = Ok (BigInt_pow10 d).
Proof.
  intros H. unfold BigInt_of_pow10. destruct (Nat.leb_spec d 308); [reflexivity | lia].
Qed.

Lemma getDecimals_value (denom : string) (d : nat) :
  TransactionParser.getDecimals denom = Some d -> d = 6%nat.
Proof.
  unfold TransactionParser.getDecimals, TransactionParser.lookup,
    TransactionParser.knownDecimals.
  cbn [TransactionParser.own_lookup].
  destruct (startsWith denom "ibc/"); [intros H; now injection H as <- |].
  destruct (String.eqb "uosmo" denom); [intros H; now injection H as <- |].
  destruct (String.eqb "uion" denom); [intros H; now injection H as <- |].
  destruct (String.eqb "uatom" denom); [intros H; now injection H as <- |].
  destruct (TransactionParser.inherited denom); intros H; [discriminate H |].
  now injection H as <-.
Qed.

Lemma fromBaseUnits_whole (x : string) (n : Z) (d : nat) :
  (d <= 308)%nat ->
  BigInt x = Ok n -> Z.rem n (BigInt_pow10 d) = 0 ->
  AmountFormatter.fromBaseUnits x d = Ok (BigInt_toString (Z.quot n (BigInt_pow10 d))).
Proof.
  intros Hd Hx Hr. unfold AmountFormatter.fromBaseUnits.
  rewrite Hx, (BigInt_of_pow10_finite d Hd). simpl bind.
  now rewrite Hr.
Qed.

Lemma formatAmount_whole (x denom : string) (n : Z) (d : nat) :
  BigInt x = Ok n -> TransactionParser.getDecimals denom = Some d ->
  Z.rem n (BigInt_pow10 d) = 0 ->
  TransactionParser.formatAmount x denom = Ok (BigInt_toString (Z.quot n (BigInt_pow10 d))).
Proof.
  intros Hx Hd Hr. unfold TransactionParser.formatAmount. rewrite Hx, Hd. simpl bind.
  rewrite BigInt_of_pow10_finite by (rewrite (getDecimals_value denom d Hd); lia).
  simpl bind. now rewrite Hr.
Qed.

(** C2.  With six decimal places, [1000000] is written [1], [1234567] is
    [1.234567], [1500000] is [1.5], [0] is [0] and [1] is [0.000001], by
    [fromBaseUnits] and by [formatAmount] for the denomination [uosmo];
    and an amount whose remainder by the divisor is zero is written as
    its integer quotient, with no decimal point. *)
Theorem toDecimal_vectors :
  (AmountFormatter.fromBaseUnits "1000000" 6 = Ok "1" /\
   AmountFormatter.fromBaseUnits "1234567" 6 = Ok "1.234567" /\
   AmountFormatter.fromBaseUnits "1500000" 6 = Ok "1.5" /\
   AmountFormatter.fromBaseUnits "0" 6 = Ok "0" /\
   AmountFormatter.fromBaseUnits "1" 6 = Ok "0.000001") /\
  (TransactionParser.formatAmount "1000000" "uosmo" = Ok "1" /\
   TransactionParser.formatAmount "1234567" "uosmo" = Ok "1.234567" /\
   TransactionParser.formatAmount "1500000" "uosmo" = Ok "1.5" /\
   TransactionParser.formatAmount "0" "uosmo" = Ok "0" /\
   TransactionParser.formatAmount "1" "uosmo" = Ok "0.000001") /\
  (forall (x : string) (n : Z) (d : nat),
     (d <= max_exact_decimals)%nat ->
     BigInt x = Ok n -> Z.rem n (BigInt_pow10 d) = 0 ->
     exists y,
       AmountFormatter.fromBaseUnits x d = Ok y /\
       y = BigInt_toString (Z.quot n (BigInt_pow10 d)) /\
       has_char y "." = false) /\
  (forall (x denom : string) (n : Z) (d : nat),
     TransactionParser.getDecimals denom = Some d ->
     BigInt x = Ok n -> Z.rem n (BigInt_pow10 d) = 0 ->
     exists y,
       TransactionParser.formatAmount x denom = Ok y /\
       y = BigInt_toString (Z.quot n (BigInt_pow10 d)) /\
       has_char y "." = false).
Proof.
  split; [repeat split; vm_compute; reflexivity |].
  split; [repeat split; vm_compute; reflexivity |].
  split.
  - intros x n d Hd Hx Hr. eexists.
    split; [apply (fromBaseUnits_whole x n d); [unfold max_exact_decimals in Hd; lia | | ];
            assumption |].
    split; [reflexivity | apply BigInt_toString_no_dot].
  - intros x denom n d Hd Hx Hr. eexists.
    split; [apply (formatAmount_whole x denom n d Hx Hd Hr) |].
    split; [reflexivity | apply BigInt_toString_no_dot].
Qed.

(** The amount 2000000 with six decimal places is written [2]. *)
Lemma toDecimal_vectors_witness :
  exists y,
    AmountFormatter.fromBaseUnits "2000000" 6 = Ok y /\
    y = BigInt_toString (Z.quot 2000000 (BigInt_pow10 6)) /\
    has_char y "." = false.
Proof.
  apply (proj1 (proj2 (proj2 toDecimal_vectors)) "2000000" 2000000 6%nat).
  - unfold max_exact_decimals. lia.
  - reflexivity.
  - reflexivity.
Defined.

End AmountProperties.

(** ** The ledger client: address validation *)

Module AddressProperties.
Import JS JSFacts OsmosisClient Spec.

Lemma match_piece_sound (cl : CharClass) (k : nat) (s s' : string) :
  match_piece cl k s = Some s' ->
  exists pre, s = pre ++ s' /\ String.length pre = k /\ every (class_matches cl) pre = true.
Proof.
  revert s. induction k as [| k IH]; intros s H.
  - injection H as <-. exists EmptyString. auto.
  - destruct s as [| c r]; [discriminate |]. simpl in H.
    destruct (class_matches cl c) eqn:Hc; [| discriminate].
    destruct (IH r H) as (pre & -> & Hl & He).
    exists (String c pre). simpl. rewrite Hl, Hc, He. auto.
Qed.

Lemma match_piece_complete (cl : CharClass) (pre s' : string) :
  every (class_matches cl) pre = true ->
  match_piece cl (String.length pre) (pre ++ s') = Some s'.
Proof.
  induction pre as [| c r IH]; [reflexivity |].
  simpl. intros H. apply andb_true_iff in H. destruct H as [Hc Hr].
  rewrite Hc. now apply IH.
Qed.

(** The matcher decides the language of the pattern. *)
Lemma regex_test_spec (re : Regex) (s : string) : regex_test re s = true <-> denotes re s.
Proof.
  revert s. induction re as [| p rest IH]; intros s.
  - simpl. destruct s; split; intros H; congruence.
  - cbn [regex_test denotes]. split.
    + destruct (match_piece (piece_class p) (piece_count p) s) as [s' |] eqn:E;
        [| discriminate].
      intros H. destruct (match_piece_sound _ _ _ _ E) as (pre & -> & Hl & He).
      exists pre, s'. rewrite <- IH. auto.
    + intros (pre & suf & -> & Hl & He & Hd).
      rewrite <- Hl, (match_piece_complete _ _ _ He). now apply IH.
Qed.

Lemma one_literal (c : ascii) (pre : string) :
  String.length pre = 1%nat -> every (class_matches (Lit c)) pre = true ->
  pre = String c EmptyString.
Proof.
  destruct pre as [| a [| b r]]; try discriminate. intros _. simpl.
  rewrite andb_true_r. intros H. apply Ascii.eqb_eq in H. now subst.
Qed.

Lemma class_lower_alnum (c : ascii) :
  class_matches (Ranges [("a", "z"); ("0", "9")]%char) c = is_lower_alnum c.
Proof. unfold is_lower_alnum, is_lower, is_digit. simpl. now rewrite orb_false_r. Qed.

Lemma every_ext (p q : ascii -> bool) (s : string) :
  (forall c, p c = q c) -> every p s = every q s.
Proof. intros E. induction s as [| c r IH]; simpl; [reflexivity | now rewrite E, IH]. Qed.

(** What the address pattern accepts. *)
Lemma validateAddress_spec (address : string) :
  validateAddress address = true <->
  exists body,
    address = "osmo" ++ body /\
    String.length body = 39%nat /\
    every is_lower_alnum body = true.
Proof.
  unfold validateAddress. rewrite regex_test_spec.
  unfold osmosisAddressRegex. cbn [denotes piece_class piece_count]. split.
  - intros (p1 & s1 & -> & L1 & E1 & p2 & s2 & -> & L2 & E2 & p3 & s3 & -> & L3 & E3
            & p4 & s4 & -> & L4 & E4 & body & s5 & -> & L5 & E5 & ->).
    rewrite (one_literal _ _ L1 E1), (one_literal _ _ L2 E2),
      (one_literal _ _ L3 E3), (one_literal _ _ L4 E4).
    exists body. rewrite append_empty_r. repeat split; [exact L5 |].
    now rewrite (every_ext _ _ body class_lower_alnum) in E5.
  - intros (body & -> & L & E).
    exists "o", ("smo" ++ body). repeat split.
    exists "s", ("mo" ++ body). repeat split.
    exists "m", ("o" ++ body). repeat split.
    exists "o", body. repeat split.
    exists body, EmptyString. rewrite append_empty_r. repeat split; [exact L |].
    now rewrite (every_ext _ _ body class_lower_alnum).
Qed.

Lemma prefix_app (p s : string) : prefix p (p ++ s) = true.
Proof.
  induction p as [| a r IH]; [destruct s; reflexivity |].
  simpl. destruct (ascii_dec a a); [exact IH | congruence].
Qed.

Lemma upper_is_not_lower_alnum (c : ascii) : is_upper c = true -> is_lower_alnum c = false.
Proof. by_cases_on_char c. Qed.

Lemma space_is_not_lower_alnum (c : ascii) : is_space c = true -> is_lower_alnum c = false.
Proof. by_cases_on_char c. Qed.

Lemma every_has (p : ascii -> bool) (s : string) (c : ascii) :
  every p s = true -> has_char s c = true -> p c = true.
Proof.
  unfold has_char. induction s as [| a r IH]; [discriminate |].
  simpl. intros H. apply andb_true_iff in H. destruct H as [Ha Hr].
  destruct (ascii_dec c a) as [-> | _]; [intros _; exact Ha |].
  simpl. now apply IH.
Qed.

(** C3.  [validateAddress] accepts exactly the strings made of the prefix
    [osmo] and 39 characters of [[a-z0-9]], 43 characters in all; it
    rejects a string with another prefix, of another length, with an
    upper-case letter, a white-space character or any other character
    outside [[a-z0-9]], the empty string and a blank string. *)
Theorem validateAddress_exact :
  (forall address,
     validateAddress address = true <->
     exists body,
       address = "osmo" ++ body /\
       String.length body = 39%nat /\
       every is_lower_alnum body = true) /\
  (forall address, String.length address <> 43%nat -> validateAddress address = false) /\
  (forall address, startsWith address "osmo" = false -> validateAddress address = false) /\
  (forall address c,
     has_char address c = true -> is_lower_alnum c = false ->
     validateAddress address = false) /\
  (forall address c,
     has_char address c = true -> is_upper c = true \/ is_space c = true ->
     validateAddress address = false) /\
  validateAddress EmptyString = false /\
  validateAddress " " = false /\
  validateAddress "osmo1qqqqqqqqqqqqqqqqqqqqqqqqqqqqqqqqqq0000" = true /\
  validateAddress "cosm1qqqqqqqqqqqqqqqqqqqqqqqqqqqqqqqqqq0000" = false /\
  validateAddress "osmo1qqqqqqqqqqqqqqqqqqqqqqqqqqqqqqqqqq000" = false /\
  validateAddress "osmo1qqqqqqqqqqqqqqqqqqqqqqqqqqqqqqqqqq00000" = false /\
  validateAddress "osmo1qqqqqqqqqqqqqqqQqqqqqqqqqqqqqqqqqq0000" = false /\
  validateAddress "osmo1qqqqqqqqqqqqqqqqqqqqqqqqqqqqqqqqqq000!" = false.
Proof.
  assert (Hchars : forall address c,
             has_char address c = true -> is_lower_alnum c = false ->
             validateAddress address = false).
  { intros address c Hin Hc. apply not_true_is_false. intros Hv.
    apply validateAddress_spec in Hv. destruct Hv as (body & -> & _ & E).
    assert (Hall : every is_lower_alnum ("osmo" ++ body) = true) by (simpl; exact E).
    rewrite (every_has _ _ _ Hall Hin) in Hc. discriminate. }
  split; [exact validateAddress_spec |].
  split.
  { intros address Hlen. apply not_true_is_false. intros Hv.
    apply validateAddress_spec in Hv. destruct Hv as (body & -> & L & _).
    apply Hlen. simpl. now rewrite L. }
  split.
  { intros address Hp. apply not_true_is_false. intros Hv.
    apply validateAddress_spec in Hv. destruct Hv as (body & -> & _ & _).
    unfold startsWith in Hp. rewrite prefix_app in Hp. discriminate Hp. }
  split; [exact Hchars |].
  split.
  { intros address c Hin [Hu | Hs]; apply (Hchars address c Hin).
    - now apply upper_is_not_lower_alnum.
    - now apply space_is_not_lower_alnum. }
  repeat split; vm_compute; reflexivity.
Qed.

(** The address of the client's unit tests has 41 characters, the prefix
    and 37 more, and is rejected. *)
Lemma validateAddress_test_address :
  String.length "osmo1abcdefghijklmnopqrstuvwxyz0123456789" = 41%nat /\
  validateAddress "osmo1abcdefghijklmnopqrstuvwxyz0123456789" = false.
Proof. split; vm_compute; reflexivity. Qed.

(** A string of eight characters is no address. *)
Lemma validateAddress_exact_witness : validateAddress "osmo1abc" = false.
Proof.
  apply (proj1 (proj2 validateAddress_exact) "osmo1abc").
  simpl. lia.
Defined.

End AddressProperties.

(** ** The ledger client: pagination *)

Module FetchProperties.
Import JS OsmosisClient Spec.

Lemma while_hasMore_stopped (fuel : nat) client address options (st : LoopState) :
  hasMore st = false -> while_hasMore fuel client address options st = Some st.
Proof. intros H. destruct fuel; simpl; now rewrite H. Qed.

Lemma while_hasMore_turn (fuel : nat) client address options (st : LoopState) :
  hasMore st = true ->
  while_hasMore (S fuel) client address options st =
  while_hasMore fuel client address options (loop_body client address options st).
Proof. intros H. simpl. now rewrite H. Qed.

(** While the loop goes on, [k] units of fuel are [k] turns. *)
Lemma while_hasMore_iter (k fuel : nat) client address options (st : LoopState) :
  (forall i, (i < k)%nat -> hasMore (Nat.iter i (loop_body client address options) st) = true) ->
  while_hasMore (k + fuel) client address options st =
  while_hasMore fuel client address options (Nat.iter k (loop_body client address options) st).
Proof.
  revert st. induction k as [| k IH]; intros st H; [reflexivity |].
  change (S k + fuel)%nat with (S (k + fuel)).
  rewrite while_hasMore_turn by (apply (H 0%nat); lia).
  rewrite IH.
  - now rewrite <- Nat.iter_succ_r.
  - intros i Hi. rewrite <- Nat.iter_succ_r. apply H. lia.
Qed.

Lemma loop_body_throw client address options (st : LoopState) (e : JsError) :
  searchTx client address (next_request options st) = Throw e ->
  loop_body client address options st =
  mkLoop (allTransactions st) (cur_offset st) false
         (requests st ++ [next_request options st]).
Proof. intros H. unfold loop_body. now rewrite H. Qed.

Lemma loop_body_empty client address options (st : LoopState) :
  searchTx client address (next_request options st) = Ok [] ->
  loop_body client address options st =
  mkLoop (allTransactions st) (cur_offset st) false
         (requests st ++ [next_request options st]).
Proof. intros H. unfold loop_body. now rewrite H. Qed.

(** The loop itself raises nothing: past the two checks, a call that
    returns does so with a list. *)
Lemma fetch_returns_a_list fuel client address options (out : FetchOutcome) :
  validateAddress address = true ->
  fetchTransactions fuel (Some client) address options = Some out ->
  exists txs, returned out = Ok txs.
Proof.
  intros Hv. unfold fetchTransactions. rewrite Hv. simpl negb. cbv iota.
  destruct (while_hasMore fuel client address options (initial_state options)) as [st |];
    [| discriminate].
  intros H. injection H as <-. simpl. eauto.
Qed.

(** C4.  [fetchTransactions] raises before any request when the client
    is not initialized, and when the address does not validate; a page
    request that raises in the course of the pagination is caught, ends
    the loop, and the transactions accumulated so far are returned as
    the result; past the two checks no call raises. *)
Theorem fetch_errors :
  (forall fuel address options,
     fetchTransactions fuel None address options =
     Some (mkOutcome (Throw (Error "Client not initialized. Call initialize() first.")) [])) /\
  (forall fuel client address options,
     validateAddress address = false ->
     fetchTransactions fuel (Some client) address options =
     Some (mkOutcome (Throw (Error "Invalid Osmosis address format")) [])) /\
  (forall client address options (k : nat) (e : JsError),
     validateAddress address = true ->
     (forall i, (i <= k)%nat -> hasMore (after_turns client address options i) = true) ->
     searchTx client address
       (next_request options (after_turns client address options k)) = Throw e ->
     forall fuel, (k < fuel)%nat ->
       fetchTransactions fuel (Some client) address options =
       Some (mkOutcome
               (Ok (allTransactions (after_turns client address options k)))
               (requests (after_turns client address options k)
                ++ [next_request options (after_turns client address options k)]))) /\
  (forall fuel client address options out,
     validateAddress address = true ->
     fetchTransactions fuel (Some client) address options = Some out ->
     exists txs, returned out = Ok txs).
Proof.
  split; [reflexivity |].
  split; [intros fuel client address options Hv; unfold fetchTransactions; now rewrite Hv |].
  split; [| exact fetch_returns_a_list].
  intros client address options k e Hv Hmore Hthrow fuel Hfuel.
  unfold fetchTransactions. rewrite Hv. simpl negb. cbv iota.
  replace fuel with (k + S (fuel - S k))%nat by lia.
  rewrite while_hasMore_iter by (intros i Hi; apply Hmore; lia).
  fold (after_turns client address options k).
  rewrite while_hasMore_turn by (apply Hmore; lia).
  rewrite (loop_body_throw _ _ _ _ e Hthrow).
  now rewrite while_hasMore_stopped.
Qed.

(** The second page request of the sample ledger fails: the hundred
    transactions of the first page are returned. *)
Lemma fetch_errors_witness :
  fetchTransactions 5 (Some failing_second_page) sample_address None =
  Some (mkOutcome (Ok (repeat (sample_transaction "TX") 100))
                  [mkPageRequest 1 100; mkPageRequest 2 100]).
Proof.
  rewrite (proj1 (proj2 (proj2 fetch_errors)) failing_second_page sample_address None
             1%nat (Error "connection lost")).
  - vm_compute. reflexivity.
  - vm_compute. reflexivity.
  - intros [| [| i]] Hi; [vm_compute; reflexivity | vm_compute; reflexivity | lia].
  - vm_compute. reflexivity.
  - lia.
Defined.

(** *** Complete pagination *)

Lemma page_requests_succ (size p : Z) (n : nat) :
  page_requests size p (S n) = mkPageRequest p size :: page_requests size (p + 1) n.
Proof.
  unfold page_requests. simpl. rewrite Z.add_0_r. f_equal.
  rewrite <- seq_shift, map_map. apply map_ext. intros i. f_equal. lia.
Qed.

Lemma map_result_app {A B : Type} (f : A -> result B) (l1 l2 : list A) (bs : list B) :
  TransactionParser.map_result f (l1 ++ l2) = Ok bs ->
  exists b1 b2,
    TransactionParser.map_result f l1 = Ok b1 /\
    TransactionParser.map_result f l2 = Ok b2 /\
    bs = (b1 ++ b2)%list.
Proof.
  revert bs. induction l1 as [| a r IH]; intros bs H.
  - exists [], bs. auto.
  - simpl in H. destruct (f a) as [b | e] eqn:Ea; [| discriminate].
    simpl in H.
    destruct (TransactionParser.map_result f (r ++ l2)) as [bs' | e] eqn:Er; [| discriminate].
    simpl in H. injection H as <-.
    destruct (IH bs' eq_refl) as (b1 & b2 & H1 & H2 & ->).
    exists (b :: b1), b2. simpl. rewrite Ea. simpl. rewrite H1. auto.
Qed.

Lemma push_page_ok options address (page : list RawTx) (all ts : list Transaction) :
  no_date_filter options ->
  parse_all address page = Ok ts ->
  push_page options address page all = ((all ++ ts)%list, false).
Proof.
  intros [Hs He]. revert all ts. induction page as [| tx rest IH]; intros all ts H.
  - injection H as <-. simpl. now rewrite app_nil_r.
  - unfold parse_all in H. simpl in H. simpl.
    destruct (parseTransaction tx address) as [t | e]; [| discriminate].
    simpl in H.
    destruct (TransactionParser.map_result _ rest) as [ts' | e] eqn:Er; [| discriminate].
    simpl in H. injection H as <-.
    unfold filtered_out. rewrite Hs, He. simpl.
    rewrite (IH _ ts' Er). now rewrite <- app_assoc.
Qed.

Section Run.

Variable client : StargateClient.
Variable address : string.
Variable options : option FetchOptions.
Variable L : Z.
Hypothesis page_size : number_or (opt_limit options) 100 = L.
Hypothesis page_size_pos : 0 < L.
Hypothesis unfiltered : no_date_filter options.

Lemma next_request_eq (st : LoopState) :
  next_request options st = mkPageRequest (cur_offset st / L + 1) L.
Proof. unfold next_request. now rewrite page_size. Qed.

(** A turn on a page that is not empty and whose records all parse. *)
Lemma loop_body_page (st : LoopState) (page : list RawTx) (ts : list Transaction) :
  searchTx client address (mkPageRequest (cur_offset st / L + 1) L) = Ok page ->
  page <> [] ->
  parse_all address page = Ok ts ->
  loop_body client address options st =
  mkLoop (allTransactions st ++ ts)
         (if Z.of_nat (List.length page) <? L then cur_offset st else cur_offset st + L)
         (negb (Z.of_nat (List.length page) <? L)
          && negb (limit_reached options (allTransactions st ++ ts)))
         (requests st ++ [mkPageRequest (cur_offset st / L + 1) L]).
Proof.
  intros Hs Hne Hp. unfold loop_body. rewrite next_request_eq, Hs, page_size.
  destruct page as [| tx rest]; [congruence |].
  now rewrite (push_page_ok _ _ _ _ _ unfiltered Hp).
Qed.

Hypothesis unlimited : forall all, limit_reached options all = false.

(** The turns on a run of full pages. *)
Lemma while_full_pages (pages : list (list RawTx)) :
  forall (st : LoopState) (ts : list Transaction) (fuel : nat),
    hasMore st = true ->
    serves_full_pages client address L (cur_offset st / L + 1) pages ->
    parse_all address (List.concat pages) = Ok ts ->
    while_hasMore (List.length pages + fuel) client address options st =
    while_hasMore fuel client address options
      (mkLoop (allTransactions st ++ ts)
              (cur_offset st + L * Z.of_nat (List.length pages))
              true
              (requests st ++ page_requests L (cur_offset st / L + 1) (List.length pages))).
Proof.
  induction pages as [| pg rest IH]; intros st ts fuel Hm Hserve Hparse.
  - injection Hparse as <-. simpl. rewrite !app_nil_r, Z.mul_0_r, Z.add_0_r.
    rewrite <- Hm. now destruct st.
  - destruct Hserve as (Hpg & Hlen & Hrest).
    simpl List.concat in Hparse. apply map_result_app in Hparse.
    destruct Hparse as (t1 & t2 & Hp1 & Hp2 & ->).
    change (List.length (pg :: rest) + fuel)%nat with (S (List.length rest + fuel)).
    rewrite while_hasMore_turn by exact Hm.
    assert (Hne : pg <> []) by (intros ->; simpl in Hlen; lia).
    rewrite (loop_body_page st pg t1 Hpg Hne Hp1).
    rewrite unlimited. rewrite Hlen, Z.ltb_irrefl. simpl negb. simpl andb.
    assert (Hnext : (cur_offset st + L) / L + 1 = cur_offset st / L + 1 + 1).
    { replace (cur_offset st + L) with (cur_offset st + 1 * L) by lia.
      rewrite Z.div_add by lia. reflexivity. }
    rewrite (IH _ t2 fuel).
    + cbn [allTransactions cur_offset requests]. rewrite Hnext.
      change (List.length (pg :: rest)) with (S (List.length rest)).
      rewrite page_requests_succ, <- !app_assoc. simpl app.
      replace (cur_offset st + L * Z.of_nat (S (List.length rest)))
        with (cur_offset st + L + L * Z.of_nat (List.length rest)) by lia.
      reflexivity.
    + reflexivity.
    + cbn [cur_offset]. now rewrite Hnext.
    + exact Hp2.
Qed.

End Run.

Lemma page_requests_snoc (size p : Z) (n : nat) :
  page_requests size p (S n) =
  (page_requests size p n ++ [mkPageRequest (p + Z.of_nat n) size])%list.
Proof. unfold page_requests. now rewrite seq_S, map_app. Qed.

Lemma map_result_length {A B : Type} (f : A -> result B) (l : list A) (bs : list B) :
  TransactionParser.map_result f l = Ok bs -> List.length bs = List.length l.
Proof.
  revert bs. induction l as [| a r IH]; intros bs H.
  - now injection H as <-.
  - simpl in H. destruct (f a) as [b | e]; [| discriminate]. simpl in H.
    destruct (TransactionParser.map_result f r) as [bs' | e]; [| discriminate].
    simpl in H. injection H as <-. simpl. now rewrite (IH bs' eq_refl).
Qed.

Lemma no_limit_never_reached options :
  opt_limit options = None \/ opt_limit options = Some 0 ->
  number_or (opt_limit options) 100 = 100 /\
  forall all, limit_reached options all = false.
Proof.
  unfold limit_reached. intros [-> | ->]; split; reflexivity.
Qed.

(** C5, as stated, fails.  With the option [limit: 2], the sample ledger
    serves two full pages of two records and then an empty page, and all
    four records parse; [fetchTransactions] returns the first page only,
    after one request, and not the four records after three requests. *)
Lemma explicit_limit_stops_after_first_page :
  validateAddress sample_address = true /\
  no_date_filter limit_two /\
  serves_full_pages two_full_pages sample_address 2 1
    [[sample_record "TX1"; sample_record "TX2"];
     [sample_record "TX3"; sample_record "TX4"]] /\
  searchTx two_full_pages sample_address (mkPageRequest 3 2) = Ok [] /\
  parse_all sample_address
    [sample_record "TX1"; sample_record "TX2"; sample_record "TX3"; sample_record "TX4"] =
    Ok [sample_transaction "TX1"; sample_transaction "TX2";
        sample_transaction "TX3"; sample_transaction "TX4"] /\
  fetchTransactions 10 (Some two_full_pages) sample_address limit_two =
    Some (mkOutcome (Ok [sample_transaction "TX1"; sample_transaction "TX2"])
                    [mkPageRequest 1 2]) /\
  fetchTransactions 10 (Some two_full_pages) sample_address limit_two <>
    Some (mkOutcome (Ok [sample_transaction "TX1"; sample_transaction "TX2";
                         sample_transaction "TX3"; sample_transaction "TX4"])
                    (page_requests 2 1 3)).
Proof.
  assert (E : fetchTransactions 10 (Some two_full_pages) sample_address limit_two =
              Some (mkOutcome (Ok [sample_transaction "TX1"; sample_transaction "TX2"])
                              [mkPageRequest 1 2]))
    by (vm_compute; reflexivity).
  split; [vm_compute; reflexivity |].
  split; [split; reflexivity |].
  split; [simpl; repeat split |].
  split; [reflexivity |].
  split; [vm_compute; reflexivity |].
  split; [exact E |].
  rewrite E. intros H. discriminate H.
Qed.

(** C5, amended.  Let the source answer with [N] full pages and then a
    page that is shorter or empty, let every record parse, and let no
    date filter be set.  When no [limit] option is given, the page size
    is 100 and [fetchTransactions] returns the parsed records of all the
    pages, in the order received, each once, and requests the [N + 1]
    pages in order and no further page.  When a [limit] option is given,
    it is the page size and the loop also ends once that many
    transactions are accumulated: the call returns the records of the
    first page alone, after one request. *)
Theorem pagination_complete :
  (forall client address options (pages : list (list RawTx)) (last : list RawTx)
          (txs : list Transaction) (fuel : nat),
     validateAddress address = true ->
     opt_limit options = None \/ opt_limit options = Some 0 ->
     no_date_filter options ->
     serves_full_pages client address 100 (first_page options) pages ->
     searchTx client address
       (mkPageRequest (first_page options + Z.of_nat (List.length pages)) 100) = Ok last ->
     (List.length last < 100)%nat ->
     parse_all address (List.concat pages ++ last) = Ok txs ->
     (List.length pages < fuel)%nat ->
     fetchTransactions fuel (Some client) address options =
     Some (mkOutcome (Ok txs)
             (page_requests 100 (first_page options) (S (List.length pages))))) /\
  (forall client address options (l : Z) (first : list RawTx)
          (txs : list Transaction) (fuel : nat),
     validateAddress address = true ->
     opt_limit options = Some l -> 0 < l ->
     no_date_filter options ->
     searchTx client address (mkPageRequest (first_page options) l) = Ok first ->
     Z.of_nat (List.length first) <= l ->
     parse_all address first = Ok txs ->
     (0 < fuel)%nat ->
     fetchTransactions fuel (Some client) address options =
     Some (mkOutcome (Ok txs) [mkPageRequest (first_page options) l])).
Proof.
  split.
  - intros client address options pages last txs fuel Hv Hlim Hf Hserve Hlast Hshort
           Hparse Hfuel.
    destruct (no_limit_never_reached options Hlim) as [HL Hun].
    unfold fetchTransactions. rewrite Hv. simpl negb. cbv iota.
    apply map_result_app in Hparse. destruct Hparse as (t1 & t2 & Hp1 & Hp2 & ->).
    replace fuel with (List.length pages + S (fuel - S (List.length pages)))%nat by lia.
    assert (Hfirst : cur_offset (initial_state options) / 100 + 1 = first_page options).
    { unfold first_page. now rewrite HL. }
    rewrite (while_full_pages client address options 100 HL ltac:(lia) Hf Hun pages
               (initial_state options) t1);
      [| reflexivity | now rewrite Hfirst | exact Hp1].
    rewrite Hfirst. cbn [initial_state allTransactions cur_offset requests app].
    set (st := mkLoop _ _ _ _).
    assert (Hpage : cur_offset st / 100 + 1 = first_page options + Z.of_nat (List.length pages)).
    { unfold st. cbn [cur_offset]. unfold first_page. rewrite HL.
      rewrite Z.mul_comm, Z.div_add by lia. lia. }
    rewrite while_hasMore_turn by reflexivity.
    destruct last as [| tx rest] eqn:Elast.
    + rewrite loop_body_empty
        by (rewrite (next_request_eq options 100 HL), Hpage; exact Hlast).
      rewrite while_hasMore_stopped by reflexivity.
      cbn [allTransactions requests]. injection Hp2 as <-.
      rewrite (next_request_eq options 100 HL), Hpage, page_requests_snoc.
      unfold st. cbn [requests]. now rewrite app_nil_r.
    + rewrite <- Elast in *.
      rewrite (loop_body_page client address options 100 HL Hf st last t2);
        [| rewrite Hpage; exact Hlast | rewrite Elast; discriminate | exact Hp2].
      replace (Z.of_nat (List.length last) <? 100) with true
        by (symmetry; apply Z.ltb_lt; lia).
      rewrite while_hasMore_stopped by reflexivity.
      cbn [allTransactions requests]. rewrite Hpage, page_requests_snoc.
      unfold st. cbn [allTransactions requests]. reflexivity.
  - intros client address options l first txs fuel Hv Hlim Hl Hf Hfirst Hlen Hparse Hfuel.
    assert (HL : number_or (opt_limit options) 100 = l).
    { rewrite Hlim. simpl. destruct (Z.eqb_spec l 0); [lia | reflexivity]. }
    unfold fetchTransactions. rewrite Hv. simpl negb. cbv iota.
    destruct fuel as [| fuel]; [lia |].
    rewrite while_hasMore_turn by reflexivity.
    assert (Hpage : cur_offset (initial_state options) / l + 1 = first_page options).
    { unfold first_page. now rewrite HL. }
    destruct first as [| tx rest] eqn:Efirst.
    + rewrite loop_body_empty
        by (rewrite (next_request_eq options l HL), Hpage; exact Hfirst).
      rewrite while_hasMore_stopped by reflexivity.
      injection Hparse as <-.
      now rewrite (next_request_eq options l HL), Hpage.
    + rewrite <- Efirst in *.
      rewrite (loop_body_page client address options l HL Hf _ first txs);
        [| rewrite Hpage; exact Hfirst | rewrite Efirst; discriminate | exact Hparse].
      rewrite Hpage. cbn [initial_state allTransactions requests app].
      assert (Hstop : negb (Z.of_nat (List.length first) <? l)
                      && negb (limit_reached options txs) = false).
      { destruct (Z.ltb_spec (Z.of_nat (List.length first)) l) as [Hs | Hs];
          [reflexivity |].
        unfold limit_reached. rewrite Hlim.
        rewrite (map_result_length _ _ _ Hparse).
        destruct (Z.eqb_spec l 0); [lia |].
        destruct (Z.leb_spec l (Z.of_nat (List.length first))); [reflexivity | lia]. }
      rewrite Hstop. now rewrite while_hasMore_stopped.
Qed.

(** The sample ledgers: the default page size fetches the hundred and
    one records in two requests; the option [limit: 2] fetches the first
    page of two. *)
Lemma pagination_complete_witness :
  fetchTransactions 5 (Some hundred_and_one) sample_address None =
    Some (mkOutcome
            (Ok (repeat (sample_transaction "TX") 100 ++ [sample_transaction "LAST"])%list)
            (page_requests 100 (first_page None) 2)) /\
  fetchTransactions 5 (Some two_full_pages) sample_address limit_two =
    Some (mkOutcome (Ok [sample_transaction "TX1"; sample_transaction "TX2"])
                    [mkPageRequest (first_page limit_two) 2]).
Proof.
  split.
  - apply (proj1 pagination_complete hundred_and_one sample_address None
             [repeat (sample_record "TX") 100] [sample_record "LAST"]).
    + vm_compute. reflexivity.
    + left. reflexivity.
    + split; reflexivity.
    + simpl. repeat split.
    + reflexivity.
    + simpl. lia.
    + vm_compute. reflexivity.
    + simpl. lia.
  - apply (proj2 pagination_complete two_full_pages sample_address limit_two 2
             [sample_record "TX1"; sample_record "TX2"]).
    + vm_compute. reflexivity.
    + reflexivity.
    + lia.
    + split; reflexivity.
    + reflexivity.
    + simpl. lia.
    + vm_compute. reflexivity.
    + lia.
Defined.

End FetchProperties.

(** ** The transaction parser *)

Module ParserProperties.
Import JS TransactionParser Spec.

(** A denomination whose symbol lookup yields an inherited member has no
    decimal-place count either, so [formatAmount] raises on it: the
    second raising branch of [make_amount] is never the first to raise. *)
Lemma inherited_symbol_has_no_decimals (d : string) :
  denomToSymbol d = None -> getDecimals d = None.
Proof.
  unfold denomToSymbol, getDecimals, lookup.
  destruct (own_lookup knownSymbols d) as [sym |] eqn:Es; [discriminate |].
  destruct (inherited d) eqn:Ei.
  - intros _. unfold inherited in Ei. apply existsb_exists in Ei.
    destruct Ei as (k & Hin & Hk). apply String.eqb_eq in Hk. subst k.
    unfold Object_prototype_keys in Hin. simpl in Hin.
    repeat (destruct Hin as [<- | Hin]; [reflexivity |]). contradiction.
  - destruct (startsWith d "ibc/"), (startsWith d "u"); discriminate.
Qed.

Lemma formatted_amount_has_symbol (raw d v : string) :
  formatAmount raw d = Ok v ->
  exists sym, denomToSymbol (or_else (Some d) "unknown") = Some sym.
Proof.
  intros H.
  destruct (denomToSymbol (or_else (Some d) "unknown")) as [sym |] eqn:E; [eauto |].
  exfalso. unfold or_else in E. destruct (truthy d).
  - apply inherited_symbol_has_no_decimals in E.
    unfold formatAmount in H. rewrite E in H.
    destruct (BigInt raw); discriminate H.
  - discriminate E.
Qed.

Lemma parseMessages_only_first (first : Message) (rest : list Message) (address : string) :
  parseMessages (Some (first :: rest)) address = parseMessages (Some [first]) address.
Proof. reflexivity. Qed.

Lemma parseMessages_send (first : Message) (rest : list Message) (address : string) :
  includes (message_type first) "MsgSwapExactAmountIn" = false ->
  includes (message_type first) "MsgSwapExactAmountOut" = false ->
  includes (message_type first) "MsgSend" = true ->
  parseMessages (Some (first :: rest)) address = parseMsgSend first address.
Proof. intros H1 H2 H3. unfold parseMessages. now rewrite H1, H2, H3. Qed.

Lemma parseMessages_no_pattern (first : Message) (rest : list Message) (address : string) :
  matches_no_pattern (message_type first) = true ->
  parseMessages (Some (first :: rest)) address = Ok (mkParsed unknown []).
Proof.
  unfold matches_no_pattern, patterns. cbn [forallb]. intros H.
  repeat (apply andb_true_iff in H; destruct H as [?E H]).
  repeat match goal with
         | E : negb _ = true |- _ => apply negb_true_iff in E
         end.
  unfold parseMessages.
  repeat match goal with
         | E : includes _ _ = false |- _ => rewrite E; clear E
         end.
  reflexivity.
Qed.

(** C6.  [parseMessages] reads the first message only.  A list whose
    first message is classified by the [MsgSend] pattern (its type
    identifier contains [MsgSend] and neither swap pattern, which are
    tried before) and carries the amount list
    [[{denom: uosmo, amount: 5000000}]] is a [transfer] with the one
    amount [{value: 5, denom: uosmo, symbol: OSMO}]; a missing or empty
    list is [unknown] with no amounts, and so is a list whose first
    message matches no pattern. *)
Theorem parseMessages_first_message :
  (forall first rest address,
     parseMessages (Some (first :: rest)) address = parseMessages (Some [first]) address) /\
  (forall first rest address,
     includes (message_type first) "MsgSwapExactAmountIn" = false ->
     includes (message_type first) "MsgSwapExactAmountOut" = false ->
     includes (message_type first) "MsgSend" = true ->
     amount first = CoinList [Some (mkCoin (Some "uosmo") (Some "5000000"))] ->
     parseMessages (Some (first :: rest)) address =
     Ok (mkParsed transfer [mkAmount "5" "uosmo" "OSMO"])) /\
  (forall address,
     parseMessages (Some [send_five_osmo]) address =
     Ok (mkParsed transfer [mkAmount "5" "uosmo" "OSMO"])) /\
  (forall address, parseMessages None address = Ok (mkParsed unknown [])) /\
  (forall address, parseMessages (Some []) address = Ok (mkParsed unknown [])) /\
  (forall first rest address,
     matches_no_pattern (message_type first) = true ->
     parseMessages (Some (first :: rest)) address = Ok (mkParsed unknown [])) /\
  (forall address,
     parseMessages (Some [bare_message "/unknown.module.MsgUnknown"]) address =
     Ok (mkParsed unknown [])).
Proof.
  split; [exact parseMessages_only_first |].
  split.
  { intros first rest address H1 H2 H3 Ha.
    rewrite (parseMessages_send first rest address H1 H2 H3).
    unfold parseMsgSend. rewrite Ha. vm_compute. reflexivity. }
  split; [intros address; vm_compute; reflexivity |].
  split; [reflexivity |].
  split; [reflexivity |].
  split; [exact parseMessages_no_pattern |].
  intros address. vm_compute. reflexivity.
Qed.

(** The send message of the tests, followed by a vote. *)
Lemma parseMessages_first_message_witness :
  parseMessages (Some [send_five_osmo; bare_message "/cosmos.gov.v1beta1.MsgVote"])
    "osmo1test" =
  Ok (mkParsed transfer [mkAmount "5" "uosmo" "OSMO"]).
Proof.
  apply (proj1 (proj2 parseMessages_first_message) send_five_osmo).
  - vm_compute. reflexivity.
  - vm_compute. reflexivity.
  - vm_compute. reflexivity.
  - reflexivity.
Defined.

(** C10, on the code.  A missing amount gives the default amount, and a
    missing or empty fee the zero fee; an amount object with neither
    [denom] nor [amount] gives the value [0] and the denomination
    [unknown] with the symbol [NKNOWN], since [denomToSymbol] drops the
    leading [u] of a denomination it does not know; and an [amount]
    member that is no integer literal makes [parseAmount] raise. *)
Theorem parseAmount_defaults :
  parseAmount None = Ok (mkAmount "0" "unknown" "UNKNOWN") /\
  parseAmount (Some (mkCoin None None)) = Ok (mkAmount "0" "unknown" "NKNOWN") /\
  parseAmount (Some (mkCoin None None)) <> Ok (mkAmount "0" "unknown" "UNKNOWN") /\
  parseAmount (Some (mkCoin None (Some "1000000"))) = Ok (mkAmount "1" "unknown" "NKNOWN") /\
  parseAmount (Some (mkCoin (Some "uosmo") None)) = Ok (mkAmount "0" "uosmo" "OSMO") /\
  parseAmount (Some (mkCoin (Some "uosmo") (Some "1.5"))) = Throw SyntaxError /\
  parseFee None = Ok (mkAmount "0" "uosmo" "OSMO") /\
  parseFee (Some (mkFee None)) = Ok (mkAmount "0" "uosmo" "OSMO") /\
  parseFee (Some (mkFee (Some []))) = Ok (mkAmount "0" "uosmo" "OSMO").
Proof.
  repeat split; try (vm_compute; reflexivity).
  vm_compute. intros H. discriminate H.
Qed.

End ParserProperties.

(** ** The CSV exporter *)

Module ExportProperties.
Import JS JSFacts CSVExporter Spec.

(** C7.  The row of the example swap has the type [Trade], sells 10 OSMO,
    buys 5 ATOM, carries the fee 0.005 OSMO, the exchange [Osmosis] and
    the hash as transaction id; and the row of any swap with exactly one
    amount has that amount on the sell side and an empty buy side. *)
Theorem swap_row :
  (forall h ms st note,
     exists row,
       mapToAwakenTax (example_swap h ms st note) = Ok row /\
       row_Type row = "Trade" /\
       row_Sell_Amount row = "10" /\ row_Sell_Currency row = "OSMO" /\
       row_Buy_Amount row = "5" /\ row_Buy_Currency row = "ATOM" /\
       row_Fee_Amount row = "0.005" /\ row_Fee_Currency row = "OSMO" /\
       row_Exchange row = "Osmosis" /\
       row_Transaction_ID row = h) /\
  (forall tx ms a,
     type tx = swap -> timestamp tx = Some ms -> amounts tx = [a] ->
     exists row,
       mapToAwakenTax tx = Ok row /\
       row_Type row = "Trade" /\
       row_Sell_Amount row = value a /\ row_Sell_Currency row = symbol a /\
       row_Buy_Amount row = EmptyString /\ row_Buy_Currency row = EmptyString /\
       row_Fee_Amount row = value (fee tx) /\ row_Fee_Currency row = symbol (fee tx) /\
       row_Exchange row = "Osmosis" /\
       row_Transaction_ID row = hash tx).
Proof.
  split.
  - intros h ms st note. eexists. split; [reflexivity |]. repeat split.
  - intros tx ms a Hty Hts Ham. unfold mapToAwakenTax. rewrite Hts, Hty.
    simpl bind. unfold mapSwap. rewrite Ham.
    eexists. split; [reflexivity |]. repeat split.
Qed.

(** A swap with the one amount 7.5 OSMO. *)
Lemma swap_row_witness :
  exists row,
    mapToAwakenTax
      (mkTransaction "SWAP1" (Some 5000000) swap success
         [mkAmount "7.5" "uosmo" "OSMO"] (mkAmount "0.005" "uosmo" "OSMO") None) = Ok row /\
    row_Type row = "Trade" /\
    row_Sell_Amount row = "7.5" /\ row_Sell_Currency row = "OSMO" /\
    row_Buy_Amount row = EmptyString /\ row_Buy_Currency row = EmptyString /\
    row_Fee_Amount row = "0.005" /\ row_Fee_Currency row = "OSMO" /\
    row_Exchange row = "Osmosis" /\
    row_Transaction_ID row = "SWAP1".
Proof.
  apply (proj2 swap_row
           (mkTransaction "SWAP1" (Some 5000000) swap success
              [mkAmount "7.5" "uosmo" "OSMO"] (mkAmount "0.005" "uosmo" "OSMO") None)
           5000000 (mkAmount "7.5" "uosmo" "OSMO")); reflexivity.
Defined.

(** C9, as stated, fails: a vote exports with the type [Other], not
    [Vote]. *)
Lemma vote_row_is_Other :
  exists row,
    mapToAwakenTax
      (mkTransaction "VOTE1" (Some 5000000) vote success []
         (mkAmount "0.005" "uosmo" "OSMO") None) = Ok row /\
    row_Type row = "Other" /\
    row_Type row <> "Vote".
Proof.
  eexists. split; [reflexivity |]. split; [reflexivity |].
  simpl. intros H. discriminate H.
Qed.

(** C9, amended.  The row of a [vote] and the row of an [unknown]
    transaction both have the type [Other], the entry of either type in
    the lookup table, and their four amount columns are empty. *)
Theorem vote_and_unknown_rows :
  mapTransactionType vote = "Other" /\
  mapTransactionType unknown = "Other" /\
  (forall tx ms,
     type tx = vote \/ type tx = unknown -> timestamp tx = Some ms ->
     exists row,
       mapToAwakenTax tx = Ok row /\
       row_Type row = "Other" /\
       no_amount_columns row).
Proof.
  split; [reflexivity |]. split; [reflexivity |].
  intros tx ms Hty Hts. unfold mapToAwakenTax. rewrite Hts. simpl bind.
  eexists. split; [reflexivity |].
  destruct Hty as [-> | ->]; repeat split.
Qed.

(** An unknown transaction. *)
Lemma vote_and_unknown_rows_witness :
  exists row,
    mapToAwakenTax
      (mkTransaction "TX9" (Some 5000000) unknown failed []
         (mkAmount "0" "uosmo" "OSMO") None) = Ok row /\
    row_Type row = "Other" /\
    no_amount_columns row.
Proof.
  apply (proj2 (proj2 vote_and_unknown_rows)
           (mkTransaction "TX9" (Some 5000000) unknown failed []
              (mkAmount "0" "uosmo" "OSMO") None) 5000000).
  - right. reflexivity.
  - reflexivity.
Defined.

(** *** Escaping *)

Lemma has_char_cons (a c : ascii) (r : string) :
  has_char (String a r) c = Ascii.eqb a c || has_char r c.
Proof.
  unfold has_char. simpl.
  destruct (ascii_dec c a) as [-> | N].
  - rewrite Ascii.eqb_refl. now destruct r.
  - apply not_eq_sym, Ascii.eqb_neq in N. now rewrite N.
Qed.

Lemma has_char_empty (c : ascii) : has_char EmptyString c = false.
Proof. reflexivity. Qed.

(** The three searches of [escapeCSVField] find a special character
    exactly when there is one. *)
Lemma needs_quotes_spec (field : string) :
  has_char field "," || has_char field dquote || has_char field newline
  = needs_quotes field.
Proof.
  induction field as [| c r IH]; [reflexivity |].
  rewrite !has_char_cons. simpl needs_quotes. rewrite <- IH. unfold is_special.
  destruct (Ascii.eqb c ","), (Ascii.eqb c dquote), (Ascii.eqb c newline),
    (has_char r ","), (has_char r dquote); reflexivity.
Qed.

Lemma replace_all_doubles (field : string) :
  replace_all dquote (String dquote (String dquote EmptyString)) field
  = doubled_quotes field.
Proof.
  induction field as [| c r IH]; [reflexivity |].
  simpl. rewrite IH. now destruct (Ascii.eqb c dquote).
Qed.

Lemma escapeCSVField_spec (field : string) :
  escapeCSVField field = if needs_quotes field then quoted field else field.
Proof.
  unfold escapeCSVField. rewrite needs_quotes_spec, replace_all_doubles. reflexivity.
Qed.

Lemma map_result_rows (txs : list Transaction) (rows : list AwakenTaxRow) :
  TransactionParser.map_result mapToAwakenTax txs = Ok rows ->
  List.length rows = List.length txs.
Proof.
  revert rows. induction txs as [| tx rest IH]; intros rows H.
  - now injection H as <-.
  - simpl in H. destruct (mapToAwakenTax tx) as [row | e]; [| discriminate].
    simpl in H.
    destruct (TransactionParser.map_result mapToAwakenTax rest) as [rows' | e];
      [| discriminate].
    simpl in H. injection H as <-. simpl. now rewrite (IH rows' eq_refl).
Qed.

Lemma generateCSV_line (row : AwakenTaxRow) :
  join "," (map (fun h => escapeCSVField (snd h row)) headers) = line row.
Proof.
  unfold headers, line, encoded. cbn [map join snd].
  now rewrite !escapeCSVField_spec.
Qed.

Lemma join_cons (sep a b : string) (l : list string) :
  join sep (a :: b :: l) = a ++ sep ++ join sep (b :: l).
Proof. reflexivity. Qed.

Lemma join_lines (first : string) (rows : list AwakenTaxRow) :
  join (String newline EmptyString)
    (first :: map (fun row => join "," (map (fun h => escapeCSVField (snd h row)) headers))
                rows)
  = first ++ lines rows.
Proof.
  revert first. induction rows as [| row rest IH]; intros first.
  - cbn [map join lines]. now rewrite JSFacts.append_empty_r.
  - rewrite map_cons, join_cons, IH, generateCSV_line. reflexivity.
Qed.

Lemma generateCSV_document (rows : list AwakenTaxRow) :
  generateCSV rows = document rows.
Proof.
  unfold generateCSV, document.
  change (join "," (map (fun h => escapeCSVField (fst h)) headers)) with header_line.
  apply join_lines.
Qed.

(** C8.  A field with a comma, a double quote or a line feed is written
    between double quotes with every double quote of its own written
    twice; any other field is written as it is; [Contains, comma] is
    written with quotes around it.  The document is the header line and
    then, for each transaction in order, one line feed and the ten
    encoded fields of its row with one comma between two neighbours:
    the header alone for no transaction, and the two documents written
    out below for the example swap and for the swap and a vote. *)
Theorem csv_encoding :
  (forall field, needs_quotes field = true -> escapeCSVField field = quoted field) /\
  (forall field, needs_quotes field = false -> escapeCSVField field = field) /\
  escapeCSVField "Contains, comma" = quoted "Contains, comma" /\
  quoted "Contains, comma"
    = String dquote ("Contains, comma" ++ String dquote EmptyString) /\
  (forall rows, generateCSV rows = document rows) /\
  (forall txs rows,
     TransactionParser.map_result mapToAwakenTax txs = Ok rows ->
     exportToAwakenTax txs = Ok (document rows) /\
     List.length rows = List.length txs) /\
  exportToAwakenTax [] = Ok header_line /\
  exportToAwakenTax [example_swap "H1" 5000000 success None] =
    Ok (header_line
        ++ String newline
             "1970-01-01T01:23:20.000Z,Trade,5,ATOM,10,OSMO,0.005,OSMO,Osmosis,H1") /\
  exportToAwakenTax [example_swap "H1" 5000000 success None; example_vote] =
    Ok (header_line
        ++ String newline
             "1970-01-01T01:23:20.000Z,Trade,5,ATOM,10,OSMO,0.005,OSMO,Osmosis,H1"
        ++ String newline
             ("1970-01-01T02:46:40.000Z,Other,,,,,0.0025,OSMO,Osmosis,"
              ++ String dquote ("H,2" ++ String dquote EmptyString))).
Proof.
  split; [intros field H; now rewrite escapeCSVField_spec, H |].
  split; [intros field H; now rewrite escapeCSVField_spec, H |].
  split; [reflexivity |]. split; [reflexivity |].
  split; [exact generateCSV_document |].
  split.
  - intros txs rows H. split; [| exact (map_result_rows txs rows H)].
    unfold exportToAwakenTax. rewrite H. cbn [bind].
    now rewrite generateCSV_document.
  - repeat split; vm_compute; reflexivity.
Qed.

(** A field with a double quote in it, and the document of one swap. *)
Lemma csv_encoding_witness :
  escapeCSVField (String "a" (String dquote (String "b" EmptyString)))
    = quoted (String "a" (String dquote (String "b" EmptyString))) /\
  escapeCSVField "OSMO" = "OSMO" /\
  exists rows,
    TransactionParser.map_result mapToAwakenTax [example_swap "H1" 5000000 success None]
      = Ok rows /\
    exportToAwakenTax [example_swap "H1" 5000000 success None] = Ok (document rows) /\
    List.length rows = 1%nat.
Proof.
  split; [apply (proj1 csv_encoding); reflexivity |].
  split; [apply (proj1 (proj2 csv_encoding)); reflexivity |].
  eexists. split; [reflexivity |].
  apply (proj1 (proj2 (proj2 (proj2 (proj2 (proj2 csv_encoding)))))). reflexivity.
Defined.

End ExportProperties.

(** ** The amount formatter beyond the round trip *)

Module AmountExtras.
Import JS JSFacts AmountProperties Spec.

Lemma parse_digits_value (s : string) (a : Z) :
  every is_digit s = true -> parse_digits 10 a s = Some (value_of_digits a s).
Proof.
  revert a. induction s as [| c r IH]; intros a H; [reflexivity |].
  simpl in H. apply andb_true_iff in H. destruct H as [Hc Hr].
  simpl. rewrite (digit_val_of_digit c Hc).
  pose proof (digit_code_range c Hc) as Hv.
  destruct (Z.ltb_spec (Z.of_N (char_code c) - 48) 10); [| lia].
  now apply IH.
Qed.

Lemma value_of_digits_app (a : Z) (s t : string) :
  value_of_digits a (s ++ t) = value_of_digits (value_of_digits a s) t.
Proof. revert a. induction s as [| c r IH]; intros a; simpl; [reflexivity | apply IH]. Qed.

Lemma value_of_digits_zeros (a : Z) (k : nat) :
  value_of_digits a (repeat_char "0" k) = a * 10 ^ Z.of_nat k.
Proof.
  revert a. induction k as [| k IH]; intros a.
  - simpl. lia.
  - cbn [repeat_char value_of_digits]. rewrite IH, pow10_succ.
    change (Z.of_N (char_code "0") - 48) with 0. lia.
Qed.

Lemma BigInt_of_digits (s : string) :
  every is_digit s = true -> BigInt s = Ok (value_of_digits 0 s).
Proof.
  intros H. unfold BigInt. now rewrite StringToBigInt_digits, parse_digits_value.
Qed.

Lemma split_nonempty (sep : ascii) (s : string) : split sep s <> [].
Proof.
  destruct s as [| c r]; simpl; [discriminate |].
  destruct (Ascii.eqb c sep); [discriminate |].
  destruct (split sep r); discriminate.
Qed.

(** Splitting after a prefix that has no separator. *)
Lemma split_app_no_sep (sep : ascii) (a b : string) :
  every (fun c => negb (Ascii.eqb c sep)) a = true ->
  split sep (a ++ b) =
  match split sep b with
  | h :: t => (a ++ h) :: t
  | [] => [a]
  end.
Proof.
  intros Ha. induction a as [| c r IH]; simpl.
  - destruct (split sep b) eqn:E; [now destruct (split_nonempty sep b) | reflexivity].
  - simpl in Ha. apply andb_true_iff in Ha. destruct Ha as [Hc Hr].
    apply negb_true_iff in Hc. rewrite Hc, (IH Hr).
    destruct (split sep b); reflexivity.
Qed.

(** The first two parts of [i.rest] when [i] has no dot: [i] and the
    part of [rest] before its first dot. *)
Lemma split_integer_fraction (i rest : string) :
  no_dot i = true ->
  exists h t,
    split "." rest = h :: t /\
    split "." (i ++ String "." rest) = i :: h :: t.
Proof.
  intros Hi. destruct (split "." rest) as [| h t] eqn:E.
  - now destruct (split_nonempty "." rest).
  - exists h, t. split; [reflexivity |].
    rewrite (split_app_no_sep "." i _ Hi). simpl. rewrite E.
    now rewrite append_empty_r.
Qed.

Lemma slice_to_app (a b : string) : slice_to (a ++ b) (String.length a) = a.
Proof.
  unfold slice_to. induction a as [| c r IH]; simpl.
  - now destruct b.
  - now rewrite IH.
Qed.

Lemma slice_to_padEnd_prefix (f rest : string) :
  slice_to (padEnd (f ++ rest) (String.length f) "0") (String.length f) = f.
Proof. unfold padEnd. rewrite append_assoc. apply slice_to_app. Qed.

(** Digits after the [d]-th fractional digit do not count, whatever they
    are: [toBaseUnits] cuts the fraction at [d] characters before it
    reads it, and does not round. *)
Theorem toBaseUnits_truncates (i f extra : string) (d : nat) :
  no_dot i = true -> no_dot f = true -> String.length f = d ->
  AmountFormatter.toBaseUnits (i ++ "." ++ f ++ extra) d =
  AmountFormatter.toBaseUnits (i ++ "." ++ f) d.
Proof.
  intros Hi Hf Hd. subst d. unfold AmountFormatter.toBaseUnits.
  change (i ++ "." ++ f ++ extra) with (i ++ String "." (f ++ extra)).
  change (i ++ "." ++ f) with (i ++ String "." f).
  rewrite (split_one_sep "." i f Hi Hf).
  destruct (split_integer_fraction i (f ++ extra) Hi) as (h & t & Eh & ->).
  rewrite (split_app_no_sep "." f extra Hf) in Eh.
  assert (Hh : exists rest, h = f ++ rest).
  { destruct (split "." extra) as [| h' t']; injection Eh as <- _; eauto.
    exists EmptyString. now rewrite append_empty_r. }
  destruct Hh as (rest & ->).
  cbn [nth_error].
  assert (E : slice_to (padEnd (or_else (Some (f ++ rest)) EmptyString) (String.length f) "0")
                (String.length f)
              = slice_to (padEnd (or_else (Some f) EmptyString) (String.length f) "0")
                  (String.length f)).
  { rewrite !or_else_empty. rewrite slice_to_padEnd_prefix.
    pose proof (slice_to_padEnd_prefix f EmptyString) as E0.
    now rewrite append_empty_r in E0. }
  now rewrite E.
Qed.

Lemma toBaseUnits_truncates_witness :
  AmountFormatter.toBaseUnits ("1" ++ "." ++ "234567" ++ "89") 6 =
  AmountFormatter.toBaseUnits ("1" ++ "." ++ "234567") 6.
Proof. apply (toBaseUnits_truncates "1" "234567" "89" 6); reflexivity. Defined.

(** A decimal string with at most [d] fractional digits is scaled by
    [10^d] exactly: the integer part times [10^d] plus the fraction padded
    with zeros to [d] digits; a missing integer part counts as zero. *)
Theorem toBaseUnits_scales (i f : string) (d : nat) :
  every is_digit i = true -> every is_digit f = true ->
  (String.length f <= d)%nat -> (d <= max_exact_decimals)%nat ->
  AmountFormatter.toBaseUnits (i ++ "." ++ f) d =
  Ok (BigInt_toString
        (value_of_digits 0 i * 10 ^ Z.of_nat d
         + value_of_digits 0 f * 10 ^ Z.of_nat (d - String.length f))).
Proof.
  intros Hi Hf Hlen Hd. unfold AmountFormatter.toBaseUnits.
  rewrite (BigInt_of_pow10_exact d Hd).
  change (i ++ "." ++ f) with (i ++ String "." f).
  rewrite (split_one_sep "." i f (digits_have_no_dot i Hi) (digits_have_no_dot f Hf)).
  cbn [nth_error]. rewrite or_else_empty.
  assert (Ei : BigInt (or_else (Some i) "0") = Ok (value_of_digits 0 i)).
  { destruct i as [| c r]; [reflexivity |]. now apply BigInt_of_digits. }
  rewrite Ei. simpl bind.
  assert (Ef : slice_to (padEnd f d "0") d = f ++ repeat_char "0" (d - String.length f)).
  { unfold padEnd. apply slice_to_exact. rewrite length_app, length_repeat_char. lia. }
  rewrite Ef, BigInt_of_digits.
  - simpl bind. now rewrite value_of_digits_app, value_of_digits_zeros.
  - rewrite every_app, Hf. now apply every_repeat_char.
Qed.

Lemma toBaseUnits_scales_witness :
  AmountFormatter.toBaseUnits ("12" ++ "." ++ "5") 6 =
  Ok (BigInt_toString
        (value_of_digits 0 "12" * 10 ^ Z.of_nat 6
         + value_of_digits 0 "5" * 10 ^ Z.of_nat (6 - String.length "5"))).
Proof.
  apply (toBaseUnits_scales "12" "5" 6); try reflexivity.
  - simpl. lia.
  - unfold max_exact_decimals. lia.
Defined.

(** *** Trailing zeros *)

Lemma strip_trailing_app (c : ascii) (a b : string) :
  truthy (strip_trailing c b) = true ->
  strip_trailing c (a ++ b) = a ++ strip_trailing c b.
Proof.
  intros H. induction a as [| x r IH]; [reflexivity |].
  simpl. rewrite IH.
  destruct (strip_trailing c b); [discriminate |].
  now destruct r.
Qed.

Lemma strip_trailing_cons (c a : ascii) (r : string) :
  strip_trailing c (String a r) =
  match strip_trailing c r with
  | EmptyString => if Ascii.eqb a c then EmptyString else String a EmptyString
  | String x y => String a (String x y)
  end.
Proof. reflexivity. Qed.

Lemma strip_trailing_idempotent (c : ascii) (s : string) :
  strip_trailing c (strip_trailing c s) = strip_trailing c s.
Proof.
  induction s as [| a r IH]; [reflexivity |].
  rewrite strip_trailing_cons. destruct (strip_trailing c r) as [| b r'] eqn:E.
  - destruct (Ascii.eqb a c) eqn:Ea; [reflexivity |]. simpl. now rewrite Ea.
  - rewrite strip_trailing_cons. now rewrite IH.
Qed.

Lemma strip_trailing_zeros_only (c : ascii) (k : nat) :
  strip_trailing c (repeat_char c k) = EmptyString.
Proof.
  induction k as [| k IH]; [reflexivity |].
  simpl. now rewrite IH, Ascii.eqb_refl.
Qed.

Lemma strip_trailing_padding (c : ascii) (s : string) (k : nat) :
  strip_trailing c (s ++ repeat_char c k) = strip_trailing c s.
Proof.
  induction s as [| a r IH]; simpl.
  - apply strip_trailing_zeros_only.
  - now rewrite IH.
Qed.

Lemma drop_last_if_kept (c : ascii) (s : string) :
  every (fun a => negb (Ascii.eqb a c)) s = true -> drop_last_if c s = s.
Proof.
  induction s as [| a r IH]; [reflexivity |].
  simpl. intros H. apply andb_true_iff in H. destruct H as [Ha Hr].
  apply negb_true_iff in Ha. rewrite Ha, (IH Hr). now destruct r.
Qed.

Lemma drop_last_if_app (c : ascii) (a b : string) :
  truthy b = true -> drop_last_if c (a ++ b) = a ++ drop_last_if c b.
Proof.
  intros H. induction a as [| x r IH]; [reflexivity |].
  simpl. rewrite IH. destruct (r ++ b) eqn:E; [| reflexivity].
  destruct r; [simpl in E; subst b; discriminate | discriminate].
Qed.

Lemma has_char_app_sep (a b : string) (c : ascii) : has_char (a ++ String c b) c = true.
Proof.
  unfold has_char. induction a as [| x r IH]; simpl.
  - destruct (ascii_dec c c); [| congruence]. now destruct b.
  - rewrite IH. apply orb_true_r.
Qed.

Lemma eqb_longer (a b : string) : truthy b = true -> String.eqb a (a ++ b) = false.
Proof.
  intros H. apply String.eqb_neq. intros E.
  apply (f_equal String.length) in E. rewrite length_app in E.
  destruct b; [discriminate | simpl in E; lia].
Qed.

(** What [preservePrecision] makes of a decimal string [i.f] with at
    least one fractional digit: the zeros that end the fraction are
    dropped, and the decimal point with them when nothing is left. *)
Theorem preservePrecision_decimal (i f : string) :
  truthy f = true -> every is_digit f = true ->
  AmountFormatter.preservePrecision (i ++ "." ++ f) =
  if truthy (strip_trailing "0" f) then i ++ "." ++ strip_trailing "0" f else i.
Proof.
  intros Hne Hf. unfold AmountFormatter.preservePrecision.
  change (i ++ "." ++ f) with (i ++ String "." f).
  rewrite has_char_app_sep. unfold strip_zeros_and_dot.
  destruct (strip_trailing "0" f) as [| g0 g] eqn:Eg.
  - assert (Edot : strip_trailing "0" (String "." f) = String "." EmptyString)
      by (simpl; now rewrite Eg).
    rewrite strip_trailing_app by now rewrite Edot.
    rewrite Edot.
    replace (String.eqb (i ++ ".") (i ++ String "." f)) with false.
    + rewrite drop_last_if_app by reflexivity. simpl. apply append_empty_r.
    + symmetry. change (i ++ String "." f) with (i ++ "." ++ f).
      rewrite <- append_assoc. now apply eqb_longer.
  - assert (Edot : strip_trailing "0" (String "." f) = String "." (String g0 g))
      by (simpl; now rewrite Eg).
    rewrite strip_trailing_app by now rewrite Edot.
    rewrite Edot. cbn [truthy].
    destruct (String.eqb (i ++ String "." (String g0 g)) (i ++ String "." f)) eqn:E.
    + apply String.eqb_eq in E. now rewrite <- E.
    + rewrite drop_last_if_app by reflexivity. f_equal.
      assert (Hg : every is_digit (String g0 g) = true)
        by (rewrite <- Eg; now apply every_strip_trailing).
      change (drop_last_if "." (String "." (String g0 g)))
        with (String "." (drop_last_if "." (String g0 g))).
      change ("." ++ String g0 g) with (String "." (String g0 g)).
      f_equal. apply drop_last_if_kept, digits_have_no_dot, Hg.
Qed.

Lemma preservePrecision_decimal_witness :
  AmountFormatter.preservePrecision ("12" ++ "." ++ "3400") =
  if truthy (strip_trailing "0" "3400") then "12" ++ "." ++ strip_trailing "0" "3400"
  else "12".
Proof. apply (preservePrecision_decimal "12" "3400"); reflexivity. Defined.

(** [areEqual] does not see zeros added at the end of the fraction, nor
    the symbols: [1.50 uosmo] equals [1.5 uosmo]. *)
Theorem areEqual_ignores_padding (i f den sym1 sym2 : string) (k : nat) :
  truthy f = true -> every is_digit f = true ->
  AmountFormatter.areEqual
    (mkAmount (i ++ "." ++ f ++ repeat_char "0" k) den sym1)
    (mkAmount (i ++ "." ++ f) den sym2) = true.
Proof.
  intros Hne Hf.
  change (String.eqb den den
          && String.eqb
               (AmountFormatter.preservePrecision (i ++ "." ++ (f ++ repeat_char "0" k)))
               (AmountFormatter.preservePrecision (i ++ "." ++ f)) = true).
  rewrite String.eqb_refl. cbv beta iota delta [andb].
  change (i ++ String "." (f ++ repeat_char "0" k))
    with (i ++ "." ++ (f ++ repeat_char "0" k)).
  change (i ++ String "." f) with (i ++ "." ++ f).
  rewrite (preservePrecision_decimal i f Hne Hf).
  rewrite (preservePrecision_decimal i (f ++ repeat_char "0" k)).
  - rewrite strip_trailing_padding. apply String.eqb_refl.
  - destruct f; [discriminate | reflexivity].
  - rewrite every_app, Hf. now apply every_repeat_char.
Qed.

Lemma areEqual_ignores_padding_witness :
  AmountFormatter.areEqual
    (mkAmount ("1" ++ "." ++ "5" ++ repeat_char "0" 2) "uosmo" "OSMO")
    (mkAmount ("1" ++ "." ++ "5") "uosmo" "osmo") = true.
Proof. apply (areEqual_ignores_padding "1" "5" "uosmo" "OSMO" "osmo" 2); reflexivity. Defined.

Lemma stripped_fraction_nonempty (r : Z) (d : nat) :
  0 < r -> truthy (strip_trailing "0" (padStart (digits r) d "0")) = true.
Proof.
  intros Hr. destruct (strip_trailing "0" (padStart (digits r) d "0")) eqn:E;
    [| reflexivity].
  exfalso. pose proof (strip_trailing_restore "0" (padStart (digits r) d "0")) as R.
  rewrite E in R. simpl in R.
  pose proof (BigInt_padStart_digits r d ltac:(lia)) as B.
  rewrite <- R, BigInt_zeros in B. injection B as B. lia.
Qed.

(** What [fromBaseUnits] writes is already in the form that
    [preservePrecision] produces: it leaves the string as it is. *)
Theorem fromBaseUnits_is_preserved (x : string) (d : nat) :
  is_base_units x = true -> (d <= max_exact_decimals)%nat ->
  exists y,
    AmountFormatter.fromBaseUnits x d = Ok y /\
    AmountFormatter.preservePrecision y = y.
Proof.
  intros Hx Hexact. destruct (base_units_value x Hx) as (n & Hn & Hparse & _).
  rewrite (fromBaseUnits_of_value x n d Hparse Hn Hexact).
  pose proof (pow10_pos d) as HD.
  set (D := 10 ^ Z.of_nat d) in *.
  assert (Hr : 0 <= n mod D < D) by (apply Z.mod_pos_bound; lia).
  destruct (Z.eqb_spec (n mod D) 0) as [Hz | Hz].
  - eexists. split; [reflexivity |].
    unfold AmountFormatter.preservePrecision.
    now rewrite (has_char_absent "." _ (digits_have_no_dot _ (every_digit_digits _))).
  - eexists. split; [reflexivity |].
    set (g := strip_trailing "0" (padStart (digits (n mod D)) d "0")).
    assert (Hg : truthy g = true) by (apply stripped_fraction_nonempty; lia).
    assert (Hd : every is_digit g = true).
    { apply every_strip_trailing. unfold padStart.
      rewrite every_app, every_digit_digits. now rewrite every_repeat_char. }
    change (digits (n / D) ++ String "." g) with (digits (n / D) ++ "." ++ g).
    rewrite (preservePrecision_decimal _ g Hg Hd).
    unfold g at 1 2. rewrite strip_trailing_idempotent. fold g. now rewrite Hg.
Qed.

Lemma fromBaseUnits_is_preserved_witness :
  exists y,
    AmountFormatter.fromBaseUnits "1500000" 6 = Ok y /\
    AmountFormatter.preservePrecision y = y.
Proof.
  apply (fromBaseUnits_is_preserved "1500000" 6); [reflexivity |].
  unfold max_exact_decimals. lia.
Defined.

(** *** Negative amounts *)

Lemma BigInt_negative (n : Z) :
  0 < n -> BigInt (String "-" (digits n)) = Ok (- n).
Proof.
  intros Hn. unfold BigInt, StringToBigInt.
  assert (Et : trim (String "-" (digits n)) = String "-" (digits n)).
  { unfold trim. cbn [strip_leading_space].
    change (is_space "-") with false. cbv iota. cbn [strip_trailing_space].
    rewrite (strip_trailing_space_digits _ (every_digit_digits n)).
    pose proof (digits_nonempty n) as Hd. now destruct (digits n). }
  rewrite Et.
  pose proof (digits_nonempty n) as Hd.
  pose proof (parse_digits_digits n ltac:(lia)) as Hp.
  destruct (digits n) as [| c1 body] eqn:Ed; [discriminate Hd |].
  cbn [radix_prefix]. change (Ascii.eqb "-" "0") with false. cbv iota.
  change (Ascii.eqb "-" "+") with false. change (Ascii.eqb "-" "-") with true. cbv iota.
  unfold parse_number. cbn [truthy]. now rewrite Hp.
Qed.

(** A negative amount of base units is not converted to a decimal
    number: when it is no multiple of the unit, the result has the whole
    part with its sign, the dot, the zeros of the padding and then a
    second minus sign before the digits of the fraction (-1500000 gives
    -1.-5 and -5 gives 0.0000-5 with six decimal places). *)
Theorem fromBaseUnits_negative (n : Z) (d : nat) :
  0 < n ->
  (d <= max_exact_decimals)%nat ->
  n mod 10 ^ Z.of_nat d <> 0 ->
  AmountFormatter.fromBaseUnits (BigInt_toString (- n)) d =
  Ok (BigInt_toString (- (n / 10 ^ Z.of_nat d)) ++ "."
      ++ repeat_char "0" (d - S (String.length (digits (n mod 10 ^ Z.of_nat d))))
      ++ "-" ++ strip_trailing "0" (digits (n mod 10 ^ Z.of_nat d))).
Proof.
  intros Hn Hexact Hr.
  pose proof (pow10_pos d) as HD.
  pose proof (Z.mod_pos_bound n (10 ^ Z.of_nat d) ltac:(lia)) as Hm.
  unfold AmountFormatter.fromBaseUnits. rewrite (BigInt_of_pow10_exact d Hexact).
  assert (Es : BigInt_toString (- n) = String "-" (digits n)).
  { unfold BigInt_toString. destruct (Z.ltb_spec (- n) 0); [| lia].
    now rewrite Z.opp_involutive. }
  rewrite Es, (BigInt_negative n Hn). cbn [bind].
  rewrite Z.quot_opp_l, Z.rem_opp_l by lia.
  rewrite Z.quot_div_nonneg, Z.rem_mod_nonneg by lia.
  destruct (Z.eqb_spec (- (n mod 10 ^ Z.of_nat d)) 0) as [E | _]; [lia |].
  assert (Ef : BigInt_toString (- (n mod 10 ^ Z.of_nat d)) =
               String "-" (digits (n mod 10 ^ Z.of_nat d))).
  { unfold BigInt_toString. destruct (Z.ltb_spec (- (n mod 10 ^ Z.of_nat d)) 0); [| lia].
    now rewrite Z.opp_involutive. }
  rewrite Ef. unfold padStart. cbn [String.length].
  pose proof (stripped_fraction_nonempty (n mod 10 ^ Z.of_nat d) 0 ltac:(lia)) as Hs.
  unfold padStart in Hs. cbn [Nat.sub repeat_char append] in Hs.
  rewrite strip_trailing_app.
  - rewrite strip_trailing_cons.
    destruct (strip_trailing "0" (digits (n mod 10 ^ Z.of_nat d))) as [| x y];
      [discriminate Hs | reflexivity].
  - rewrite strip_trailing_cons.
    now destruct (strip_trailing "0" (digits (n mod 10 ^ Z.of_nat d))).
Qed.

Lemma fromBaseUnits_negative_witness :
  AmountFormatter.fromBaseUnits "-1500000" 6 = Ok "-1.-5".
Proof.
  apply (fromBaseUnits_negative 1500000 6).
  - lia.
  - unfold max_exact_decimals. lia.
  - vm_compute. discriminate.
Defined.

End AmountExtras.

(** ** The transaction parser beyond the first message *)

Module ParserExtras.
Import JS JSFacts TransactionParser Spec.

Lemma inherited_cases (d : string) :
  inherited d = true -> In d Object_prototype_keys.
Proof.
  unfold inherited. intros H. apply existsb_exists in H.
  destruct H as (k & Hin & Hk). apply String.eqb_eq in Hk. now subst k.
Qed.

Lemma getDecimals_inherited (d : string) : inherited d = true -> getDecimals d = None.
Proof.
  intros H. apply inherited_cases in H. unfold Object_prototype_keys in H. simpl in H.
  repeat (destruct H as [<- | H]; [reflexivity |]). contradiction.
Qed.

Lemma getDecimals_six (d : string) : inherited d = false -> getDecimals d = Some 6%nat.
Proof.
  intros H. unfold getDecimals, lookup, knownDecimals. cbn [own_lookup]. rewrite H.
  destruct (startsWith d "ibc/"); [reflexivity |].
  destruct (String.eqb "uosmo" d); [reflexivity |].
  destruct (String.eqb "uion" d); [reflexivity |].
  destruct (String.eqb "uatom" d); reflexivity.
Qed.

(** The parser's [formatAmount] is [fromBaseUnits] with six decimal
    places, for every value and every denomination but the twelve names
    that an object literal inherits. *)
Theorem formatAmount_is_fromBaseUnits (v d : string) :
  inherited d = false ->
  formatAmount v d = AmountFormatter.fromBaseUnits v 6.
Proof.
  intros H. unfold formatAmount, AmountFormatter.fromBaseUnits.
  now rewrite (getDecimals_six d H).
Qed.

Lemma formatAmount_is_fromBaseUnits_witness :
  formatAmount "1234567" "ibc/27394FB092D2" = AmountFormatter.fromBaseUnits "1234567" 6.
Proof. apply (formatAmount_is_fromBaseUnits "1234567" "ibc/27394FB092D2"). reflexivity. Defined.

(** A coin whose denomination is one of the names that every object
    inherits ([constructor], [toString], ...) makes [parseAmount] raise:
    the lookup in the decimals table yields the inherited member, which
    is no number, and [BigInt] refuses the power. *)
Theorem parseAmount_inherited_name (d v : string) (n : Z) :
  inherited d = true -> truthy v = true -> BigInt v = Ok n ->
  formatAmount v d = Throw RangeError /\
  parseAmount (Some (mkCoin (Some d) (Some v))) = Throw RangeError.
Proof.
  intros Hd Hv Hn.
  assert (F : formatAmount v d = Throw RangeError).
  { unfold formatAmount. now rewrite Hn, (getDecimals_inherited d Hd). }
  split; [exact F |].
  unfold parseAmount, make_amount. cbn [coin_denom coin_amount].
  assert (Ht : truthy d = true).
  { apply inherited_cases in Hd. unfold Object_prototype_keys in Hd. simpl in Hd.
    repeat (destruct Hd as [<- | Hd]; [reflexivity |]). contradiction. }
  rewrite (AmountProperties.or_else_truthy d _ Ht), (AmountProperties.or_else_truthy v _ Hv).
  now rewrite F.
Qed.

Lemma parseAmount_inherited_name_witness :
  formatAmount "1000000" "constructor" = Throw RangeError /\
  parseAmount (Some (mkCoin (Some "constructor") (Some "1000000"))) = Throw RangeError.
Proof. apply (parseAmount_inherited_name "constructor" "1000000" 1000000); reflexivity. Defined.

(** *** Symbols *)





(** *** Types and amounts *)

Lemma bind_Ok {A B : Type} (r : result A) (k : A -> result B) (b : B) :
  bind r k = Ok b -> exists a, r = Ok a /\ k a = Ok b.
Proof. destruct r as [a | e]; simpl; [eauto | discriminate]. Qed.

Ltac invert_binds :=
  repeat match goal with
         | H : bind _ _ = Ok _ |- _ =>
             let a := fresh "a" in
             let E := fresh "E" in
             apply bind_Ok in H; destruct H as (a & E & H)
         | H : Ok _ = Ok _ |- _ => injection H as H; subst
         end.

Lemma swap_in_result (m : Message) (p : ParsedTransaction) :
  parseMsgSwapExactAmountIn m = Ok p ->
  parsed_type p = swap /\ (List.length (parsed_amounts p) <= 2)%nat.
Proof.
  unfold parseMsgSwapExactAmountIn. intros H. invert_binds.
  split; [reflexivity |]. cbn [parsed_amounts].
  assert (L1 : (List.length a <= 1)%nat).
  { destruct (tokenIn m); invert_binds; simpl; lia. }
  destruct (present (tokenOutMinAmount m)), (present_routes (routes m));
    invert_binds; try lia.
  rewrite List.length_app. simpl. lia.
Qed.

Lemma swap_out_result (m : Message) (p : ParsedTransaction) :
  parseMsgSwapExactAmountOut m = Ok p ->
  parsed_type p = swap /\ (List.length (parsed_amounts p) <= 2)%nat.
Proof.
  unfold parseMsgSwapExactAmountOut. intros H. invert_binds.
  split; [reflexivity |]. cbn [parsed_amounts].
  assert (L1 : (List.length a <= 1)%nat).
  { destruct (present (tokenInMaxAmount m)), (present_routes (routes m));
      invert_binds; simpl; lia. }
  destruct (tokenOut m); invert_binds; try lia.
  rewrite List.length_app. simpl. lia.
Qed.

(** The type of a parsed transaction is the one that the first matching
    pattern gives the type identifier of the first message: the body of
    the message, the other messages and the address have no part in it;
    and a swap has at most two amounts. *)
Theorem parseMessages_type (first : Message) (rest : list Message) (address : string)
  (p : ParsedTransaction) :
  parseMessages (Some (first :: rest)) address = Ok p ->
  parsed_type p = classify (message_type first) /\
  (parsed_type p = swap -> (List.length (parsed_amounts p) <= 2)%nat).
Proof.
  unfold parseMessages, classify.
  destruct (includes (message_type first) "MsgSwapExactAmountIn");
    [intros H; destruct (swap_in_result _ _ H); auto |].
  destruct (includes (message_type first) "MsgSwapExactAmountOut");
    [intros H; destruct (swap_out_result _ _ H); auto |].
  destruct (includes (message_type first) "MsgSend").
  { unfold parseMsgSend. intros H. invert_binds. split; [reflexivity | discriminate]. }
  destruct (includes (message_type first) "MsgDelegate").
  { unfold parseMsgDelegate. intros H. invert_binds. split; [reflexivity | discriminate]. }
  destruct (includes (message_type first) "MsgUndelegate").
  { unfold parseMsgUndelegate. intros H. invert_binds. split; [reflexivity | discriminate]. }
  destruct (includes (message_type first) "MsgWithdrawDelegatorReward").
  { unfold parseMsgWithdrawDelegatorReward. intros H. invert_binds.
    split; [reflexivity | discriminate]. }
  destruct (includes (message_type first) "MsgJoinPool" || includes (message_type first) "JoinPool").
  { unfold parseMsgJoinPool. intros H. invert_binds. split; [reflexivity | discriminate]. }
  destruct (includes (message_type first) "MsgExitPool" || includes (message_type first) "ExitPool").
  { unfold parseMsgExitPool. intros H. invert_binds. split; [reflexivity | discriminate]. }
  destruct (includes (message_type first) "MsgVote").
  { unfold parseMsgVote. intros H. invert_binds. split; [reflexivity | discriminate]. }
  intros H. invert_binds. split; [reflexivity | discriminate].
Qed.

Lemma parseMessages_type_witness :
  parsed_type (mkParsed unstake [mkAmount "7.5" "uosmo" "OSMO"]) =
    classify (message_type
                (mkMessage (Some "/cosmos.staking.v1beta1.MsgUndelegate") None None None None
                   None None (OneCoin (mkCoin (Some "uosmo") (Some "7500000"))) None None)) /\
  (parsed_type (mkParsed unstake [mkAmount "7.5" "uosmo" "OSMO"]) = swap ->
   (List.length (parsed_amounts (mkParsed unstake [mkAmount "7.5" "uosmo" "OSMO"])) <= 2)%nat).
Proof.
  apply (parseMessages_type
           (mkMessage (Some "/cosmos.staking.v1beta1.MsgUndelegate") None None None None
              None None (OneCoin (mkCoin (Some "uosmo") (Some "7500000"))) None None)
           [] "osmo1test").
  vm_compute. reflexivity.
Defined.

(** A swap with an output bound whose last route names no output
    denomination raises a TypeError, unless its input token has made the
    parser raise before: the missing member is not passed over. *)
Theorem swap_route_without_denom (first : Message) (rest : list Message) (address : string)
  (bound : string) (rs : list Route) :
  includes (message_type first) "MsgSwapExactAmountIn" = true ->
  (tokenIn first = None \/ exists c a, tokenIn first = Some c /\ parseAmount (Some c) = Ok a) ->
  present (tokenOutMinAmount first) = Some bound ->
  present_routes (routes first) = Some rs ->
  tokenOutDenom (last rs (mkRoute None None)) = None ->
  parseMessages (Some (first :: rest)) address = Throw TypeError.
Proof.
  intros Hty Hin Hb Hrs Hd. unfold parseMessages. rewrite Hty.
  unfold parseMsgSwapExactAmountIn. rewrite Hb, Hrs, Hd.
  destruct Hin as [-> | (c & a & -> & ->)]; reflexivity.
Qed.

Lemma swap_route_without_denom_witness :
  parseMessages
    (Some [mkMessage (Some "/osmosis.gamm.v1beta1.MsgSwapExactAmountIn") None
             (Some (mkCoin (Some "uosmo") (Some "1000000"))) (Some "500000") None None
             (Some [mkRoute (Some "uosmo") None]) NoAmount None None])
    "osmo1test" = Throw TypeError.
Proof.
  apply (swap_route_without_denom _ [] "osmo1test" "500000" [mkRoute (Some "uosmo") None]).
  - vm_compute. reflexivity.
  - right. eexists _, _. split; [reflexivity | vm_compute; reflexivity].
  - reflexivity.
  - reflexivity.
  - reflexivity.
Defined.

Lemma map_result_pointwise {A B : Type} (f : A -> result B) (l : list A) (bs : list B) :
  map_result f l = Ok bs <-> Forall2 (fun a b => f a = Ok b) l bs.
Proof.
  revert bs. induction l as [| a r IH]; intros bs; split; intros H.
  - injection H as <-. constructor.
  - inversion H. reflexivity.
  - simpl in H. invert_binds. constructor; [assumption |]. now apply IH.
  - inversion H as [| a' b r' bs' Hab Hrest]; subst. simpl. rewrite Hab. simpl.
    apply IH in Hrest. now rewrite Hrest.
Qed.

(** [parseAmounts] returns one amount for each coin, in the order of the
    coins, each the [parseAmount] of its coin; it returns only when
    [parseAmount] raises on none of them. *)
Theorem parseAmounts_pointwise (coins : list (option Coin)) (out : list Amount) :
  parseAmounts (Some coins) = Ok out <->
  Forall2 (fun c a => parseAmount c = Ok a) coins out.
Proof. unfold parseAmounts. apply map_result_pointwise. Qed.

End ParserExtras.

(** ** The ledger client beyond the pagination *)

Module ClientExtras.
Import JS OsmosisClient Spec FetchProperties.

Lemma open_connections_app (a b : list NetworkEvent) :
  open_connections (a ++ b) = open_connections a + open_connections b.
Proof.
  induction a as [| e r IH]; [reflexivity |].
  destruct e; cbn [open_connections app]; rewrite IH; lia.
Qed.

Lemma run_operations_balance (ops : list Operation) (c : Client) :
  open_connections (snd (run_operations ops c)) =
  is_connected (fst (run_operations ops c)) - is_connected c.
Proof.
  revert c. induction ops as [| op rest IH]; intros c.
  - simpl. lia.
  - destruct op as [outcome |]; cbn [run_operations].
    + unfold initialize, initialize_starts, initialize_resumes.
      destruct (client c) as [conn |] eqn:Ec.
      * specialize (IH c). destruct (run_operations rest c) as [c'' ev].
        simpl in *. exact IH.
      * destruct outcome as [conn | e].
        -- specialize (IH (mkOsmosisClient (rpcEndpoint c) (Some conn))).
           destruct (run_operations rest _) as [c'' ev].
           cbn [fst snd] in *. rewrite open_connections_app, IH.
           unfold is_connected. cbn [client open_connections]. rewrite Ec. lia.
        -- specialize (IH c). destruct (run_operations rest c) as [c'' ev].
           cbn [fst snd] in *. rewrite open_connections_app, IH. simpl. lia.
    + unfold disconnect. destruct (client c) as [conn |] eqn:Ec.
      * specialize (IH (mkOsmosisClient (rpcEndpoint c) None)).
        destruct (run_operations rest _) as [c'' ev].
        cbn [fst snd] in *. rewrite open_connections_app, IH.
        unfold is_connected. cbn [client open_connections]. rewrite Ec. lia.
      * specialize (IH c). destruct (run_operations rest c) as [c'' ev].
        simpl in *. exact IH.
Qed.

(** As long as each call of [initialize] and [disconnect] on a new
    client is awaited before the next one is made, in whatever order and
    whatever the outcome of each connection attempt, the connections the
    client has made less the connections it has closed is one when it
    holds a connection and zero when it holds none.  Two calls of
    [initialize] that overlap both connect, the second connection
    replaces the first, and [disconnect] closes one of the two: one
    connection stays open on a client that holds none. *)
Theorem connections_balanced :
  (forall (endpoint : option string) (ops : list Operation),
     open_connections (snd (run_operations ops (new_client endpoint))) =
     is_connected (fst (run_operations ops (new_client endpoint)))) /\
  (forall (endpoint : option string) (first second : Connection),
     exists c,
       run_steps [CallInitialize; CallInitialize; ResumeInitialize (Ok first);
                  ResumeInitialize (Ok second)] (new_client endpoint) 0 =
       (c, 0%nat, [Connected (rpcEndpoint c); Connected (rpcEndpoint c)]) /\
       client c = Some second /\
       run_steps [CallDisconnect] c 0 =
       (mkOsmosisClient (rpcEndpoint c) None, 0%nat, [Disconnected]) /\
       open_connections [Connected (rpcEndpoint c); Connected (rpcEndpoint c); Disconnected]
       = 1).
Proof.
  split.
  - intros endpoint ops. rewrite run_operations_balance.
    unfold is_connected at 2. simpl. lia.
  - intros endpoint first second.
    exists (mkOsmosisClient (rpcEndpoint (new_client endpoint)) (Some second)).
    repeat split.
Qed.

(** *** One transaction *)

Lemma parseTransaction_any_address (tx : RawTx) (a a' : string) :
  parseTransaction tx a = parseTransaction tx a'.
Proof. reflexivity. Qed.

(** The errors of [getTransactionDetails]: before [initialize] the same
    error as [fetchTransactions]; for a hash the ledger does not know an
    error that names the hash; an error of the lookup and an error of
    the parser are raised to the caller as they are. *)
Theorem getTransactionDetails_errors :
  (forall txHash,
     getTransactionDetails None txHash =
     Throw (Error "Client not initialized. Call initialize() first.")) /\
  (forall c txHash,
     getTx c txHash = Ok None ->
     getTransactionDetails (Some c) txHash =
     Throw (Error ("Transaction not found: " ++ txHash))) /\
  (forall c txHash e,
     getTx c txHash = Throw e -> getTransactionDetails (Some c) txHash = Throw e) /\
  (forall c txHash tx e address,
     getTx c txHash = Ok (Some tx) ->
     parseTransaction (indexed_tx tx) address = Throw e ->
     getTransactionDetails (Some c) txHash = Throw e).
Proof.
  split; [reflexivity |].
  split; [intros c h H; unfold getTransactionDetails; now rewrite H |].
  split; [intros c h e H; unfold getTransactionDetails; now rewrite H |].
  intros c h tx e address Hg Hp. unfold getTransactionDetails. rewrite Hg. simpl bind.
  rewrite (parseTransaction_any_address _ EmptyString address), Hp. reflexivity.
Qed.

(** The detail of a transaction agrees with its entry in the list of any
    wallet: when the lookup answers with a record that
    [fetchTransactions] parses to [t] for some address, the detail holds
    the fields of [t], the height of the record as block height, and a
    time of 5000 ms for each block of that height. *)
Theorem detail_agrees_with_listing (c : Connection) (txHash address : string)
  (tx : IndexedTx) (t : Transaction) :
  getTx c txHash = Ok (Some tx) ->
  parseTransaction (indexed_tx tx) address = Ok t ->
  exists detail,
    getTransactionDetails (Some c) txHash = Ok detail /\
    basicTx detail = t /\
    blockHeight detail = raw_height (indexed_tx tx) /\
    timestamp t = DateFormatter.Date_new (blockHeight detail * 5000) /\
    hash t = raw_hash (indexed_tx tx) /\
    messages detail = raw_messages (indexed_tx tx).
Proof.
  intros Hg Hp. unfold getTransactionDetails. rewrite Hg. simpl bind.
  rewrite (parseTransaction_any_address _ EmptyString address), Hp. simpl bind.
  eexists. split; [reflexivity |]. cbn [basicTx blockHeight messages].
  unfold parseTransaction in Hp.
  destruct (TransactionParser.parseMessages _ _); [| discriminate].
  simpl in Hp. destruct (TransactionParser.parseFee _); [| discriminate].
  simpl in Hp. injection Hp as <-. repeat split.
Qed.

Lemma detail_agrees_with_listing_witness :
  exists detail,
    getTransactionDetails (Some ledger_of_one) "TX1" = Ok detail /\
    basicTx detail = sample_transaction "TX1" /\
    blockHeight detail = raw_height (sample_record "TX1") /\
    timestamp (sample_transaction "TX1") =
      DateFormatter.Date_new (blockHeight detail * 5000) /\
    hash (sample_transaction "TX1") = raw_hash (sample_record "TX1") /\
    messages detail = raw_messages (sample_record "TX1").
Proof.
  apply (detail_agrees_with_listing ledger_of_one "TX1" sample_address
           (mkIndexedTx (sample_record "TX1") 80000 100000 None)
           (sample_transaction "TX1")).
  - reflexivity.
  - vm_compute. reflexivity.
Defined.

(** *** What a fetch returns *)

Lemma filtered_out_bounds options (t : Transaction) :
  filtered_out options t = false ->
  (forall s x, opt_startDate options = Some (Some s) -> timestamp t = Some x -> s <= x) /\
  (forall e x, opt_endDate options = Some (Some e) -> timestamp t = Some x -> x <= e).
Proof.
  unfold filtered_out. intros H. apply orb_false_iff in H as [Hs He]. split.
  - intros s x E T. rewrite E, T in Hs. simpl in Hs. lia.
  - intros e x E T. rewrite E, T in He. simpl in He. lia.
Qed.

Lemma push_page_Forall options address (Q : Transaction -> Prop) (txs : list RawTx) :
  forall all,
    (forall raw t, In raw txs -> parseTransaction raw address = Ok t ->
                   filtered_out options t = false -> Q t) ->
    Forall Q all ->
    Forall Q (fst (push_page options address txs all)).
Proof.
  induction txs as [| tx rest IH]; intros all Hq Hall; [exact Hall |].
  cbn [push_page]. destruct (parseTransaction tx address) as [t | e] eqn:Ep; [| exact Hall].
  destruct (filtered_out options t) eqn:Ef.
  - apply IH; [| exact Hall]. intros raw t' Hin. apply Hq. now right.
  - apply IH.
    + intros raw t' Hin. apply Hq. now right.
    + apply Forall_app. split; [exact Hall |]. constructor; [| constructor].
      apply (Hq tx t); [now left | exact Ep | exact Ef].
Qed.

Lemma fetched_more client address options reqs r (t : Transaction) :
  fetched client address options reqs t ->
  fetched client address options (reqs ++ [r]) t.
Proof.
  intros [[raw [[request [page [Hin [Hs Hr]]]] Hp]] Hf]. split; [| exact Hf].
  exists raw. split; [| exact Hp]. exists request, page.
  split; [apply in_or_app; now left | now split].
Qed.

Lemma loop_body_fetched client address options (st : LoopState) :
  Forall (fetched client address options (requests st)) (allTransactions st) ->
  Forall (fetched client address options
            (requests (loop_body client address options st)))
         (allTransactions (loop_body client address options st)).
Proof.
  intros H.
  assert (H' : Forall (fetched client address options
                         (requests st ++ [next_request options st])) (allTransactions st)).
  { eapply Forall_impl; [| exact H]. intros t. apply fetched_more. }
  unfold loop_body.
  destruct (searchTx client address (next_request options st)) as [txs | e] eqn:Es;
    [| exact H'].
  destruct txs as [| tx0 txs0] eqn:Et; [exact H' |]. rewrite <- Et in *.
  pose proof (push_page_Forall options address
                (fetched client address options (requests st ++ [next_request options st]))
                txs (allTransactions st)) as Hp.
  destruct (push_page options address txs (allTransactions st)) as [all raised].
  cbn [fst] in Hp.
  assert (Hall : Forall (fetched client address options
                           (requests st ++ [next_request options st])) all).
  { apply Hp; [| exact H']. intros raw t Hin Hparse Hf. split; [| exact Hf].
    exists raw. split; [| exact Hparse]. exists (next_request options st), txs.
    split; [apply in_or_app; right; now left | now split]. }
  destruct raised; exact Hall.
Qed.

Lemma while_hasMore_fetched client address options (fuel : nat) :
  forall st st',
    Forall (fetched client address options (requests st)) (allTransactions st) ->
    while_hasMore fuel client address options st = Some st' ->
    Forall (fetched client address options (requests st')) (allTransactions st').
Proof.
  induction fuel as [| f IH]; intros st st' H Hw; simpl in Hw;
    destruct (hasMore st); try discriminate.
  - now injection Hw as <-.
  - eapply IH; [| exact Hw]. now apply loop_body_fetched.
  - now injection Hw as <-.
Qed.

(** Every transaction [fetchTransactions] returns is the parse of a
    record that one of its page requests was answered with, and its time
    is not before the start date and not after the end date of the
    options, when they are given and valid. *)
Theorem fetched_from_pages_within_dates (fuel : nat) (c : StargateClient)
  (address : string) (options : option FetchOptions) (out : FetchOutcome)
  (txs : list Transaction) (t : Transaction) :
  fetchTransactions fuel (Some c) address options = Some out ->
  returned out = Ok txs ->
  In t txs ->
  (exists raw, served c address (requested out) raw /\ parseTransaction raw address = Ok t) /\
  (forall s x, opt_startDate options = Some (Some s) -> timestamp t = Some x -> s <= x) /\
  (forall e x, opt_endDate options = Some (Some e) -> timestamp t = Some x -> x <= e).
Proof.
  unfold fetchTransactions. intros Hf Hr Hin.
  destruct (negb (validateAddress address)).
  { injection Hf as <-. discriminate Hr. }
  destruct (while_hasMore fuel c address options (initial_state options)) as [st |] eqn:Ew;
    [| discriminate].
  injection Hf as <-. cbn [returned requested] in *. injection Hr as <-.
  pose proof (while_hasMore_fetched c address options fuel (initial_state options) st
                (Forall_nil _) Ew) as H.
  rewrite Forall_forall in H. destruct (H t Hin) as [Ho Hd].
  split; [exact Ho |]. now apply filtered_out_bounds.
Qed.

Lemma fetched_from_pages_within_dates_witness :
  (exists raw,
     served two_full_pages sample_address [mkPageRequest 1 100] raw /\
     parseTransaction raw sample_address = Ok (sample_transaction "TX2")) /\
  (forall s x, opt_startDate (between 0 10000000) = Some (Some s) ->
               timestamp (sample_transaction "TX2") = Some x -> s <= x) /\
  (forall e x, opt_endDate (between 0 10000000) = Some (Some e) ->
               timestamp (sample_transaction "TX2") = Some x -> x <= e).
Proof.
  apply (fetched_from_pages_within_dates 3 two_full_pages sample_address
           (between 0 10000000)
           (mkOutcome (Ok [sample_transaction "TX1"; sample_transaction "TX2"])
                      [mkPageRequest 1 100])
           [sample_transaction "TX1"; sample_transaction "TX2"]).
  - vm_compute. reflexivity.
  - reflexivity.
  - right. left. reflexivity.
Defined.

(** *** The pages a fetch asks for *)

Lemma number_or_nonzero (o : option Z) (default : Z) :
  default <> 0 -> number_or o default <> 0.
Proof.
  intros Hd. unfold number_or. destruct o as [n |]; [| exact Hd].
  destruct (n =? 0) eqn:E; [exact Hd |]. now apply Z.eqb_neq.
Qed.

Lemma loop_body_on_page client address options (j : nat) (st : LoopState) :
  hasMore st = true ->
  on_page options j st ->
  on_page options (S j) (loop_body client address options st).
Proof.
  intros Hm [Hr Ho]. specialize (Ho Hm).
  pose proof (number_or_nonzero (opt_limit options) 100 ltac:(lia)) as HL.
  assert (Hn : (requests st ++ [next_request options st])%list =
               page_requests (number_or (opt_limit options) 100) (first_page options) (S j)).
  { rewrite page_requests_snoc, Hr. unfold next_request, first_page.
    rewrite Ho, Z.div_add by exact HL. do 3 f_equal. lia. }
  unfold loop_body.
  destruct (searchTx client address (next_request options st)) as [txs | e];
    [| split; [exact Hn | discriminate]].
  destruct txs as [| tx0 txs0] eqn:Et; [split; [exact Hn | discriminate] |].
  rewrite <- Et.
  destruct (push_page options address txs (allTransactions st)) as [all raised].
  destruct raised; [split; [exact Hn | discriminate] |].
  split; [exact Hn |]. cbn [hasMore cur_offset]. intros H.
  apply andb_prop in H as [H _]. apply negb_true_iff in H. rewrite H, Ho. lia.
Qed.

Lemma while_hasMore_on_page client address options (fuel : nat) :
  forall (j : nat) st st',
    on_page options j st ->
    while_hasMore fuel client address options st = Some st' ->
    exists k, (j <= k <= j + fuel)%nat /\
              requests st' =
              page_requests (number_or (opt_limit options) 100) (first_page options) k.
Proof.
  induction fuel as [| f IH]; intros j st st' Hj Hw; simpl in Hw;
    destruct (hasMore st) eqn:Hm; try discriminate.
  - injection Hw as <-. exists j. split; [lia | apply Hj].
  - destruct (IH (S j) _ _ (loop_body_on_page client address options j st Hm Hj) Hw)
      as [k [Hk Hr]].
    exists k. split; [lia | exact Hr].
  - injection Hw as <-. exists j. split; [lia | apply Hj].
Qed.

(** Past the two checks, the page requests of a call are consecutive
    pages of one size: the page of the offset first, then the next one,
    and so on; at least one request is made, no page is asked for twice
    and none is skipped, whatever the ledger answers.  This is so for an
    offset that is not negative, a positive page size and a call that
    ends within [fuel] turns during which the offset stays below 2^53,
    where the additions and the division of the loop are exact. *)
Theorem requests_are_consecutive_pages (fuel : nat) (c : StargateClient)
  (address : string) (options : option FetchOptions) (out : FetchOutcome) :
  validateAddress address = true ->
  exact_offsets options fuel ->
  fetchTransactions fuel (Some c) address options = Some out ->
  exists k, (1 <= k <= fuel)%nat /\
            requested out =
            page_requests (number_or (opt_limit options) 100) (first_page options) k.
Proof.
  unfold fetchTransactions. intros Hv _ Hf. rewrite Hv in Hf. cbn [negb] in Hf.
  destruct (while_hasMore fuel c address options (initial_state options)) as [st |] eqn:Ew;
    [| discriminate].
  injection Hf as <-. cbn [requested].
  destruct fuel as [| f]; [discriminate Ew |].
  rewrite while_hasMore_turn in Ew by reflexivity.
  assert (H0 : on_page options 0 (initial_state options)).
  { split; [reflexivity |]. intros _. simpl. lia. }
  apply (loop_body_on_page c address options 0 (initial_state options) eq_refl) in H0.
  destruct (while_hasMore_on_page c address options f 1 _ _ H0 Ew) as [k [Hk Hr]].
  exists k. split; [lia | exact Hr].
Qed.

Lemma requests_are_consecutive_pages_witness :
  exists k, (1 <= k <= 5)%nat /\
            requested (mkOutcome (Ok [sample_transaction "TX1"; sample_transaction "TX2"])
                                 [mkPageRequest 1 2]) =
            page_requests (number_or (opt_limit limit_two) 100) (first_page limit_two) k.
Proof.
  apply (requests_are_consecutive_pages 5 two_full_pages sample_address limit_two).
  - vm_compute. reflexivity.
  - unfold exact_offsets. vm_compute. repeat split; discriminate.
  - vm_compute. reflexivity.
Defined.

(** *** A record the parser rejects *)

Lemma push_page_kept options address (page : list RawTx) :
  forall (all ts : list Transaction),
    parse_all address page = Ok ts ->
    push_page options address page all = ((all ++ kept options ts)%list, false).
Proof.
  induction page as [| tx rest IH]; intros all ts H.
  - injection H as <-. simpl. now rewrite app_nil_r.
  - unfold parse_all in H. simpl in H.
    destruct (parseTransaction tx address) as [t | e] eqn:Ep; [| discriminate].
    simpl in H.
    destruct (TransactionParser.map_result (fun tx => parseTransaction tx address) rest)
      as [ts' | e] eqn:Er; [| discriminate].
    injection H as <-. cbn [push_page]. rewrite Ep. unfold kept. cbn [filter].
    destruct (filtered_out options t); cbn [negb].
    + now apply IH.
    + rewrite (IH (all ++ [t])%list ts' Er). unfold kept.
      now rewrite <- app_assoc.
Qed.

Lemma push_page_rejected options address (good rest : list RawTx) (bad : RawTx)
  (e : JsError) :
  forall (all ts : list Transaction),
    parse_all address good = Ok ts ->
    parseTransaction bad address = Throw e ->
    push_page options address (good ++ bad :: rest) all =
    ((all ++ kept options ts)%list, true).
Proof.
  induction good as [| tx more IH]; intros all ts H Hb.
  - injection H as <-. cbn [app push_page]. rewrite Hb. simpl. now rewrite app_nil_r.
  - unfold parse_all in H. simpl in H.
    destruct (parseTransaction tx address) as [t | e'] eqn:Ep; [| discriminate].
    simpl in H.
    destruct (TransactionParser.map_result (fun tx => parseTransaction tx address) more)
      as [ts' | e'] eqn:Er; [| discriminate].
    injection H as <-. cbn [app push_page]. rewrite Ep. unfold kept. cbn [filter].
    destruct (filtered_out options t); cbn [negb].
    + now apply IH.
    + rewrite (IH (all ++ [t])%list ts' Er Hb). unfold kept.
      now rewrite <- app_assoc.
Qed.

(** A record on which the parser raises ends the whole fetch without an
    error: when the first page holds such a record, the call returns the
    records of that page before it (those the date filters let through),
    drops the records after it, and asks for no further page. *)
Theorem rejected_record_truncates (fuel : nat) (c : StargateClient)
  (address : string) (options : option FetchOptions)
  (good rest : list RawTx) (bad : RawTx) (ts : list Transaction) (e : JsError) :
  validateAddress address = true ->
  searchTx c address
    (mkPageRequest (first_page options) (number_or (opt_limit options) 100)) =
    Ok (good ++ bad :: rest)%list ->
  parse_all address good = Ok ts ->
  parseTransaction bad address = Throw e ->
  fetchTransactions (S fuel) (Some c) address options =
  Some (mkOutcome (Ok (kept options ts))
          [mkPageRequest (first_page options) (number_or (opt_limit options) 100)]).
Proof.
  intros Hv Hs Hg Hb. unfold fetchTransactions. rewrite Hv. cbn [negb].
  rewrite while_hasMore_turn by reflexivity.
  assert (E : loop_body c address options (initial_state options) =
              mkLoop (kept options ts) (number_or (opt_offset options) 0) false
                [mkPageRequest (first_page options) (number_or (opt_limit options) 100)]).
  { unfold loop_body.
    change (next_request options (initial_state options))
      with (mkPageRequest (first_page options) (number_or (opt_limit options) 100)).
    rewrite Hs. destruct (good ++ bad :: rest)%list as [| r0 rs] eqn:Eg.
    - destruct good; discriminate Eg.
    - rewrite <- Eg.
      change (allTransactions (initial_state options)) with (@nil Transaction).
      rewrite (push_page_rejected options address good rest bad e [] ts Hg Hb).
      reflexivity. }
  rewrite E. now rewrite while_hasMore_stopped.
Qed.

Lemma rejected_record_truncates_witness :
  fetchTransactions 3 (Some page_with_malformed_record) sample_address None =
  Some (mkOutcome (Ok [sample_transaction "TX1"; sample_transaction "TX2"])
                  [mkPageRequest 1 100]).
Proof.
  apply (rejected_record_truncates 2 page_with_malformed_record sample_address None
           [sample_record "TX1"; sample_record "TX2"] [sample_record "TX4"]
           malformed_record
           [sample_transaction "TX1"; sample_transaction "TX2"] SyntaxError).
  - vm_compute. reflexivity.
  - reflexivity.
  - vm_compute. reflexivity.
  - vm_compute. reflexivity.
Defined.

End ClientExtras.

(** ** The exporter beyond the example rows *)

Module ExportExtras.
Import JS CSVExporter Spec ExportProperties.

(** Every row has the type of the table, the fee and the hash of its
    transaction and the exchange Osmosis; a transfer, a stake and a
    provision of liquidity fill the sell side only, an unstake, a claim
    of rewards and a removal of liquidity the buy side only, a vote and
    an unknown transaction neither: only a swap can fill both sides. *)
Theorem row_sides (tx : Transaction) (row : AwakenTaxRow) :
  mapToAwakenTax tx = Ok row ->
  row_Type row = mapTransactionType (type tx) /\
  row_Fee_Amount row = value (fee tx) /\ row_Fee_Currency row = symbol (fee tx) /\
  row_Exchange row = "Osmosis" /\ row_Transaction_ID row = hash tx /\
  (amounts tx = [] -> no_amount_columns row) /\
  match type tx with
  | swap => True
  | transfer | stake | provide_liquidity => buy_side_empty row
  | unstake | claim_rewards | remove_liquidity => sell_side_empty row
  | vote | unknown => no_amount_columns row
  end.
Proof.
  unfold mapToAwakenTax. intros H.
  destruct (DateFormatter.formatForCSV (timestamp tx)) as [date |]; [| discriminate].
  simpl in H. injection H as <-.
  unfold mapSwap, mapTransfer, mapStake, mapUnstake, mapClaimRewards,
    mapProvideLiquidity, mapRemoveLiquidity, no_amount_columns, buy_side_empty,
    sell_side_empty.
  destruct (type tx); destruct (amounts tx) as [| a0 [| a1 more]];
    cbn; repeat split; try discriminate; auto.
Qed.

Lemma row_sides_witness :
  row_Type (mkRow "1970-01-01T01:23:20.000Z" "Income" "12.5" "OSMO" EmptyString EmptyString
              "0.005" "OSMO" "Osmosis" "CLAIM1") = mapTransactionType claim_rewards /\
  sell_side_empty (mkRow "1970-01-01T01:23:20.000Z" "Income" "12.5" "OSMO" EmptyString
                     EmptyString "0.005" "OSMO" "Osmosis" "CLAIM1").
Proof.
  pose proof (row_sides
    (mkTransaction "CLAIM1" (Some 5000000) claim_rewards success
       [mkAmount "12.5" "uosmo" "OSMO"] (mkAmount "0.005" "uosmo" "OSMO") None)
    (mkRow "1970-01-01T01:23:20.000Z" "Income" "12.5" "OSMO" EmptyString EmptyString
       "0.005" "OSMO" "Osmosis" "CLAIM1")) as H.
  destruct H as [H1 [_ [_ [_ [_ [_ H7]]]]]]; [vm_compute; reflexivity |].
  split; [exact H1 | exact H7].
Defined.

Lemma map_result_all_or_nothing (txs : list Transaction) :
  if forallb has_time txs
  then exists rows,
         TransactionParser.map_result mapToAwakenTax txs = Ok rows /\
         Forall2 (fun tx row => mapToAwakenTax tx = Ok row) txs rows
  else TransactionParser.map_result mapToAwakenTax txs =
       Throw (Error "Invalid timestamp provided").
Proof.
  induction txs as [| tx rest IH]; [exists []; split; [reflexivity | constructor] |].
  cbn [forallb TransactionParser.map_result]. unfold has_time at 1.
  destruct (timestamp tx) as [ms |] eqn:Et.
  - assert (Hrow : exists row, mapToAwakenTax tx = Ok row).
    { unfold mapToAwakenTax. rewrite Et. simpl. eexists. reflexivity. }
    destruct Hrow as [row Hrow]. rewrite Hrow. cbn [andb bind].
    destruct (forallb has_time rest).
    + destruct IH as [rows [Hr Hf]]. rewrite Hr. exists (row :: rows).
      split; [reflexivity | now constructor].
    + now rewrite IH.
  - assert (Hrow : mapToAwakenTax tx = Throw (Error "Invalid timestamp provided")).
    { unfold mapToAwakenTax. now rewrite Et. }
    now rewrite Hrow.
Qed.

(** An export is all or nothing: when every transaction has a valid
    time, the report is the table of one row for each transaction, in
    their order; when one has not, the whole export raises the error
    "Invalid timestamp provided" and no report is made, wherever that
    transaction stands in the list. *)
Theorem export_all_or_nothing (txs : list Transaction) :
  if forallb has_time txs
  then exists rows,
         exportToAwakenTax txs = Ok (generateCSV rows) /\
         Forall2 (fun tx row => mapToAwakenTax tx = Ok row) txs rows
  else exportToAwakenTax txs = Throw (Error "Invalid timestamp provided").
Proof.
  pose proof (map_result_all_or_nothing txs) as H. unfold exportToAwakenTax.
  destruct (forallb has_time txs).
  - destruct H as [rows [Hr Hf]]. exists rows. rewrite Hr. now split.
  - now rewrite H.
Qed.

(** *** The encoding of a field loses nothing *)

Lemma doubled_quotes_inj (a : string) :
  forall b, doubled_quotes a = doubled_quotes b -> a = b.
Proof.
  induction a as [| c r IH]; intros [| c' r'] H; cbn [doubled_quotes] in H.
  - reflexivity.
  - destruct (Ascii.eqb c' dquote); discriminate H.
  - destruct (Ascii.eqb c dquote); discriminate H.
  - destruct (Ascii.eqb c dquote) eqn:Ec; destruct (Ascii.eqb c' dquote) eqn:Ec'.
    + apply Ascii.eqb_eq in Ec, Ec'. subst c c'. injection H as H. now rewrite (IH r' H).
    + injection H as H1 _. rewrite <- H1, Ascii.eqb_refl in Ec'. discriminate.
    + injection H as H1 _. rewrite H1, Ascii.eqb_refl in Ec. discriminate.
    + injection H as -> H. now rewrite (IH r' H).
Qed.

Lemma append_inv_tail (a : string) :
  forall b s, a ++ s = b ++ s -> a = b.
Proof.
  induction a as [| c r IH]; intros [| c' r'] s H.
  - reflexivity.
  - apply (f_equal String.length) in H. cbn [append String.length] in H.
    rewrite JSFacts.length_app in H. lia.
  - apply (f_equal String.length) in H. cbn [append String.length] in H.
    rewrite JSFacts.length_app in H. lia.
  - cbn [append] in H. injection H as -> H. now rewrite (IH r' s H).
Qed.

(** Two fields with the same encoding are the same field: the reader of
    a report can tell every value from every other. *)
Theorem escapeCSVField_injective (a b : string) :
  escapeCSVField a = escapeCSVField b -> a = b.
Proof.
  rewrite !escapeCSVField_spec.
  destruct (needs_quotes a) eqn:Ha; destruct (needs_quotes b) eqn:Hb; intros H.
  - unfold quoted in H. injection H as H. apply append_inv_tail in H.
    now apply doubled_quotes_inj.
  - rewrite <- H in Hb. discriminate Hb.
  - rewrite H in Ha. discriminate Ha.
  - exact H.
Qed.

Lemma escapeCSVField_injective_witness :
  ("a," ++ String dquote "b") = String "a" (String "," (String dquote "b")).
Proof.
  apply (escapeCSVField_injective ("a," ++ String dquote "b")
           (String "a" (String "," (String dquote "b")))).
  reflexivity.
Defined.

(** *** The name of the report file *)

Lemma toISOString_parts (ms : Z) :
  DateFormatter.toISOString ms = iso_date ms ++ "T" ++ iso_time ms.
Proof.
  unfold DateFormatter.toISOString, iso_date, iso_time.
  destruct (DateFormatter.civil_from_days (ms / 86400000)) as [[y m] d].
  now rewrite <- !JSFacts.append_assoc.
Qed.

Lemma pad_number_no_T (n : Z) (w : nat) :
  every (fun c => negb (Ascii.eqb c "T")) (DateFormatter.pad_number n w) = true.
Proof.
  unfold DateFormatter.pad_number, padStart. rewrite JSFacts.every_app.
  rewrite JSFacts.every_repeat_char by reflexivity.
  apply (JSFacts.every_weaken is_digit); [| apply JSFacts.every_digit_digits].
  intros c. JSFacts.by_cases_on_char c.
Qed.

Lemma iso_date_no_T (ms : Z) :
  every (fun c => negb (Ascii.eqb c "T")) (iso_date ms) = true.
Proof.
  unfold iso_date. destruct (DateFormatter.civil_from_days (ms / 86400000)) as [[y m] d].
  rewrite !JSFacts.every_app, !pad_number_no_T.
  unfold DateFormatter.year_string.
  destruct ((0 <=? y) && (y <=? 9999)).
  - now rewrite pad_number_no_T.
  - cbn [every]. rewrite pad_number_no_T. now destruct (Z.ltb y 0).
Qed.

Lemma split_T_iso (ms : Z) :
  hd EmptyString (split "T" (DateFormatter.toISOString ms)) = iso_date ms.
Proof.
  rewrite toISOString_parts, (AmountExtras.split_app_no_sep _ _ _ (iso_date_no_T ms)).
  change ("T" ++ iso_time ms) with (String "T" (iso_time ms)).
  cbn [split]. rewrite Ascii.eqb_refl. cbn [hd]. apply JSFacts.append_empty_r.
Qed.

(** The date in the name of the report file is the date of the Date
    column for the same instant, the text before its T; without a date
    the name is that of the current time; a date without time value
    raises a RangeError, not the exporter's own error. *)
Theorem generateFilename_date (now : Z) (walletAddress : string) :
  (forall ms,
     DateFormatter.formatForCSV (Some ms) = Ok (iso_date ms ++ "T" ++ iso_time ms) /\
     has_char (iso_date ms) "T" = false /\
     generateFilename now walletAddress (Some (Some ms)) =
     Ok ("osmosis-transactions-" ++ walletAddress ++ "-" ++ iso_date ms ++ ".csv")) /\
  generateFilename now walletAddress None =
    generateFilename now walletAddress (Some (Some now)) /\
  generateFilename now walletAddress (Some None) = Throw RangeError.
Proof.
  split; [| split; reflexivity]. intros ms. split; [| split].
  - unfold DateFormatter.formatForCSV, DateFormatter.toISO8601.
    now rewrite toISOString_parts.
  - apply AmountProperties.has_char_absent, iso_date_no_T.
  - unfold generateFilename, DateFormatter.Date_toISOString. cbn [bind].
    now rewrite split_T_iso.
Qed.

End ExportExtras.

(** ** The address field *)

Module InputExtras.
Import JS Spec.

Lemma strip_leading_space_clean (s : string) :
  match s with
  | String a _ => is_space a = false
  | EmptyString => True
  end ->
  strip_leading_space s = s.
Proof. destruct s as [| a r]; [reflexivity |]. intros H. simpl. now rewrite H. Qed.

Lemma strip_leading_space_starts (s : string) :
  match strip_leading_space s with
  | String a _ => is_space a = false
  | EmptyString => True
  end.
Proof.
  induction s as [| a r IH]; [exact I |].
  simpl. destruct (is_space a) eqn:E; [exact IH | exact E].
Qed.

Lemma strip_trailing_space_idempotent (s : string) :
  strip_trailing_space (strip_trailing_space s) = strip_trailing_space s.
Proof.
  induction s as [| a r IH]; [reflexivity |].
  cbn [strip_trailing_space].
  destruct (strip_trailing_space r) as [| b r'] eqn:E.
  - destruct (is_space a) eqn:Ea; [reflexivity |]. simpl. now rewrite Ea.
  - cbn [strip_trailing_space]. cbn [strip_trailing_space] in IH.
    destruct (match strip_trailing_space r' with
              | EmptyString => if is_space b then EmptyString else String b EmptyString
              | String a0 s0 => String b (String a0 s0)
              end) as [| c r''] eqn:E'; [discriminate IH |].
    now rewrite IH.
Qed.

Lemma strip_trailing_space_starts (s : string) :
  match s with
  | String a _ => is_space a = false
  | EmptyString => True
  end ->
  match strip_trailing_space s with
  | String a _ => is_space a = false
  | EmptyString => True
  end.
Proof.
  destruct s as [| a r]; [trivial |]. intros H. cbn [strip_trailing_space].
  destruct (strip_trailing_space r); [now rewrite H | exact H].
Qed.

Lemma trim_idempotent (s : string) : trim (trim s) = trim s.
Proof.
  unfold trim.
  rewrite (strip_leading_space_clean (strip_trailing_space (strip_leading_space s))).
  - apply strip_trailing_space_idempotent.
  - apply strip_trailing_space_starts, strip_leading_space_starts.
Qed.

Lemma regex_test_nonempty (s : string) :
  OsmosisClient.validateAddress s = true -> truthy s = true.
Proof. destruct s; [discriminate | reflexivity]. Qed.

(** Submitting the field calls [onSubmit] exactly when the client's own
    [validateAddress] accepts the trimmed content, and with that trimmed
    content: an address that the page hands over is never refused by
    [fetchTransactions] as malformed. Otherwise nothing is submitted,
    and the field shows the error, or nothing when it is blank.  White
    space around an address, a no-break space included, is trimmed away
    before the test: the field submits an address that the client would
    refuse as it was typed. *)
Theorem submit_only_valid_addresses :
  (forall value : string,
     WalletInput.handleSubmit value true =
     if OsmosisClient.validateAddress (trim value)
     then (Some (trim value), WalletInput.mkInput WalletInput.valid EmptyString)
     else (None,
           if truthy (trim value)
           then WalletInput.mkInput WalletInput.invalid
                  "Please enter a valid Osmosis wallet address (starting with 'osmo')"
           else WalletInput.mkInput WalletInput.idle EmptyString)) /\
  WalletInput.handleSubmit (String (ascii_of_nat 160) (sample_address ++ " ")) true =
    (Some sample_address, WalletInput.mkInput WalletInput.valid EmptyString) /\
  OsmosisClient.validateAddress (String (ascii_of_nat 160) (sample_address ++ " ")) = false.
Proof.
  split; [| split; vm_compute; reflexivity].
  intros value.
  unfold WalletInput.handleSubmit, WalletInput.validateAddress.
  rewrite trim_idempotent.
  destruct (truthy (trim value)) eqn:Et; cbn [negb].
  - change (OsmosisClient.regex_test WalletInput.osmosisAddressRegex (trim value))
      with (OsmosisClient.validateAddress (trim value)).
    now destruct (OsmosisClient.validateAddress (trim value)).
  - destruct (OsmosisClient.validateAddress (trim value)) eqn:Ev; [| reflexivity].
    apply regex_test_nonempty in Ev. congruence.
Qed.

End InputExtras.

(** ** The saved wallets *)

Module WalletExtras.
Import JS WalletManager Spec.

Lemma revive_idempotent (w : SavedWallet) : revive (revive w) = revive w.
Proof.
  unfold revive. cbn [wallet_address wallet_label addedAt lastViewed].
  destruct (addedAt w); destruct (lastViewed w) as [[ms |] |]; reflexivity.
Qed.

Lemma readable_read (wallets : list SavedWallet) :
  readable wallets -> getSavedWallets (Written wallets) = wallets.
Proof.
  unfold readable. cbn [getSavedWallets]. induction 1 as [| w r Hw _ IH]; [reflexivity |].
  cbn [map]. now rewrite Hw, IH.
Qed.

Lemma getSavedWallets_readable (item : Item) : readable (getSavedWallets item).
Proof.
  destruct item as [| | wallets]; try constructor.
  unfold readable. cbn [getSavedWallets]. apply Forall_forall. intros w Hin.
  apply in_map_iff in Hin as [x [<- _]]. apply revive_idempotent.
Qed.

Lemma has_address_eq (a : string) (w : SavedWallet) :
  has_address a w = true -> wallet_address w = a.
Proof. unfold has_address. apply String.eqb_eq. Qed.

Lemma has_address_other (a b : string) (w : SavedWallet) :
  b <> a -> has_address a w = true -> has_address b w = false.
Proof.
  intros Hne Ha. apply has_address_eq in Ha. unfold has_address.
  apply String.eqb_neq. congruence.
Qed.

Lemma findIndex_find (p : SavedWallet -> bool) (wallets : list SavedWallet) :
  match findIndex p wallets with
  | Some i => exists w, find p wallets = Some w /\ nth_error wallets i = Some w
  | None => find p wallets = None
  end.
Proof.
  induction wallets as [| w r IH]; [reflexivity |].
  cbn [findIndex find]. destruct (p w); [now exists w |].
  destruct (findIndex p r) as [i |]; exact IH.
Qed.

Lemma assign_at_first (p : SavedWallet -> bool) (f : SavedWallet -> SavedWallet)
  (wallets : list SavedWallet) (i : nat) :
  findIndex p wallets = Some i -> assign_at i f wallets = assign_first p f wallets.
Proof.
  revert i. induction wallets as [| w r IH]; intros i H; [discriminate |].
  cbn [findIndex] in H. cbn [assign_first]. destruct (p w).
  - now injection H as <-.
  - destruct (findIndex p r) as [j |]; [| discriminate]. injection H as <-.
    cbn [assign_at]. now rewrite (IH j eq_refl).
Qed.

Lemma find_assign_first (p : SavedWallet -> bool) (f : SavedWallet -> SavedWallet)
  (wallets : list SavedWallet) :
  (forall w, p (f w) = p w) ->
  find p (assign_first p f wallets) = option_map f (find p wallets).
Proof.
  intros Hf. induction wallets as [| w r IH]; [reflexivity |].
  cbn [assign_first find]. destruct (p w) eqn:E.
  - cbn [find]. now rewrite Hf, E.
  - cbn [find]. now rewrite E.
Qed.

Lemma find_assign_first_other (p q : SavedWallet -> bool)
  (f : SavedWallet -> SavedWallet) (wallets : list SavedWallet) :
  (forall w, p w = true -> q w = false /\ q (f w) = false) ->
  find q (assign_first p f wallets) = find q wallets.
Proof.
  intros Hf. induction wallets as [| w r IH]; [reflexivity |].
  cbn [assign_first find]. destruct (p w) eqn:E.
  - cbn [find]. destruct (Hf w E) as [-> ->]. reflexivity.
  - cbn [find]. now rewrite IH.
Qed.

Lemma length_assign_first (p : SavedWallet -> bool) (f : SavedWallet -> SavedWallet)
  (wallets : list SavedWallet) :
  List.length (assign_first p f wallets) = List.length wallets.
Proof.
  induction wallets as [| w r IH]; [reflexivity |].
  cbn [assign_first]. destruct (p w); cbn [List.length]; [reflexivity | now rewrite IH].
Qed.

Lemma readable_assign_first (p : SavedWallet -> bool) (f : SavedWallet -> SavedWallet)
  (wallets : list SavedWallet) :
  (forall w, revive w = w -> revive (f w) = f w) ->
  readable wallets -> readable (assign_first p f wallets).
Proof.
  intros Hf. unfold readable. induction 1 as [| w r Hw Hr IH]; [constructor |].
  cbn [assign_first]. destruct (p w); constructor; auto.
Qed.

Lemma find_app_one (p : SavedWallet -> bool) (wallets : list SavedWallet)
  (x : SavedWallet) :
  find p (wallets ++ [x]) =
  match find p wallets with
  | Some w => Some w
  | None => if p x then Some x else None
  end.
Proof.
  induction wallets as [| w r IH]; [reflexivity |].
  cbn [app find]. destruct (p w); [reflexivity | exact IH].
Qed.

Lemma find_existsb (p : SavedWallet -> bool) (wallets : list SavedWallet) :
  existsb p wallets = match find p wallets with Some _ => true | None => false end.
Proof.
  induction wallets as [| w r IH]; [reflexivity |].
  cbn [existsb find]. destruct (p w); [reflexivity | exact IH].
Qed.

Lemma find_filter_other (p q : SavedWallet -> bool) (wallets : list SavedWallet) :
  (forall w, p w = true -> q w = false) ->
  find q (filter (fun w => negb (p w)) wallets) = find q wallets.
Proof.
  intros Hpq. induction wallets as [| w r IH]; [reflexivity |].
  cbn [filter find]. destruct (p w) eqn:E; cbn [negb].
  - now rewrite (Hpq w E).
  - cbn [find]. now rewrite IH.
Qed.

Lemma find_filter_self (p : SavedWallet -> bool) (wallets : list SavedWallet) :
  find p (filter (fun w => negb (p w)) wallets) = None.
Proof.
  induction wallets as [| w r IH]; [reflexivity |].
  cbn [filter]. destruct (p w) eqn:E; cbn [negb]; [exact IH |].
  cbn [find]. now rewrite E.
Qed.

Lemma readable_filter (p : SavedWallet -> bool) (wallets : list SavedWallet) :
  readable wallets -> readable (filter p wallets).
Proof.
  unfold readable. induction 1 as [| w r Hw Hr IH]; [constructor |].
  cbn [filter]. destruct (p w); [now constructor | exact IH].
Qed.

Lemma saved_list (setItem : list SavedWallet -> option Exception) (now now' : Z)
  (a l : string) (item item' : Item) :
  saveWallet setItem now now' a l item = (item', None) ->
  exists wallets',
    item' = Written wallets' /\ getSavedWallets item' = wallets' /\
    wallets' =
    match find (has_address a) (getSavedWallets item) with
    | Some _ =>
        assign_first (has_address a)
          (fun w => mkWallet (wallet_address w) l (addedAt w) (Some (Some now)))
          (getSavedWallets item)
    | None =>
        (getSavedWallets item ++ [mkWallet a l (Some now) (Some (Some now'))])%list
    end.
Proof.
  unfold saveWallet, saveToStorage. intros H.
  pose proof (getSavedWallets_readable item) as Hr.
  pose proof (findIndex_find (has_address a) (getSavedWallets item)) as Hi.
  destruct (findIndex (has_address a) (getSavedWallets item)) as [i |] eqn:Ei.
  - destruct Hi as [w [Hw _]]. rewrite Hw.
    rewrite (assign_at_first _ _ _ _ Ei) in *.
    destruct (setItem _) as [e |];
      [destruct (isQuotaExceededError e); discriminate H |].
    injection H as <-. eexists. split; [reflexivity |]. split; [| reflexivity].
    apply readable_read, readable_assign_first; [| exact Hr].
    intros x Hx. unfold revive in *. cbn [wallet_address wallet_label addedAt lastViewed].
    apply (f_equal addedAt) in Hx. cbn [addedAt] in Hx. now rewrite Hx.
  - rewrite Hi.
    destruct (setItem _) as [e |];
      [destruct (isQuotaExceededError e); discriminate H |].
    injection H as <-. eexists. split; [reflexivity |]. split; [| reflexivity].
    apply readable_read. apply Forall_app. split; [exact Hr |].
    constructor; [reflexivity | constructor].
Qed.

(** A wallet that has been saved is found: after a [saveWallet] that
    returns, the address is saved and [getWallet] gives it with the new
    label; a wallet that was there keeps its date of addition and is
    last viewed at the time of the call, a new one is added at that
    time. *)
Theorem saved_wallet_is_found (setItem : list SavedWallet -> option Exception)
  (now now' : Z) (a l : string) (item item' : Item) :
  saveWallet setItem now now' a l item = (item', None) ->
  isWalletSaved a item' = true /\
  exists w,
    getWallet a item' = Some w /\ wallet_address w = a /\ wallet_label w = l /\
    match getWallet a item with
    | Some old => addedAt w = addedAt old /\ lastViewed w = Some (Some now)
    | None => addedAt w = Some now /\ lastViewed w = Some (Some now')
    end.
Proof.
  intros H. destruct (saved_list _ _ _ _ _ _ _ H) as [wallets' [_ [Hread Hw]]].
  unfold isWalletSaved, getWallet. rewrite find_existsb, Hread, Hw.
  destruct (find (has_address a) (getSavedWallets item)) as [old |] eqn:Ef.
  - rewrite find_assign_first by reflexivity. rewrite Ef. cbn [option_map].
    split; [reflexivity |]. eexists. split; [reflexivity |].
    cbn [wallet_address wallet_label addedAt lastViewed].
    apply find_some in Ef as [_ Ha]. apply has_address_eq in Ha. auto.
  - assert (Hn : has_address a (mkWallet a l (Some now) (Some (Some now'))) = true)
      by apply String.eqb_refl.
    rewrite find_app_one, Ef, Hn. split; [reflexivity |]. eexists. split; [reflexivity |].
    cbn [wallet_address wallet_label addedAt lastViewed]. auto.
Qed.

Lemma saved_wallet_is_found_witness :
  isWalletSaved "osmo1aaa" (Written [mkWallet "osmo1aaa" "hot" (Some 1000) (Some (Some 5000))])
    = true /\
  exists w,
    getWallet "osmo1aaa"
      (Written [mkWallet "osmo1aaa" "hot" (Some 1000) (Some (Some 5000))]) = Some w /\
    wallet_address w = "osmo1aaa" /\ wallet_label w = "hot" /\
    match getWallet "osmo1aaa" one_wallet with
    | Some old => addedAt w = addedAt old /\ lastViewed w = Some (Some 5000)
    | None => addedAt w = Some 5000 /\ lastViewed w = Some (Some 5001)
    end.
Proof.
  apply (saved_wallet_is_found roomy 5000 5001 "osmo1aaa" "hot" one_wallet).
  reflexivity.
Defined.

(** Saving a wallet touches no other: every other address reads as
    before, and the list grows by one exactly when the address was not
    there, so that no address is listed twice by a save. *)
Theorem save_leaves_other_wallets (setItem : list SavedWallet -> option Exception)
  (now now' : Z) (a l : string) (item item' : Item) :
  saveWallet setItem now now' a l item = (item', None) ->
  (forall b, b <> a -> getWallet b item' = getWallet b item) /\
  List.length (getSavedWallets item') =
  (List.length (getSavedWallets item) + if isWalletSaved a item then 0 else 1)%nat.
Proof.
  intros H. destruct (saved_list _ _ _ _ _ _ _ H) as [wallets' [_ [Hread Hw]]].
  unfold isWalletSaved, getWallet. rewrite find_existsb, Hread, Hw.
  destruct (find (has_address a) (getSavedWallets item)) as [old |] eqn:Ef.
  - split; [| rewrite length_assign_first; lia].
    intros b Hb. apply find_assign_first_other. intros w Hwa.
    split; [now apply (has_address_other a b) |].
    apply (has_address_other a b); [exact Hb | exact Hwa].
  - split; [| rewrite List.length_app; reflexivity].
    intros b Hb. rewrite find_app_one.
    destruct (find (has_address b) (getSavedWallets item)); [reflexivity |].
    unfold has_address. cbn [wallet_address].
    destruct (String.eqb_spec a b); [congruence | reflexivity].
Qed.

Lemma save_leaves_other_wallets_witness :
  (forall b, b <> "osmo1bbb" ->
     getWallet b (Written
       [mkWallet "osmo1aaa" "main" (Some 1000) (Some (Some 2000));
        mkWallet "osmo1bbb" "cold" (Some 5000) (Some (Some 5001))]) =
     getWallet b one_wallet) /\
  List.length (getSavedWallets (Written
       [mkWallet "osmo1aaa" "main" (Some 1000) (Some (Some 2000));
        mkWallet "osmo1bbb" "cold" (Some 5000) (Some (Some 5001))])) =
  (List.length (getSavedWallets one_wallet)
   + if isWalletSaved "osmo1bbb" one_wallet then 0 else 1)%nat.
Proof.
  apply (save_leaves_other_wallets roomy 5000 5001 "osmo1bbb" "cold" one_wallet).
  reflexivity.
Defined.

(** After a [removeWallet] that returns, the address is no longer saved,
    however often it was listed, and every other address reads as
    before. *)
Theorem removed_wallet_is_gone (setItem : list SavedWallet -> option Exception)
  (a : string) (item item' : Item) :
  removeWallet setItem a item = (item', None) ->
  isWalletSaved a item' = false /\ getWallet a item' = None /\
  forall b, b <> a -> getWallet b item' = getWallet b item.
Proof.
  unfold removeWallet, saveToStorage. intros H.
  destruct (setItem _) as [e |]; [discriminate H |]. injection H as <-.
  unfold isWalletSaved, getWallet. rewrite find_existsb.
  rewrite readable_read by apply readable_filter, getSavedWallets_readable.
  rewrite find_filter_self. split; [reflexivity |]. split; [reflexivity |].
  intros b Hb. apply find_filter_other. intros w. now apply has_address_other.
Qed.

Lemma removed_wallet_is_gone_witness :
  isWalletSaved "osmo1aaa" (Written []) = false /\
  getWallet "osmo1aaa" (Written []) = None /\
  forall b, b <> "osmo1aaa" -> getWallet b (Written []) = getWallet b one_wallet.
Proof.
  apply (removed_wallet_is_gone roomy "osmo1aaa" one_wallet). reflexivity.
Defined.

(** A write that the storage refuses changes nothing: whichever method
    raises, the storage holds what it held; [saveWallet] reports a quota
    error with its own message and any other exception as it is, the
    other methods raise the exception of the storage as it is. *)
Theorem refused_write_changes_nothing (setItem : list SavedWallet -> option Exception)
  (item : Item) :
  (forall now now' a l item' r,
     saveWallet setItem now now' a l item = (item', Some r) ->
     item' = item /\ exists wallets e, setItem wallets = Some e /\ r = reported e) /\
  (forall a item' e,
     removeWallet setItem a item = (item', Some e) ->
     item' = item /\ exists wallets, setItem wallets = Some e) /\
  (forall a l item' e,
     updateLabel setItem a l item = (item', Some e) ->
     item' = item /\ exists wallets, setItem wallets = Some e) /\
  (forall now a item' e,
     updateLastViewed setItem now a item = (item', Some e) ->
     item' = item /\ exists wallets, setItem wallets = Some e).
Proof.
  repeat split.
  - unfold saveWallet, saveToStorage in H.
    destruct (setItem _) as [e |]; [| discriminate H].
    now destruct (isQuotaExceededError e); injection H as <- _.
  - unfold saveWallet, saveToStorage in H.
    destruct (setItem _) as [e |] eqn:Es; [| discriminate H].
    eexists _, e. split; [exact Es |]. unfold reported.
    now destruct (isQuotaExceededError e); injection H as _ <-.
  - unfold removeWallet, saveToStorage in H.
    destruct (setItem _); [now injection H as <- _ | discriminate H].
  - unfold removeWallet, saveToStorage in H.
    destruct (setItem _) as [x |] eqn:Es; [| discriminate H].
    injection H as _ <-. eexists. exact Es.
  - unfold updateLabel, saveToStorage in H.
    destruct (find _ _); [| discriminate H].
    destruct (setItem _); [now injection H as <- _ | discriminate H].
  - unfold updateLabel, saveToStorage in H.
    destruct (find _ _); [| discriminate H].
    destruct (setItem _) as [x |] eqn:Es; [| discriminate H].
    injection H as _ <-. eexists. exact Es.
  - unfold updateLastViewed, saveToStorage in H.
    destruct (find _ _); [| discriminate H].
    destruct (setItem _); [now injection H as <- _ | discriminate H].
  - unfold updateLastViewed, saveToStorage in H.
    destruct (find _ _); [| discriminate H].
    destruct (setItem _) as [x |] eqn:Es; [| discriminate H].
    injection H as _ <-. eexists. exact Es.
Qed.

(** [updateLabel] and [updateLastViewed] on an address that is not saved
    write nothing, and so cannot raise; on a saved address a call that
    returns changes the label, or the time of the last view, of that
    wallet only. *)
Theorem update_of_one_wallet (setItem : list SavedWallet -> option Exception)
  (a : string) (item : Item) :
  (isWalletSaved a item = false ->
   forall l now,
     updateLabel setItem a l item = (item, None) /\
     updateLastViewed setItem now a item = (item, None)) /\
  (forall l item' old,
     getWallet a item = Some old ->
     updateLabel setItem a l item = (item', None) ->
     getWallet a item' =
       Some (mkWallet (wallet_address old) l (addedAt old) (lastViewed old)) /\
     forall b, b <> a -> getWallet b item' = getWallet b item) /\
  (forall now item' old,
     getWallet a item = Some old ->
     updateLastViewed setItem now a item = (item', None) ->
     getWallet a item' =
       Some (mkWallet (wallet_address old) (wallet_label old) (addedAt old)
               (Some (Some now))) /\
     forall b, b <> a -> getWallet b item' = getWallet b item).
Proof.
  pose proof (getSavedWallets_readable item) as Hr.
  split; [| split].
  - unfold isWalletSaved. rewrite find_existsb. intros H l now.
    unfold updateLabel, updateLastViewed.
    destruct (find (has_address a) (getSavedWallets item)); [discriminate H | now split].
  - unfold getWallet, updateLabel, saveToStorage. intros l item' old Ho H.
    rewrite Ho in H. destruct (setItem _); [discriminate H |]. injection H as <-.
    rewrite readable_read.
    + rewrite find_assign_first by reflexivity. rewrite Ho. split; [reflexivity |].
      intros b Hb. apply find_assign_first_other. intros w Hw.
      split; [now apply (has_address_other a b) |].
      apply (has_address_other a b); [exact Hb | exact Hw].
    + apply readable_assign_first; [| exact Hr]. intros x Hx.
      unfold revive in *. cbn [wallet_address wallet_label addedAt lastViewed].
      pose proof (f_equal addedAt Hx) as H1. pose proof (f_equal lastViewed Hx) as H2.
      cbn [addedAt lastViewed] in H1, H2. now rewrite H1, H2.
  - unfold getWallet, updateLastViewed, saveToStorage. intros now item' old Ho H.
    rewrite Ho in H. destruct (setItem _); [discriminate H |]. injection H as <-.
    rewrite readable_read.
    + rewrite find_assign_first by reflexivity. rewrite Ho. split; [reflexivity |].
      intros b Hb. apply find_assign_first_other. intros w Hw.
      split; [now apply (has_address_other a b) |].
      apply (has_address_other a b); [exact Hb | exact Hw].
    + apply readable_assign_first; [| exact Hr]. intros x Hx.
      unfold revive in *. cbn [wallet_address wallet_label addedAt lastViewed].
      pose proof (f_equal addedAt Hx) as H1.
      cbn [addedAt] in H1. now rewrite H1.
Qed.

End WalletExtras.

(** ** Dates *)

Module DateExtras.
Import JS DateFormatter Spec.

Lemma nested_floors (e : Z) :
  e / 1000 / 60 = e / 60000 /\
  e / 1000 / 60 / 60 = e / 3600000 /\
  e / 1000 / 60 / 60 / 24 = e / 86400000.
Proof. rewrite !Z.div_div by lia. repeat split. Qed.

(** The relative time of a date is decided by the milliseconds elapsed
    since it: under a minute, and for every date in the future, "just
    now"; then the whole minutes elapsed (1 to 59), the whole hours (1
    to 23), the whole days (1 to 29), each with "s" unless the count is
    one; from thirty days on the date itself. *)
Theorem relative_time_by_elapsed (formatForDisplay : Date -> bool -> string)
  (now ms : Z) :
  (now - ms < 60000 ->
   getRelativeTime formatForDisplay now (Some ms) = "just now") /\
  (60000 <= now - ms < 3600000 ->
   getRelativeTime formatForDisplay now (Some ms) = ago ((now - ms) / 60000) "minute" /\
   1 <= (now - ms) / 60000 <= 59) /\
  (3600000 <= now - ms < 86400000 ->
   getRelativeTime formatForDisplay now (Some ms) = ago ((now - ms) / 3600000) "hour" /\
   1 <= (now - ms) / 3600000 <= 23) /\
  (86400000 <= now - ms < 2592000000 ->
   getRelativeTime formatForDisplay now (Some ms) = ago ((now - ms) / 86400000) "day" /\
   1 <= (now - ms) / 86400000 <= 29) /\
  (2592000000 <= now - ms ->
   getRelativeTime formatForDisplay now (Some ms) = formatForDisplay (Some ms) false).
Proof.
  unfold getRelativeTime. destruct (nested_floors (now - ms)) as [E1 [E2 E3]].
  rewrite E3, E2, E1. set (e := now - ms).
  assert (Hq : forall c k, 0 < c -> (e / c <? k) = (e <? k * c)).
  { intros c k Hc. destruct (Z.ltb_spec (e / c) k) as [H | H];
      destruct (Z.ltb_spec e (k * c)) as [H' | H']; try reflexivity; exfalso.
    - assert (k <= e / c) by (apply Z.div_le_lower_bound; lia). lia.
    - assert (e / c < k) by (apply Z.div_lt_upper_bound; lia). lia. }
  rewrite !Hq by lia. change (60 * 1000) with 60000. change (60 * 60000) with 3600000.
  change (24 * 3600000) with 86400000. change (30 * 86400000) with 2592000000.
  assert (Hb : forall c, 0 < c -> c <= e -> 1 <= e / c).
  { intros c Hc H. apply Z.div_le_lower_bound; lia. }
  assert (Hu : forall c k, 0 < c -> e < (k + 1) * c -> e / c <= k).
  { intros c k Hc H. apply Z.lt_succ_r, Z.div_lt_upper_bound; lia. }
  split; [| split; [| split; [| split]]]; intros H.
  - destruct (Z.ltb_spec e 60000); [reflexivity | lia].
  - destruct (Z.ltb_spec e 60000); [lia |].
    destruct (Z.ltb_spec e 3600000); [| lia].
    split; [| split; [apply Hb | apply Hu]; lia].
    unfold ago. rewrite JSFacts.BigInt_toString_nonneg; [reflexivity |].
    apply Z.div_pos; lia.
  - destruct (Z.ltb_spec e 60000); [lia |].
    destruct (Z.ltb_spec e 3600000); [lia |].
    destruct (Z.ltb_spec e 86400000); [| lia].
    split; [| split; [apply Hb | apply Hu]; lia].
    unfold ago. rewrite JSFacts.BigInt_toString_nonneg; [reflexivity |].
    apply Z.div_pos; lia.
  - destruct (Z.ltb_spec e 60000); [lia |].
    destruct (Z.ltb_spec e 3600000); [lia |].
    destruct (Z.ltb_spec e 86400000); [lia |].
    destruct (Z.ltb_spec e 2592000000); [| lia].
    split; [| split; [apply Hb | apply Hu]; lia].
    unfold ago. rewrite JSFacts.BigInt_toString_nonneg; [reflexivity |].
    apply Z.div_pos; lia.
  - destruct (Z.ltb_spec e 60000); [lia |].
    destruct (Z.ltb_spec e 3600000); [lia |].
    destruct (Z.ltb_spec e 86400000); [lia |].
    destruct (Z.ltb_spec e 2592000000); [lia | reflexivity].
Qed.

(** A block time in seconds and the same instant in milliseconds are
    read as the same date, as long as the instant lies more than 10^10
    ms and at most 10^10 s after the epoch (from 26 April 1970 to 20
    November 2286): the number is taken for milliseconds when it is
    greater than 10^10 and for seconds otherwise. *)
Theorem fromBlockTime_seconds_or_milliseconds (seconds : Z) :
  10000000 < seconds <= 10000000000 ->
  fromBlockTime seconds = Some (seconds * 1000) /\
  fromBlockTime (seconds * 1000) = fromBlockTime seconds.
Proof.
  intros H. unfold fromBlockTime, Date_new.
  destruct (Z.ltb_spec 10000000000 seconds); [lia |].
  destruct (Z.ltb_spec 10000000000 (seconds * 1000)); [| lia].
  destruct (Z.leb_spec (Z.abs (seconds * 1000)) 8640000000000000); [| lia].
  now split.
Qed.

Lemma fromBlockTime_seconds_or_milliseconds_witness :
  fromBlockTime 1705314600 = Some (1705314600 * 1000) /\
  fromBlockTime (1705314600 * 1000) = fromBlockTime 1705314600.
Proof. apply (fromBlockTime_seconds_or_milliseconds 1705314600). lia. Defined.

End DateExtras.
